(** * 1Shot wallet SDK: value codec, RPC bridge and x402 payment retry

    A shallow embedding of [ObjectUtils] (serialize / deserialize /
    deserializeUnsafe), of the nonce-correlated RPC bridge of [OneShotPay]
    and [WalletProxy], and of the [x402Fetch] orchestrator with its helpers
    from [x402Utils].

    Conventions of the model.
    - JavaScript strings are [string]s of code units below 256; numbers are
      integers ([Z]); fractional or exponent literals are outside the number
      model and the parser below does not accept them.
    - A JavaScript object is an association list in insertion order; the
      language keeps property names unique.
    - A function that may raise returns an [outcome]; a [ResultAsync] that
      settles is a [result]; a promise that never settles or whose chain is
      broken by an exception is made explicit where it matters. *)

From Stdlib Require Import ZArith Ascii String List Bool Lia ZifyNat.
From Stdlib Require Import DecimalString DecimalZ DecimalFacts Permutation Sorted.
From stdpp Require Import base option list gmap strings.

Local Open Scope string_scope.
Local Open Scope Z_scope.

Set Warnings "-register-all".

(** ** Outcomes *)

(** Exceptions raised by the platform or by the code. *)
Inductive exn : Type :=
| SyntaxError (msg : string)
| TypeError (msg : string)
| URIError (msg : string)
| InvalidCharacterError (msg : string)
| NetworkError (msg : string).

(** [(e as Error).message] *)
Definition exn_message (e : exn) : string :=
  match e with
  | SyntaxError m | TypeError m | URIError m | InvalidCharacterError m
  | NetworkError m => m
  end.

(** A synchronous JavaScript computation either returns or throws.
    [Unmodelled] marks an input that leaves the fragment of JavaScript
    covered here (a fractional number, a hexadecimal BigInt literal, ...):
    nothing is claimed about it. *)
Inductive outcome (A : Type) : Type :=
| Returned (a : A)
| Thrown (e : exn)
| Unmodelled.
Arguments Returned {A} a.
Arguments Thrown {A} e.
Arguments Unmodelled {A}.

#[global] Instance outcome_ret : MRet outcome := fun _ a => Returned a.
#[global] Instance outcome_bind : MBind outcome := fun _ _ f o =>
  match o with
  | Returned a => f a
  | Thrown e => Thrown e
  | Unmodelled => Unmodelled
  end.

(** [ValidationError.fromError(e)] *)
Inductive ValidationError : Type := ValidationError_fromError (e : exn).

(** A [ResultAsync] as its consumer meets it: a success, a typed failure,
    or a chain whose underlying promise rejected because a callback raised
    (no later [map], [mapErr] or [andThen] callback runs). *)
Inductive async (A E : Type) : Type :=
| Ok (a : A)
| Err (e : E)
| Rejected (e : exn).
Arguments Ok {A E} a.
Arguments Err {A E} e.
Arguments Rejected {A E} e.

(** ** JavaScript values *)

(** The values the codec and the bridge exchange. Functions and symbols
    are not modelled; what is proved of [serialize] is proved of these
    values. *)
Inductive value : Type :=
| VUndefined
| VNull
| VBool (b : bool)
| VNum (n : Z)
| VStr (s : string)
| VBigInt (n : Z)                         (* typeof v == "bigint" *)
| VBoxedBigInt (n : Z)                    (* Object(1n): instanceof BigInt *)
| VArr (items : list value)
| VObj (props : list (string * value))
| VError (name message stack : value)     (* instanceof Error *)
| VMap (entries : list (value * value))   (* instanceof Map, insertion order *)
| VSet (members : list value).            (* instanceof Set, insertion order *)

(** Size, used as the measure of the recursive proofs. *)
Fixpoint vsize (v : value) : nat :=
  match v with
  | VArr l => S (list_sum (List.map vsize l))
  | VObj ps => S (list_sum (List.map (fun p => S (vsize (snd p))) ps))
  | VError n m s => S (vsize n + vsize m + vsize s)
  | VMap es => S (list_sum (List.map (fun e => S (vsize (fst e) + vsize (snd e))) es))
  | VSet l => S (list_sum (List.map vsize l))
  | _ => 1%nat
  end.

(** JavaScript truthiness ([!v], [v || d], [if (v)]). *)
Definition truthy (v : value) : bool :=
  match v with
  | VUndefined | VNull => false
  | VBool b => b
  | VNum n => negb (n =? 0)
  | VStr s => negb (String.eqb s "")
  | VBigInt n => negb (n =? 0)
  | _ => true
  end.

(** [a || b] *)
Definition js_or (a b : value) : value := if truthy a then a else b.

(** [a ?? b] *)
Definition nullish (v : value) : bool :=
  match v with VUndefined | VNull => true | _ => false end.
Definition js_coalesce (a b : value) : value := if nullish a then b else a.

(** Own-property lookup in an object's property list. *)
Fixpoint assoc (k : string) (ps : list (string * value)) : option value :=
  match ps with
  | [] => None
  | (k', v) :: ps' => if String.eqb k k' then Some v else assoc k ps'
  end.

(** [k in v] for the values the codec meets: own properties of a plain
    object. Arrays, maps, sets and errors carry none of the two names the
    codec asks for. *)
Definition has_prop (k : string) (v : value) : bool :=
  match v with
  | VObj ps => match assoc k ps with Some _ => true | None => false end
  | _ => false
  end.

(** [v.k] on a value that is not null or undefined: own properties of
    objects and the three fields of an error. *)
Definition get_prop (k : string) (v : value) : value :=
  match v with
  | VObj ps => match assoc k ps with Some x => x | None => VUndefined end
  | VError n m s =>
      if String.eqb k "name" then n
      else if String.eqb k "message" then m
      else if String.eqb k "stack" then s
      else VUndefined
  | _ => VUndefined
  end.

(** [v.k], raising where JavaScript raises. *)
Definition get_member (k : string) (v : value) : outcome value :=
  match v with
  | VUndefined | VNull =>
      Thrown (TypeError ("Cannot read properties of null or undefined, reading " ++ k))
  | _ => Returned (get_prop k v)
  end.

(** ** Decimal text of integers *)

Definition dec (n : Z) : string := NilZero.string_of_int (Z.to_int n).

Definition is_digit (c : ascii) : bool :=
  let n := nat_of_ascii c in (48 <=? n)%nat && (n <=? 57)%nat.

Fixpoint span_digits (s : string) : string * string :=
  match s with
  | String c s' =>
      if is_digit c then let '(d, r) := span_digits s' in (String c d, r)
      else ("", s)
  | EmptyString => ("", "")
  end.

(** ** JSON text *)

Definition dquote : ascii := "034"%char.
Definition bslash : ascii := "092"%char.

Definition hex_digit (n : nat) : ascii :=
  nth n (list_ascii_of_string "0123456789abcdef") "0"%char.

(** One code unit inside a JSON string literal, as [JSON.stringify] quotes it. *)
Definition escape_char (c : ascii) : string :=
  let n := nat_of_ascii c in
  if (n =? 34)%nat then String bslash (String dquote "")
  else if (n =? 92)%nat then String bslash (String bslash "")
  else if (n =? 8)%nat then String bslash "b"
  else if (n =? 9)%nat then String bslash "t"
  else if (n =? 10)%nat then String bslash "n"
  else if (n =? 12)%nat then String bslash "f"
  else if (n =? 13)%nat then String bslash "r"
  else if (n <? 32)%nat then
    String bslash ("u00" ++ String (hex_digit (n / 16)) (String (hex_digit (n mod 16)) ""))
  else String c "".

Fixpoint escape (s : string) : string :=
  match s with
  | EmptyString => ""
  | String c s' => escape_char c ++ escape s'
  end.

Definition quote (s : string) : string :=
  String dquote (escape s ++ String dquote "").

(** Key order of safe-stable-stringify's deterministic mode: property names
    in ascending code-unit order, by insertion sort. *)
Definition key_lt (a b : string) : bool :=
  match String.compare a b with Lt => true | _ => false end.

Arguments key_lt : simpl never.

Fixpoint insert_key {A} (p : string * A) (l : list (string * A)) : list (string * A) :=
  match l with
  | [] => [p]
  | q :: l' => if key_lt (fst q) (fst p) then q :: insert_key p l' else p :: l
  end.

Fixpoint sort_keys {A} (l : list (string * A)) : list (string * A) :=
  match l with
  | [] => []
  | p :: l' => insert_key p (sort_keys l')
  end.

(** The text of a JSON tree, without white space, properties in the order
    of the list. The last three cases are never printed by the code below:
    a tree holds none of these nodes. *)
Fixpoint print (j : value) : string :=
  match j with
  | VNull => "null"
  | VBool b => if b then "true" else "false"
  | VNum n => dec n
  | VStr s => quote s
  | VArr l => "[" ++ String.concat "," (List.map print l) ++ "]"
  | VObj ps =>
      "{" ++ String.concat "," (List.map (fun p => quote (fst p) ++ ":" ++ print (snd p)) ps) ++ "}"
  | VUndefined => "null"
  | VBigInt n | VBoxedBigInt n => dec n
  | VError _ _ _ | VMap _ | VSet _ => "{}"
  end.

(** ** ObjectUtils.serialize *)

Definition tagged (tag : string) (payload : value) : value :=
  VObj [("dataType", VStr tag); ("value", payload)].

(** The replacer callback handed to [stringify]: one node in, one node out. *)
Definition replacer (v : value) : value :=
  match v with
  | VError n m s =>
      tagged "Error"
        (VObj [("name", js_or n (VStr "Error"));
               ("message", js_or m (VStr "Unknown error"));
               ("stack", js_or s VUndefined)])
  | VMap es => tagged "Map" (VArr (List.map (fun e => VArr [fst e; snd e]) es))
  | VSet ms => tagged "Set" (VArr ms)
  | VBoxedBigInt n => tagged "BigInt" (VStr (dec n))
  | VBigInt n => tagged "bigint" (VStr (dec n))
  | _ => v
  end.

(** The JSON tree safe-stable-stringify builds for a node the replacer has
    returned, given the tree [rec] of each child ([None] for undefined): a
    property that is undefined is left out, an array slot that is undefined
    becomes null, property names are sorted. *)
Definition keep {A} (p : string * option A) : option (string * A) :=
  (fun x => (fst p, x)) <$> snd p.

Definition tree_node (rec : value -> option value) (v : value) : option value :=
  match v with
  | VUndefined => None
  | VNull | VBool _ | VNum _ | VStr _ => Some v
  | VBigInt n => Some (VNum n)
  | VArr l => Some (VArr (List.map (fun x => default VNull (rec x)) l))
  | VObj ps => Some (VObj (sort_keys (omap (fun p => keep (fst p, rec (snd p))) ps)))
  | VBoxedBigInt _ | VError _ _ _ | VMap _ | VSet _ => Some (VObj [])
  end.

(** The tree of [stringify(obj, replacer)]: the replacer is applied to
    every node before it is walked, children included. Written by
    structural recursion; [to_json_unfold] below ties it to [replacer] and
    [tree_node]. *)
Fixpoint to_json (v : value) : option value :=
  match v with
  | VUndefined => None
  | VNull | VBool _ | VNum _ | VStr _ => Some v
  | VArr l => Some (VArr (List.map (fun x => default VNull (to_json x)) l))
  | VObj ps => Some (VObj (sort_keys (omap (fun p => keep (fst p, to_json (snd p))) ps)))
  | VError n m s =>
      Some (VObj (sort_keys
        [("dataType", VStr "Error");
         ("value", VObj (sort_keys (omap keep
            [("name", if truthy n then to_json n else Some (VStr "Error"));
             ("message", if truthy m then to_json m else Some (VStr "Unknown error"));
             ("stack", if truthy s then to_json s else None)])))]))
  | VMap es =>
      Some (VObj (sort_keys
        [("dataType", VStr "Map");
         ("value", VArr (List.map
            (fun e => VArr [default VNull (to_json (fst e));
                            default VNull (to_json (snd e))]) es))]))
  | VSet ms =>
      Some (VObj (sort_keys
        [("dataType", VStr "Set");
         ("value", VArr (List.map (fun x => default VNull (to_json x)) ms))]))
  | VBoxedBigInt n =>
      Some (VObj (sort_keys [("dataType", VStr "BigInt"); ("value", VStr (dec n))]))
  | VBigInt n =>
      Some (VObj (sort_keys [("dataType", VStr "bigint"); ("value", VStr (dec n))]))
  end.

(** [stringify(obj, replacer)] of safe-stable-stringify; [None] is the
    undefined it returns for an undefined value. *)
Definition stringify (v : value) : option string := print <$> to_json v.

(** [ObjectUtils.serialize]; the [JSONString] brand is the identity. *)
Definition serialize (obj : value) : option string := stringify obj.

(** ** JSON.parse *)

Definition is_ws (c : ascii) : bool :=
  let n := nat_of_ascii c in
  (n =? 32)%nat || (n =? 9)%nat || (n =? 10)%nat || (n =? 13)%nat.

Fixpoint skip_ws (s : string) : string :=
  match s with
  | String c s' => if is_ws c then skip_ws s' else s
  | EmptyString => ""
  end.

Definition hex_val (c : ascii) : option nat :=
  let n := nat_of_ascii c in
  if (48 <=? n)%nat && (n <=? 57)%nat then Some (n - 48)%nat
  else if (97 <=? n)%nat && (n <=? 102)%nat then Some (n - 87)%nat
  else if (65 <=? n)%nat && (n <=? 70)%nat then Some (n - 55)%nat
  else None.

(** A simple escape [\c]. *)
Definition unescape_char (c : ascii) : option ascii :=
  let n := nat_of_ascii c in
  if (n =? 34)%nat then Some dquote
  else if (n =? 92)%nat then Some bslash
  else if (n =? 47)%nat then Some "/"%char
  else if (n =? 98)%nat then Some (ascii_of_nat 8)
  else if (n =? 116)%nat then Some (ascii_of_nat 9)
  else if (n =? 110)%nat then Some (ascii_of_nat 10)
  else if (n =? 102)%nat then Some (ascii_of_nat 12)
  else if (n =? 114)%nat then Some (ascii_of_nat 13)
  else None.

(** Result of a parsing step: a value and the rest of the text, a syntax
    error, or a text outside the model. *)
Inductive parsed (A : Type) : Type :=
| Parsed (a : A) (rest : string)
| Malformed
| OutOfModel.
Arguments Parsed {A} a rest.
Arguments Malformed {A}.
Arguments OutOfModel {A}.

Definition pbind {A B} (p : parsed A) (f : A -> string -> parsed B) : parsed B :=
  match p with
  | Parsed a r => f a r
  | Malformed => Malformed
  | OutOfModel => OutOfModel
  end.

(** The body of a string literal, after its opening quote, up to and
    including the closing quote. Escapes [\uXXXX] are read inside the
    alphabet of the model (XXXX below 0100). *)
Fixpoint parse_chars (s : string) : parsed string :=
  match s with
  | EmptyString => Malformed
  | String c s' =>
      if (nat_of_ascii c =? 34)%nat then Parsed "" s'
      else if (nat_of_ascii c =? 92)%nat then
        match s' with
        | String e s'' =>
            if (nat_of_ascii e =? 117)%nat then
              match s'' with
              | String h1 (String h2 (String h3 (String h4 s3))) =>
                  match hex_val h1, hex_val h2, hex_val h3, hex_val h4 with
                  | Some 0%nat, Some 0%nat, Some a, Some b =>
                      pbind (parse_chars s3)
                        (fun t r => Parsed (String (ascii_of_nat (16 * a + b)) t) r)
                  | Some _, Some _, Some _, Some _ => OutOfModel
                  | _, _, _, _ => Malformed
                  end
              | _ => Malformed
              end
            else
              match unescape_char e with
              | Some x => pbind (parse_chars s'') (fun t r => Parsed (String x t) r)
              | None => Malformed
              end
        | EmptyString => Malformed
        end
      else if (nat_of_ascii c <? 32)%nat then Malformed
      else pbind (parse_chars s') (fun t r => Parsed (String c t) r)
  end.

(** An integer literal: optional minus, then [0] or a digit string without a
    leading zero. A following fraction or exponent is outside the model. *)
Definition starts_fraction (s : string) : bool :=
  match s with
  | String c _ =>
      let n := nat_of_ascii c in (n =? 46)%nat || (n =? 101)%nat || (n =? 69)%nat
  | EmptyString => false
  end.

Definition leading_zero (ds : string) : bool :=
  match ds with
  | String c (String _ _) => (nat_of_ascii c =? 48)%nat
  | _ => false
  end.

Definition parse_digits (s : string) : parsed Z :=
  let '(ds, rest) := span_digits s in
  match ds with
  | EmptyString => Malformed
  | String _ _ =>
      if leading_zero ds then Malformed
      else if starts_fraction rest then OutOfModel
      else match NilEmpty.uint_of_string ds with
           | Some u => Parsed (Z.of_uint u) rest
           | None => Malformed
           end
  end.

Definition parse_number (s : string) : parsed value :=
  match s with
  | String c s' =>
      if (nat_of_ascii c =? 45)%nat
      then pbind (parse_digits s') (fun n r => Parsed (VNum (- n)) r)
      else pbind (parse_digits s) (fun n r => Parsed (VNum n) r)
  | EmptyString => Malformed
  end.

(** [s] without the prefix [p], when it starts with it. *)
Fixpoint strip_prefix (p s : string) : option string :=
  match p, s with
  | EmptyString, _ => Some s
  | String a p', String b s' => if Ascii.eqb a b then strip_prefix p' s' else None
  | String _ _, EmptyString => None
  end.

(** [o[k] = v] on a property list: overwrite in place or append. *)
Fixpoint set_prop (k : string) (v : value) (ps : list (string * value))
  : list (string * value) :=
  match ps with
  | [] => [(k, v)]
  | (k', v') :: ps' =>
      if String.eqb k k' then (k, v) :: ps' else (k', v') :: set_prop k v ps'
  end.

(** The object a member list denotes: a repeated name keeps its last value. *)
Definition object_of_members (ms : list (string * value)) : list (string * value) :=
  fold_left (fun acc p => set_prop (fst p) (snd p) acc) ms [].

(** A separator or a closing bracket after an item. *)
Inductive after_item : Type := More (rest : string) | Closed (rest : string) | Stray.

Definition next_item (close : nat) (s : string) : after_item :=
  match skip_ws s with
  | String c r =>
      if (nat_of_ascii c =? 44)%nat then More r
      else if (nat_of_ascii c =? close)%nat then Closed r
      else Stray
  | EmptyString => Stray
  end.

(** Recursive descent over the text. [fuel] bounds the nesting of calls;
    every call but the first follows at least one consumed character, and a
    text that exhausts it is reported as outside the model. *)
Fixpoint parse_value (fuel : nat) (s : string) : parsed value :=
  match fuel with
  | O => OutOfModel
  | S fuel' =>
      match skip_ws s with
      | EmptyString => Malformed
      | String c s' =>
          if (nat_of_ascii c =? 91)%nat then            (* [ *)
            match next_item 93 s' with
            | Closed r => Parsed (VArr []) r
            | _ => pbind (parse_elements fuel' s') (fun l r => Parsed (VArr l) r)
            end
          else if (nat_of_ascii c =? 123)%nat then      (* { *)
            match next_item 125 s' with
            | Closed r => Parsed (VObj []) r
            | _ => pbind (parse_members fuel' s')
                     (fun ms r => Parsed (VObj (object_of_members ms)) r)
            end
          else if (nat_of_ascii c =? 34)%nat then
            pbind (parse_chars s') (fun t r => Parsed (VStr t) r)
          else
            match strip_prefix "true" (String c s') with
            | Some r => Parsed (VBool true) r
            | None =>
            match strip_prefix "false" (String c s') with
            | Some r => Parsed (VBool false) r
            | None =>
            match strip_prefix "null" (String c s') with
            | Some r => Parsed VNull r
            | None => parse_number (String c s')
            end end end
      end
  end
with parse_elements (fuel : nat) (s : string) : parsed (list value) :=
  match fuel with
  | O => OutOfModel
  | S fuel' =>
      pbind (parse_value fuel' s) (fun v r =>
        match next_item 93 r with
        | More r' => pbind (parse_elements fuel' r') (fun l r'' => Parsed (v :: l) r'')
        | Closed r' => Parsed [v] r'
        | Stray => Malformed
        end)
  end
with parse_members (fuel : nat) (s : string) : parsed (list (string * value)) :=
  match fuel with
  | O => OutOfModel
  | S fuel' =>
      match skip_ws s with
      | String q s1 =>
          if (nat_of_ascii q =? 34)%nat then
            pbind (parse_chars s1) (fun k r1 =>
              match skip_ws r1 with
              | String c r2 =>
                  if (nat_of_ascii c =? 58)%nat then
                    pbind (parse_value fuel' r2) (fun v r3 =>
                      match next_item 125 r3 with
                      | More r4 =>
                          pbind (parse_members fuel' r4)
                            (fun ms r5 => Parsed ((k, v) :: ms) r5)
                      | Closed r4 => Parsed [(k, v)] r4
                      | Stray => Malformed
                      end)
                  else Malformed
              | EmptyString => Malformed
              end)
          else Malformed
      | EmptyString => Malformed
      end
  end.

(** [JSON.parse]: one value, then only white space. *)
Definition JSON_parse (text : string) : outcome value :=
  match parse_value (2 * String.length text + 2) text with
  | Parsed v r =>
      match skip_ws r with
      | EmptyString => Returned v
      | String _ _ => Thrown (SyntaxError "Unexpected non-whitespace character after JSON")
      end
  | Malformed => Thrown (SyntaxError "Unexpected token or end of JSON input")
  | OutOfModel => Unmodelled
  end.

(** ** Coercions and constructors of the language *)

Definition is_space (c : ascii) : bool :=
  let n := nat_of_ascii c in
  ((9 <=? n)%nat && (n <=? 13)%nat) || (n =? 32)%nat || (n =? 160)%nat.

Fixpoint trim_left (s : string) : string :=
  match s with
  | String c s' => if is_space c then trim_left s' else s
  | EmptyString => ""
  end.

Fixpoint trim_right (s : string) : string :=
  match s with
  | String c s' =>
      let t := trim_right s' in
      if is_space c && String.eqb t "" then "" else String c t
  | EmptyString => ""
  end.

(** [s.trim()] *)
Definition js_trim (s : string) : string := trim_right (trim_left s).

Fixpoint all_digits (s : string) : bool :=
  match s with
  | String c s' => is_digit c && all_digits s'
  | EmptyString => true
  end.

(** [String(v)] *)
Fixpoint js_to_string (v : value) : string :=
  match v with
  | VUndefined => "undefined"
  | VNull => "null"
  | VBool b => if b then "true" else "false"
  | VNum n => dec n
  | VStr s => s
  | VBigInt n => dec n
  | VBoxedBigInt n => dec n
  | VArr l =>
      String.concat ","
        (List.map (fun x => match x with
                            | VUndefined | VNull => ""
                            | _ => js_to_string x
                            end) l)
  | VObj _ => "[object Object]"
  | VError n m _ =>
      let name := match n with VUndefined => "Error" | _ => js_to_string n end in
      let msg := match m with VUndefined => "" | _ => js_to_string m end in
      if String.eqb name "" then msg
      else if String.eqb msg "" then name
      else name ++ ": " ++ msg
  | VMap _ => "[object Map]"
  | VSet _ => "[object Set]"
  end.

Definition unsigned_digits (ds : string) : outcome Z :=
  if negb (String.eqb ds "") && all_digits ds then
    match NilEmpty.uint_of_string ds with
    | Some u => Returned (Z.of_uint u)
    | None => Thrown (SyntaxError ("Cannot convert " ++ ds ++ " to a BigInt"))
    end
  else Thrown (SyntaxError ("Cannot convert " ++ ds ++ " to a BigInt")).

Definition radix_prefix (t : string) : bool :=
  match t with
  | String z (String x _) =>
      (nat_of_ascii z =? 48)%nat &&
      existsb (fun n => (nat_of_ascii x =? n)%nat) [120; 88; 111; 79; 98; 66]%nat
  | _ => false
  end.

(** The integer a string denotes for [BigInt(s)]: signed decimal digits,
    white space around them ignored, the empty text being zero. Literals in
    another radix are outside the model. *)
Definition bigint_of_string (s : string) : outcome Z :=
  let t := js_trim s in
  if String.eqb t "" then Returned 0
  else if radix_prefix t then Unmodelled
  else match t with
       | String c ds =>
           if (nat_of_ascii c =? 45)%nat then n ← unsigned_digits ds; mret (- n)
           else if (nat_of_ascii c =? 43)%nat then unsigned_digits ds
           else unsigned_digits t
       | EmptyString => Returned 0
       end.

(** [BigInt(v)] *)
Definition js_BigInt (v : value) : outcome value :=
  match v with
  | VUndefined | VNull => Thrown (TypeError "Cannot convert null or undefined to a BigInt")
  | VBool b => Returned (VBigInt (if b then 1 else 0))
  | VNum n => Returned (VBigInt n)
  | VBigInt n | VBoxedBigInt n => Returned (VBigInt n)
  | _ => n ← bigint_of_string (js_to_string v); mret (VBigInt n)
  end.

Definition is_primitive (v : value) : bool :=
  match v with
  | VUndefined | VNull | VBool _ | VNum _ | VStr _ | VBigInt _ => true
  | _ => false
  end.

(** SameValueZero, the key equality of [Map] and [Set]. Objects are equal
    only to themselves; the objects met here are freshly built and distinct. *)
Definition same_value_zero (a b : value) : bool :=
  match a, b with
  | VUndefined, VUndefined => true
  | VNull, VNull => true
  | VBool x, VBool y => Bool.eqb x y
  | VNum x, VNum y => x =? y
  | VStr x, VStr y => String.eqb x y
  | VBigInt x, VBigInt y => x =? y
  | _, _ => false
  end.

(** [map.set(k, v)] *)
Fixpoint map_set (k v : value) (es : list (value * value)) : list (value * value) :=
  match es with
  | [] => [(k, v)]
  | (k', v') :: es' =>
      if same_value_zero k k' then (k', v) :: es' else (k', v') :: map_set k v es'
  end.

(** [set.add(x)] *)
Fixpoint set_add (x : value) (ms : list value) : list value :=
  match ms with
  | [] => [x]
  | y :: ms' => if same_value_zero x y then ms else y :: set_add x ms'
  end.

(** The items an iterable argument of [new Map] or [new Set] yields; null
    and undefined stand for no items. *)
Definition iterate (v : value) : outcome (list value) :=
  match v with
  | VUndefined | VNull => Returned []
  | VArr l => Returned l
  | VStr s => Returned (List.map (fun c => VStr (String c "")) (list_ascii_of_string s))
  | VMap es => Returned (List.map (fun e => VArr [fst e; snd e]) es)
  | VSet ms => Returned ms
  | _ => Thrown (TypeError "object is not iterable")
  end.

(** An item of the [Map] constructor read as an entry: [item[0]], [item[1]]. *)
Definition entry_of (item : value) : outcome (value * value) :=
  match item with
  | VArr l => Returned (nth 0 l VUndefined, nth 1 l VUndefined)
  | VObj ps => Returned (get_prop "0" item, get_prop "1" item)
  | VError _ _ _ | VMap _ | VSet _ | VBoxedBigInt _ => Returned (VUndefined, VUndefined)
  | _ => Thrown (TypeError "Iterator value is not an entry object")
  end.

(** [new Map(v)] *)
Definition new_Map (v : value) : outcome value :=
  items ← iterate v;
  es ← mapM entry_of items;
  mret (VMap (fold_left (fun acc e => map_set (fst e) (snd e) acc) es [])).

(** [new Set(v)] *)
Definition new_Set (v : value) : outcome value :=
  items ← iterate v;
  mret (VSet (fold_left (fun acc x => set_add x acc) items [])).

(** The two classes share the correlation code; they differ in how
    [rpcCall] chains its cleanup. *)
Inductive bridge_class : Type := OneShotPayClass | WalletProxyClass.

(** [ProxyError]: built from a rejection value, from an exception raised
    while dispatching, or for a bridge that was never initialized. *)
Inductive ProxyError : Type :=
| ProxyError_fromError (src : value)
| ProxyError_fromExn (e : exn)
| ProxyError_notInitialized.

Section Engine.

(** The [stack] an engine attaches to [new Error(message)] on its own: a
    trace text, or undefined on an engine without the property. *)
Variable engineStack : string -> value.

(** The error rebuilt from the payload of an ["Error"] wrapper; shared by
    both decoders. *)
Definition revive_error (errorData : value) : outcome value :=
  m ← get_member "message" errorData;
  let message := js_to_string (js_or m (VStr "Unknown error")) in
  n ← get_member "name" errorData;
  s ← get_member "stack" errorData;
  mret (VError (js_or n (VStr "Error")) (VStr message)
               (if truthy s then s else engineStack message)).

(** [typeof v === "object" && v !== null] *)
Definition is_object (v : value) : bool :=
  match v with
  | VArr _ | VObj _ | VError _ _ _ | VMap _ | VSet _ | VBoxedBigInt _ => true
  | _ => false
  end.

Definition str_is (v : value) (s : string) : bool :=
  match v with VStr t => String.eqb t s | _ => false end.

(** The tagged-wrapper branch of [processValue]: [Some] when one of the
    four tags applies, [None] when control falls through. *)
Definition process_tagged (v : value) : option (outcome value) :=
  if is_object v && has_prop "dataType" v && has_prop "value" v then
    let dataType := get_prop "dataType" v in
    let dataValue := get_prop "value" v in
    if str_is dataType "Error" then Some (revive_error dataValue)
    else if str_is dataType "Map" then Some (new_Map dataValue)
    else if str_is dataType "Set" then Some (new_Set dataValue)
    else if str_is dataType "BigInt" || str_is dataType "bigint"
    then Some (js_BigInt dataValue)
    else None
  else None.

(** [processValue] of [ObjectUtils.deserialize]. *)
Fixpoint processValue (v : value) : outcome value :=
  match process_tagged v with
  | Some r => r
  | None =>
      match v with
      | VArr l => l' ← mapM processValue l; mret (VArr l')
      | VObj ps =>
          ps' ← mapM (fun p => x ← processValue (snd p); mret (fst p, x)) ps;
          mret (VObj ps')
      | VError _ _ _ | VMap _ | VSet _ | VBoxedBigInt _ => mret (VObj [])
      | _ => mret v
      end
  end.

(** ** ObjectUtils.deserialize and deserializeUnsafe *)

(** [ObjectUtils.deserialize]. [JSON.parse(json)] is an argument of
    [Promise.resolve], itself an argument of [ResultAsync.fromPromise]: it
    is evaluated before either is entered, so what it raises leaves
    [deserialize]. The promise handed to [fromPromise] is already resolved,
    so its error mapper never runs. [processValue] runs inside [andThen]. *)
Definition deserialize (json : string) : outcome (async value ValidationError) :=
  match JSON_parse json with
  | Returned parsed =>
      match processValue parsed with
      | Returned processed => Returned (Ok processed)
      | Thrown e => Returned (Rejected e)
      | Unmodelled => Unmodelled
      end
  | Thrown e => Thrown e
  | Unmodelled => Unmodelled
  end.

(** The reviver of [deserializeUnsafe], called on a node whose children
    have been revived. *)
Definition reviver (v : value) : outcome value :=
  if is_object v then
    let dataType := get_prop "dataType" v in
    if str_is dataType "Error" then revive_error (get_prop "value" v)
    else if str_is dataType "Map" then new_Map (get_prop "value" v)
    else if str_is dataType "Set" then new_Set (get_prop "value" v)
    else if str_is dataType "BigInt" then js_BigInt (get_prop "value" v)
    else if str_is dataType "bigint" then js_BigInt (get_prop "value" v)
    else Returned v
  else Returned v.

(** [JSON.parse]'s walk with a reviver: children first, then the node. *)
Fixpoint revive (v : value) : outcome value :=
  match v with
  | VArr l => l' ← mapM revive l; reviver (VArr l')
  | VObj ps =>
      ps' ← mapM (fun p => x ← revive (snd p); mret (fst p, x)) ps;
      reviver (VObj ps')
  | _ => reviver v
  end.

(** [ObjectUtils.deserializeUnsafe] *)
Definition deserializeUnsafe (json : string) : outcome value :=
  parsed ← JSON_parse json; revive parsed.

(** [ObjectUtils.toGenericObject] *)
Definition toGenericObject (obj : value) : outcome (async value ValidationError) :=
  match serialize obj with
  | Some json => deserialize json
  | None => deserialize "undefined"
  end.

(** ** The RPC bridge ([OneShotPay] and [WalletProxy]) *)

(** The channel handle. [call_raises] is the exception [child.call] raises
    when the transport is down. *)
Record channel : Type := { call_raises : option exn }.

(** What the outside can observe of a bridge. A call is named by the
    identity of the promise [rpcCall] creates for it. *)
Inductive event : Type :=
| Prepared (call : nat) (interactive : bool)
| Restored (call : nat)
| Called (eventName : string) (payload : string)
| Debugged (text : string)
| Warned (text : string).

Record bridge : Type := {
  child : option channel;
  rpcNonce : Z;
  rpcCallbacks : gmap Z nat;        (* nonce to the promise its closure settles *)
  isVisible : bool;
  interactive : gmap nat bool;      (* requireInteraction captured by each call *)
  nextPromise : nat;                (* identity of the next promise created *)
  settled : gmap nat (async value ProxyError);
  log : list event
}.

Definition new_bridge : bridge :=
  {| child := None; rpcNonce := 0; rpcCallbacks := ∅; isVisible := false;
     interactive := ∅; nextPromise := 0%nat; settled := ∅; log := [] |}.

(** [isInitialized] *)
Definition isInitialized (b : bridge) : bool :=
  match child b with Some _ => true | None => false end.

(** [initialize], once the handshake promise has settled. *)
Definition initialize (handshake : exn + channel) (b : bridge)
  : bridge * async unit ProxyError :=
  match handshake with
  | inr c =>
      ({| child := Some c; rpcNonce := rpcNonce b; rpcCallbacks := rpcCallbacks b;
          isVisible := isVisible b; interactive := interactive b;
          nextPromise := nextPromise b; settled := settled b; log := log b |},
       Ok tt)
  | inl e => (b, Err (ProxyError_fromExn e))
  end.

Definition add_log (evs : list event) (b : bridge) : bridge :=
  {| child := child b; rpcNonce := rpcNonce b; rpcCallbacks := rpcCallbacks b;
     isVisible := isVisible b; interactive := interactive b;
     nextPromise := nextPromise b; settled := settled b; log := log b ++ evs |}.

(** The tail of [rpcCall]'s chain, run when promise [p] settles; a promise
    settles once, a later resolve or reject is ignored.
    [OneShotPay]: [.map(restore ...).mapErr(restore ...)].
    [WalletProxy]: [.map(restore ...)] alone. *)
Definition settle (cls : bridge_class) (p : nat) (r : async value ProxyError)
    (b : bridge) : bridge :=
  match settled b !! p with
  | Some _ => b
  | None =>
      let restores :=
        match cls, r with
        | _, Ok _ => true
        | OneShotPayClass, Err _ => true
        | WalletProxyClass, Err _ => false
        | _, Rejected _ => false
        end in
      let hides :=
        match cls with
        | OneShotPayClass => restores && default false (interactive b !! p)
        | WalletProxyClass => false
        end in
      {| child := child b; rpcNonce := rpcNonce b; rpcCallbacks := rpcCallbacks b;
         isVisible := if hides then false else isVisible b;
         interactive := interactive b; nextPromise := nextPromise b;
         settled := <[p := r]> (settled b);
         log := log b ++ (if restores then [Restored p] else []) |}
  end.

(** The request envelope [{eventName, callbackNonce, params}], serialized. *)
Definition request_text (eventName : string) (callbackNonce : Z) (params : value) : string :=
  default "" (serialize (VObj [("eventName", VStr eventName);
                               ("callbackNonce", VNum callbackNonce);
                               ("params", params)])).

(** [rpcCall]. Returns the bridge after the synchronous part and either the
    immediate failure or the promise the caller now waits on.
    [WalletProxy] has no [requireInteraction] parameter and always prepares
    for WebAuthn. *)
Definition rpcCall (cls : bridge_class) (eventName : string) (params : value)
    (requireInteraction : bool) (b : bridge) : bridge * (ProxyError + nat) :=
  match child b with
  | None => (b, inl ProxyError_notInitialized)
  | Some ch =>
      let shown :=
        match cls with OneShotPayClass => requireInteraction | WalletProxyClass => false end in
      let p := nextPromise b in
      let callbackNonce := rpcNonce b in
      let b1 :=
        {| child := child b;
           rpcNonce := callbackNonce + 1;
           rpcCallbacks := <[callbackNonce := p]> (rpcCallbacks b);
           isVisible := if shown then true else isVisible b;
           interactive := <[p := shown]> (interactive b);
           nextPromise := S p;
           settled := settled b;
           log := log b ++ [Prepared p shown] |} in
      match call_raises ch with
      | Some e => (settle cls p (Err (ProxyError_fromExn e)) b1, inr p)
      | None =>
          (add_log [Called eventName (request_text eventName callbackNonce params)] b1,
           inr p)
      end
  end.

(** [Map.prototype.get] on the pending table: only a number can be a key. *)
Definition pending (b : bridge) (nonce : value) : option (Z * nat) :=
  match nonce with
  | VNum n => (fun p => (n, p)) <$> rpcCallbacks b !! n
  | _ => None
  end.

Definition forget (n : Z) (b : bridge) : bridge :=
  {| child := child b; rpcNonce := rpcNonce b;
     rpcCallbacks := delete n (rpcCallbacks b);
     isVisible := isVisible b; interactive := interactive b;
     nextPromise := nextPromise b; settled := settled b; log := log b |}.

(** The closure stored by [rpcCall], applied to a response envelope. It
    raises when [result.result] does not decode; the promise then stays
    unsettled. *)
Definition run_callback (cls : bridge_class) (p : nat) (result : value) (b : bridge)
  : outcome bridge :=
  let text := js_to_string (get_prop "result" result) in
  decoded ← deserializeUnsafe text;
  if truthy (get_prop "success" result)
  then mret (settle cls p (Ok decoded) b)
  else mret (settle cls p (Err (ProxyError_fromError decoded)) b).

(** The body of the [rpcCallback] listener's [map] callback. *)
Definition on_envelope (cls : bridge_class) (result : value) (b : bridge) : outcome bridge :=
  nonce ← get_member "callbackNonce" result;
  let b1 := add_log [Debugged ("Received callback from Wallet for nonce " ++ js_to_string nonce)] b in
  match pending b1 nonce with
  | None => mret (add_log [Warned "Received RPC callback event that is not expected."] b1)
  | Some (n, p) => run_callback cls p result (forget n b1)
  end.

(** What a run of the listener leaves behind when its [map] callback raises
    after the pending entry was looked up: the entry is already removed. *)
Definition on_envelope_aborted (result : value) (b : bridge) : bridge :=
  match get_member "callbackNonce" result with
  | Returned nonce =>
      let b1 := add_log [Debugged ("Received callback from Wallet for nonce " ++ js_to_string nonce)] b in
      match pending b1 nonce with
      | Some (n, _) => forget n b1
      | None => b1
      end
  | _ => b
  end.

(** The [rpcCallback] listener installed by [initialize], applied to one
    message. It returns the bridge afterwards, or the exception that leaves
    the listener. An exception inside the [map] callback stays inside the
    chain. *)
Definition deliver (cls : bridge_class) (data : string) (b : bridge) : outcome bridge :=
  match child b with
  | None => Returned b
  | Some _ =>
      match deserialize data with
      | Returned (Ok result) =>
          match on_envelope cls result b with
          | Returned b' => Returned b'
          | Thrown _ => Returned (on_envelope_aborted result b)
          | Unmodelled => Unmodelled
          end
      | Returned (Err _) | Returned (Rejected _) => Returned b
      | Thrown e => Thrown e
      | Unmodelled => Unmodelled
      end
  end.

End Engine.

(** ** Text helpers of the payment flow *)

(** [s.toLowerCase()] on code units below 256: A-Z and the Latin-1 capitals. *)
Definition lower_char (c : ascii) : ascii :=
  let n := nat_of_ascii c in
  if ((65 <=? n)%nat && (n <=? 90)%nat)
     || ((192 <=? n)%nat && (n <=? 222)%nat && negb (n =? 215)%nat)
  then ascii_of_nat (n + 32) else c.

Fixpoint toLowerCase (s : string) : string :=
  match s with
  | String c s' => String (lower_char c) (toLowerCase s')
  | EmptyString => ""
  end.

(** [s.startsWith("{") || s.startsWith("[")] *)
Definition starts_json (s : string) : bool :=
  match s with
  | String c _ => (nat_of_ascii c =? 123)%nat || (nat_of_ascii c =? 91)%nat
  | EmptyString => false
  end.

(** [s.replace(/^"+|"+$/g, "")]: quotes stripped from both ends. *)
Fixpoint strip_quotes_left (s : string) : string :=
  match s with
  | String c s' => if (nat_of_ascii c =? 34)%nat then strip_quotes_left s' else s
  | EmptyString => ""
  end.

Fixpoint strip_quotes_right (s : string) : string :=
  match s with
  | String c s' =>
      let t := strip_quotes_right s' in
      if (nat_of_ascii c =? 34)%nat && String.eqb t "" then "" else String c t
  | EmptyString => ""
  end.

Definition strip_quotes (s : string) : string := strip_quotes_right (strip_quotes_left s).

(** *** UTF-8 over the alphabet of the model *)

(** [unescape(encodeURIComponent(s))]: the UTF-8 bytes of [s]. *)
Fixpoint utf8_encode (s : string) : list nat :=
  match s with
  | String c s' =>
      let n := nat_of_ascii c in
      if (n <? 128)%nat then n :: utf8_encode s'
      else (192 + n / 64)%nat :: (128 + n mod 64)%nat :: utf8_encode s'
  | EmptyString => []
  end.

(** [decodeURIComponent(escape(bytes))]. A sequence that encodes a code
    point from 256 upwards is outside the model. *)
Fixpoint utf8_decode (bs : list nat) : outcome string :=
  match bs with
  | [] => Returned ""
  | b :: bs' =>
      if (b <? 128)%nat then t ← utf8_decode bs'; mret (String (ascii_of_nat b) t)
      else if (b =? 194)%nat || (b =? 195)%nat then
        match bs' with
        | b2 :: bs'' =>
            if (128 <=? b2)%nat && (b2 <? 192)%nat
            then t ← utf8_decode bs'';
                 mret (String (ascii_of_nat ((b - 192) * 64 + (b2 - 128))) t)
            else Thrown (URIError "URI malformed")
        | [] => Thrown (URIError "URI malformed")
        end
      else if (196 <=? b)%nat && (b <=? 244)%nat then Unmodelled
      else Thrown (URIError "URI malformed")
  end.

(** *** Base64 ([btoa] and [atob]) *)

Definition b64_alphabet : list ascii :=
  list_ascii_of_string "ABCDEFGHIJKLMNOPQRSTUVWXYZabcdefghijklmnopqrstuvwxyz0123456789+/".

Definition b64_char (n : nat) : ascii := nth n b64_alphabet "="%char.

Definition b64_index (c : ascii) : option nat :=
  let n := nat_of_ascii c in
  if (65 <=? n)%nat && (n <=? 90)%nat then Some (n - 65)%nat
  else if (97 <=? n)%nat && (n <=? 122)%nat then Some (n - 71)%nat
  else if (48 <=? n)%nat && (n <=? 57)%nat then Some (n + 4)%nat
  else if (n =? 43)%nat then Some 62%nat
  else if (n =? 47)%nat then Some 63%nat
  else None.

(** Sextets of a byte string, three bytes at a time, and back. *)
Fixpoint sextets (bs : list nat) : list nat * nat :=
  match bs with
  | a :: b :: c :: bs' =>
      let '(r, pad) := sextets bs' in
      ((a / 4 :: (a mod 4) * 16 + b / 16 :: (b mod 16) * 4 + c / 64 :: c mod 64 :: r)%nat, pad)
  | [a; b] => ([a / 4; (a mod 4) * 16 + b / 16; (b mod 16) * 4]%nat, 1%nat)
  | [a] => ([a / 4; (a mod 4) * 16]%nat, 2%nat)
  | [] => ([], 0%nat)
  end.

Fixpoint octets (ss : list nat) : option (list nat) :=
  match ss with
  | s0 :: s1 :: s2 :: s3 :: ss' =>
      (fun r => (s0 * 4 + s1 / 16 :: (s1 mod 16) * 16 + s2 / 4 :: (s2 mod 4) * 64 + s3 :: r)%nat)
        <$> octets ss'
  | [s0; s1; s2] => Some [s0 * 4 + s1 / 16; (s1 mod 16) * 16 + s2 / 4]%nat
  | [s0; s1] => Some [s0 * 4 + s1 / 16]%nat
  | [_] => None
  | [] => Some []
  end.

(** [btoa] of a byte string. *)
Definition btoa (bs : list nat) : string :=
  let '(ss, pad) := sextets bs in
  string_of_list_ascii (List.map b64_char ss ++ repeat "="%char pad).

Definition is_ascii_ws (c : ascii) : bool :=
  let n := nat_of_ascii c in
  (n =? 9)%nat || (n =? 10)%nat || (n =? 12)%nat || (n =? 13)%nat || (n =? 32)%nat.

(** Up to two padding characters dropped from the end of a reversed text. *)
Definition drop_padding (rev_cs : list ascii) : list ascii :=
  match rev_cs with
  | p :: q :: r =>
      if (nat_of_ascii p =? 61)%nat then
        if (nat_of_ascii q =? 61)%nat then r else q :: r
      else rev_cs
  | [p] => if (nat_of_ascii p =? 61)%nat then [] else rev_cs
  | [] => []
  end.

(** [atob]: the forgiving base64 decoding of the platform. *)
Definition atob (s : string) : outcome (list nat) :=
  let cs := List.filter (fun c => negb (is_ascii_ws c)) (list_ascii_of_string s) in
  let cs' :=
    if (length cs mod 4 =? 0)%nat then List.rev (drop_padding (List.rev cs)) else cs in
  match mapM b64_index cs' with
  | Some ss =>
      match octets ss with
      | Some bs => Returned bs
      | None => Thrown (InvalidCharacterError "The string to be decoded is not correctly encoded.")
      end
  | None => Thrown (InvalidCharacterError "The string to be decoded is not correctly encoded.")
  end.

(** [x402Base64EncodeUtf8], browser path. *)
Definition x402Base64EncodeUtf8 (input : string) : string := btoa (utf8_encode input).

(** [x402Base64DecodeUtf8], browser path. *)
Definition x402Base64DecodeUtf8 (input : string) : outcome string :=
  bs ← atob input; utf8_decode bs.

(** *** The platform's [JSON.stringify] *)

(** The tree [JSON.stringify(v)] prints, without a replacer: properties in
    insertion order, a bigint refused. *)
Fixpoint native_json (v : value) : outcome (option value) :=
  match v with
  | VUndefined => Returned None
  | VNull | VBool _ | VNum _ | VStr _ => Returned (Some v)
  | VBigInt _ | VBoxedBigInt _ => Thrown (TypeError "Do not know how to serialize a BigInt")
  | VArr l =>
      l' ← mapM native_json l;
      mret (Some (VArr (List.map (fun x => default VNull x) l')))
  | VObj ps =>
      ps' ← mapM (fun p => x ← native_json (snd p); mret (fst p, x)) ps;
      mret (Some (VObj (omap keep ps')))
  | VError _ _ _ | VMap _ | VSet _ => Returned (Some (VObj []))
  end.

Definition JSON_stringify (v : value) : outcome (option string) :=
  match native_json v with
  | Returned t => Returned (print <$> t)
  | Thrown e => Thrown e
  | Unmodelled => Unmodelled
  end.

(** ** x402Utils *)

(** The three shapes of [RequestInfo | URL]. *)
Inductive request_input : Type :=
| InputString (url : string)
| InputURL (href : string)
| InputRequest (url : string).

Definition x402ResolveRequestUrl (input : request_input) : string :=
  match input with
  | InputString url => url
  | InputURL href => href
  | InputRequest url => url
  end.

(** [x402ParseJsonOrBase64Json] *)
Definition x402ParseJsonOrBase64Json (raw : string) : outcome value :=
  let trimmed := js_trim raw in
  if starts_json trimmed then JSON_parse trimmed
  else
    match (decoded ← x402Base64DecodeUtf8 trimmed; JSON_parse decoded) with
    | Returned v => Returned v
    | Unmodelled => Unmodelled
    | Thrown _ =>
        let unquoted := strip_quotes trimmed in
        if starts_json unquoted then JSON_parse unquoted
        else decoded ← x402Base64DecodeUtf8 unquoted; JSON_parse decoded
    end.

Definition is_array (v : value) : bool :=
  match v with VArr _ => true | _ => false end.

Definition items_of (v : value) : list value :=
  match v with VArr l => l | _ => [] end.

(** [x402NormalizeAcceptedPayments] *)
Definition x402NormalizeAcceptedPayments (req : value) : outcome (list value) :=
  accepted ← get_member "accepted" req;
  let c1 :=
    if nullish accepted then []
    else if is_array accepted then items_of accepted else [accepted] in
  let reqs := get_prop "paymentRequirements" req in
  let c2 :=
    if nullish reqs then [] else if is_array reqs then items_of reqs else [] in
  mret (List.filter truthy (c1 ++ c2)).

(** The text after [eip155:] when the whole string matches
    [/^eip155:(\d+)$/]. *)
Definition eip155_digits (network : string) : option string :=
  match strip_prefix "eip155:" network with
  | Some ds => if negb (String.eqb ds "") && all_digits ds then Some ds else None
  | None => None
  end.

(** [x402GetChainIdFromNetwork]; [None] is null. A chain id beyond fifteen
    digits leaves the integers that numbers represent exactly. *)
Definition x402GetChainIdFromNetwork (network : value) : outcome (option Z) :=
  match eip155_digits (js_to_string network) with
  | None => Returned None
  | Some ds =>
      if (15 <? String.length ds)%nat then Unmodelled
      else match NilEmpty.uint_of_string ds with
           | Some u => Returned (Some (Z.of_uint u))
           | None => Returned None
           end
  end.

Definition usdc_base : string := "0x833589fcd6edb6e08f4c7c32d4f71b54bda02913".

(** [v.toLowerCase()] on a value that is not null or undefined. *)
Definition js_toLowerCase (v : value) : outcome string :=
  match v with
  | VStr s => Returned (toLowerCase s)
  | _ => Thrown (TypeError "toLowerCase is not a function")
  end.

(** [x402IsUsdcOnBase] *)
Definition x402IsUsdcOnBase (chainId : Z) (asset : value) : outcome bool :=
  a ← js_toLowerCase asset;
  mret ((chainId =? 8453) && String.eqb a usdc_base).

(** ** OneShotPay.x402Fetch *)

Record Response : Type := {
  status : Z;
  headers : list (string * string)      (* names in lower case *)
}.

(** [Headers.get]; [None] is null. *)
Fixpoint header_get (name : string) (hs : list (string * string)) : option string :=
  match hs with
  | [] => None
  | (k, v) :: hs' => if String.eqb k (toLowerCase name) then Some v else header_get name hs'
  end.

(** [Headers.set] *)
Fixpoint header_set (name value : string) (hs : list (string * string))
  : list (string * string) :=
  match hs with
  | [] => [(toLowerCase name, value)]
  | (k, v) :: hs' =>
      if String.eqb k (toLowerCase name) then (k, value) :: hs'
      else (k, v) :: header_set name value hs'
  end.

(** Errors of the payment flow: an [AjaxError] around a new [Error] with a
    message, an [AjaxError] around what [fetch] raised, or the bridge's own. *)
Inductive x402_error : Type :=
| AjaxError (message : string)
| AjaxError_fromError (e : exn)
| FromBridge (e : ProxyError).

Definition err_missing_header : string :=
  "Received HTTP 402 but missing PAYMENT-REQUIRED header for x402.".
Definition err_parse (e : exn) : string :=
  "Failed to parse PAYMENT-REQUIRED header for x402: " ++ exn_message e.
Definition err_no_exact : string :=
  "x402 endpoint does not offer the Exact scheme (required).".
Definition err_missing_field : string :=
  "x402 PAYMENT-REQUIRED header missing one of: network, amount, asset, payTo.".
Definition err_network (network : value) : string :=
  "Unsupported x402 network " ++ String dquote (js_to_string network)
  ++ String dquote ". Only eip155:<chainId> is supported.".
Definition err_asset (asset network : value) : string :=
  "Unsupported x402 payment. Only USDC on Base is supported (got asset="
  ++ js_to_string asset ++ ", network=" ++ js_to_string network ++ ").".
Definition err_method (method : value) : string :=
  "Unsupported x402 assetTransferMethod " ++ String dquote (js_to_string method)
  ++ String dquote (". Only " ++ String dquote ("eip3009" ++ String dquote " is supported.")).

(** The arguments of [getERC3009Signature]. *)
Record sign_request : Type := {
  recipient : string;
  destinationAddress : value;
  amount : value;
  validUntil : Z;
  validAfter : Z
}.

(** What [x402Fetch] does to the outside, in order. *)
Inductive effect : Type :=
| Fetched (request_headers : list (string * string))
| SignatureRequested (r : sign_request).

(** The outside of one [x402Fetch] call. *)
Record world : Type := {
  fetch : list (string * string) -> exn + Response;
  getERC3009Signature : sign_request -> async value ProxyError;
  now_ms : Z                                  (* Date.now() *)
}.

(** [p => (p.scheme ?? "").toLowerCase() === "exact"] *)
Definition is_exact (p : value) : outcome bool :=
  s ← js_toLowerCase (js_coalesce (get_prop "scheme" p) (VStr ""));
  mret (String.eqb s "exact").

(** [Array.prototype.find] *)
Fixpoint find_first (f : value -> outcome bool) (l : list value) : outcome (option value) :=
  match l with
  | [] => Returned None
  | x :: l' => b ← f x; if b : bool then mret (Some x) else find_first f l'
  end.

(** [Object.keys(v).length] *)
Definition keys_length (v : value) : nat :=
  match v with
  | VObj ps => length ps
  | VArr l => length l
  | VStr s => String.length s
  | _ => 0%nat
  end.

(** What the validation of a challenge settles before the signature. *)
Record plan : Type := {
  p_req : value;
  p_network : value;
  p_amount : value;
  p_asset : value;
  p_payTo : value;
  p_extra : value;
  p_maxTimeoutSeconds : Z;
  p_request : sign_request
}.

(** The validity window and the arguments of the signature, for the
    selected entry [exact]: [maxTimeoutSeconds] when it is a number, 60
    otherwise, counted from [Math.floor(Date.now() / 1000)]. *)
Definition plan_of (w : world) (input : request_input) (req exact : value) : plan :=
  let maxTimeoutSeconds :=
    match get_prop "maxTimeoutSeconds" exact with
    | VNum n => n
    | _ => 60
    end in
  let nowSeconds := now_ms w / 1000 in
  {| p_req := req;
     p_network := get_prop "network" exact;
     p_amount := get_prop "amount" exact;
     p_asset := get_prop "asset" exact;
     p_payTo := get_prop "payTo" exact;
     p_extra := js_coalesce (get_prop "extra" exact) (VObj []);
     p_maxTimeoutSeconds := maxTimeoutSeconds;
     p_request :=
       {| recipient := x402ResolveRequestUrl input;
          destinationAddress := get_prop "payTo" exact;
          amount := get_prop "amount" exact;
          validUntil := nowSeconds + maxTimeoutSeconds;
          validAfter := nowSeconds |} |}.

(** [x402Fetch] from the parsed challenge to the call of the signer:
    a refusal, or the plan of the payment. *)
Definition x402_validate (w : world) (input : request_input) (req : value)
  : outcome (x402_error + plan) :=
  accepted ← x402NormalizeAcceptedPayments req;
  found ← find_first is_exact accepted;
  match found with
  | None => mret (inl (AjaxError err_no_exact))
  | Some exact =>
      let network := get_prop "network" exact in
      let amount := get_prop "amount" exact in
      let asset := get_prop "asset" exact in
      let payTo := get_prop "payTo" exact in
      if negb (truthy network) || negb (truthy amount)
         || negb (truthy asset) || negb (truthy payTo)
      then mret (inl (AjaxError err_missing_field))
      else
        chain ← x402GetChainIdFromNetwork network;
        match chain with
        | None => mret (inl (AjaxError (err_network network)))
        | Some chainId =>
            usdc ← x402IsUsdcOnBase chainId asset;
            if negb usdc then mret (inl (AjaxError (err_asset asset network)))
            else
              let extra := js_coalesce (get_prop "extra" exact) (VObj []) in
              let method :=
                js_coalesce (get_prop "assetTransferMethod" extra)
                            (get_prop "asset_transfer_method" extra) in
              refused ←
                (if truthy method
                 then m ← js_toLowerCase method; mret (negb (String.eqb m "eip3009"))
                 else mret false);
              if refused : bool then mret (inl (AjaxError (err_method method)))
              else
                mret (inr (plan_of w input req exact))
        end
  end.

(** [req.resource?.k] *)
Definition resource_field (req : value) (k : string) : value :=
  let r := get_prop "resource" req in
  if nullish r then VUndefined else get_prop k r.

(** The [paymentPayload] object literal, given [signed.signature]. *)
Definition payload_literal (pl : plan) (signature signed : value) : value :=
  let req := p_req pl in
  let description := resource_field req "description" in
  let mimeType := resource_field req "mimeType" in
  VObj
    [("x402Version",
      match get_prop "x402Version" req with VNum n => VNum n | _ => VNum 2 end);
     ("resource", VObj
        ([("url", js_coalesce (resource_field req "url") (VStr (recipient (p_request pl))))]
         ++ (if truthy description then [("description", description)] else [])
         ++ (if truthy mimeType then [("mimeType", mimeType)] else [])));
     ("accepted", VObj
        ([("scheme", VStr "exact");
          ("network", p_network pl);
          ("amount", p_amount pl);
          ("asset", p_asset pl);
          ("payTo", p_payTo pl);
          ("maxTimeoutSeconds", VNum (p_maxTimeoutSeconds pl))]
         ++ (if (0 <? keys_length (p_extra pl))%nat then [("extra", p_extra pl)] else [])));
     ("payload", VObj
        [("signature", signature);
         ("authorization", VObj
            [("from", get_prop "from" signed);
             ("to", get_prop "to" signed);
             ("value", get_prop "value" signed);
             ("validAfter", get_prop "validAfter" signed);
             ("validBefore", get_prop "validBefore" signed);
             ("nonce", get_prop "nonce" signed)])])].

(** The construction of [paymentPayload]; reading [signed.signature]
    raises when [signed] is null or undefined. *)
Definition paymentPayload (pl : plan) (signed : value) : outcome value :=
  signature ← get_member "signature" signed;
  mret (payload_literal pl signature signed).

(** The value of the [PAYMENT-SIGNATURE] header. *)
Definition payment_header (pl : plan) (signed : value) : outcome string :=
  payload ← paymentPayload pl signed;
  text ← JSON_stringify payload;
  mret (x402Base64EncodeUtf8 (default "undefined" text)).

(** [doFetch]: the caller's headers, overridden by [headersOverride]. *)
Definition doFetch (w : world) (init_headers override : list (string * string))
  : async Response x402_error * list effect :=
  let hs := fold_left (fun acc h => header_set (fst h) (snd h) acc) override init_headers in
  (match fetch w hs with
   | inr r => Ok r
   | inl e => Err (AjaxError_fromError e)
   end, [Fetched hs]).

(** The signature and the replay, once the challenge is validated: the
    settled result and the effects of this stage. *)
Definition x402_pay (w : world) (init_headers : list (string * string)) (pl : plan)
  : outcome (async Response x402_error * list effect) :=
  let t2 := [SignatureRequested (p_request pl)] in
  match getERC3009Signature w (p_request pl) with
  | Ok signed =>
      match payment_header pl signed with
      | Returned encoded =>
          let '(second, t3) :=
            doFetch w init_headers [("PAYMENT-SIGNATURE", encoded)] in
          Returned (second, (t2 ++ t3)%list)
      | Thrown e => Returned (Rejected e, t2)
      | Unmodelled => Unmodelled
      end
  | Err e => Returned (Err (FromBridge e), t2)
  | Rejected e => Returned (Rejected e, t2)
  end.

(** The body of the [andThen] callback on a 402 whose challenge parsed. *)
Definition x402_challenge (w : world) (input : request_input)
    (init_headers : list (string * string)) (req : value)
  : outcome (async Response x402_error * list effect) :=
  match x402_validate w input req with
  | Thrown e => Returned (Rejected e, [])
  | Unmodelled => Unmodelled
  | Returned (inl refusal) => Returned (Err refusal, [])
  | Returned (inr pl) => x402_pay w init_headers pl
  end.

(** [x402Fetch]: the settled result and the effects in order. *)
Definition x402Fetch (w : world) (input : request_input)
    (init_headers : list (string * string))
  : outcome (async Response x402_error * list effect) :=
  let '(first, t1) := doFetch w init_headers [] in
  match first with
  | Ok initialResponse =>
      if negb (status initialResponse =? 402) then Returned (Ok initialResponse, t1)
      else
        match header_get "payment-required" (headers initialResponse) with
        | None | Some "" => Returned (Err (AjaxError err_missing_header), t1)
        | Some paymentRequiredHeader =>
            match x402ParseJsonOrBase64Json paymentRequiredHeader with
            | Thrown e => Returned (Err (AjaxError (err_parse e)), t1)
            | Unmodelled => Unmodelled
            | Returned req =>
                match x402_challenge w input init_headers req with
                | Returned (r, t) => Returned (r, (t1 ++ t)%list)
                | Thrown e => Thrown e
                | Unmodelled => Unmodelled
                end
            end
        end
  | Err e => Returned (Err e, t1)
  | Rejected e => Returned (Rejected e, t1)
  end.

(** ** Well-formed bridges *)

(** How many times the restore callback of call [p] has run. *)
Definition restore_count (p : nat) (l : list event) : nat :=
  length (List.filter (fun ev => match ev with
                                 | Restored q => Nat.eqb p q
                                 | _ => false
                                 end) l).

Arguments restore_count : simpl never.

(** Promise identities and nonces not yet handed out are unused, and the
    pending table maps distinct nonces to distinct, already created
    promises. *)
Record bridge_inv (b : bridge) : Prop := {
  inv_settled : forall p, (nextPromise b <= p)%nat -> settled b !! p = None;
  inv_log : forall p, (nextPromise b <= p)%nat -> restore_count p (log b) = 0%nat;
  inv_nonce : forall n, rpcNonce b <= n -> rpcCallbacks b !! n = None;
  inv_waiter : forall n p, rpcCallbacks b !! n = Some p -> (p < nextPromise b)%nat;
  inv_inj : forall n n' p,
      rpcCallbacks b !! n = Some p -> rpcCallbacks b !! n' = Some p -> n = n'
}.

(** The settlement a decoded response envelope asks for. *)
Definition settlement (result decoded : value) : async value ProxyError :=
  if truthy (get_prop "success" result) then Ok decoded
  else Err (ProxyError_fromError decoded).

(** ** Sample data *)

(** An engine that attaches no stack of its own. *)
Definition no_stack : string -> value := fun _ => VUndefined.

(** A bridge right after a successful handshake, over a working channel. *)
Definition ready_bridge : bridge :=
  (initialize (inr {| call_raises := None |}) new_bridge).1.

(** The same over a channel whose [call] raises. *)
Definition broken_bridge : bridge :=
  (initialize (inr {| call_raises := Some (NetworkError "channel closed") |}) new_bridge).1.

(** The text of a response envelope. *)
Definition envelope_text (success : bool) (callbackNonce : Z) (result : string) : string :=
  "{" ++ quote "success" ++ ":" ++ (if success then "true" else "false") ++ ","
  ++ quote "callbackNonce" ++ ":" ++ dec callbackNonce ++ ","
  ++ quote "result" ++ ":" ++ quote result ++ "}".

(** A remote error as the wallet serializes it. *)
Definition remote_error : value :=
  VError (VStr "ProxyError") (VStr "user rejected") (VStr "at wallet").
Definition remote_error_text : string := default "" (serialize remote_error).

(** The Base USDC address as the specification writes it. *)
Definition usdc_mixed : string := "0x833589fCD6eDb6E08f4c7C32D4f71b54BdA02913".

(** The text of an accepted entry on [network]; [tail] adds members. *)
Definition entry_text (network tail : string) : string :=
  "{" ++ quote "scheme" ++ ":" ++ quote "exact" ++ ","
  ++ quote "network" ++ ":" ++ quote network ++ ","
  ++ quote "amount" ++ ":" ++ quote "1000" ++ ","
  ++ quote "asset" ++ ":" ++ quote usdc_mixed ++ ","
  ++ quote "payTo" ++ ":" ++ quote "0xAbc" ++ tail ++ "}".

Definition challenge_text (entries : string) : string :=
  "{" ++ quote "accepted" ++ ":[" ++ entries ++ "]}".

Definition sample_signed : value :=
  VObj [("signature", VStr "0xsig"); ("from", VStr "0xme"); ("to", VStr "0xAbc");
        ("value", VStr "1000"); ("validAfter", VNum 1700000000);
        ("validBefore", VNum 1700000060); ("nonce", VStr "0x01")].

(** A server that answers 402 with [challenge] until the proof header is
    present, and a wallet that signs. *)
Definition paying_world (challenge : string) : world :=
  {| fetch := fun hs =>
       match header_get "payment-signature" hs with
       | None => inr {| status := 402; headers := [("payment-required", challenge)] |}
       | Some _ => inr {| status := 200; headers := [] |}
       end;
     getERC3009Signature := fun _ => Ok sample_signed;
     now_ms := 1700000000999 |}.

(** The entry [entry_text network tail] parses to, given the value of its
    extra members. *)
Definition entry_value (network : string) (more : list (string * value)) : value :=
  VObj ([("scheme", VStr "exact"); ("network", VStr network); ("amount", VStr "1000");
         ("asset", VStr usdc_mixed); ("payTo", VStr "0xAbc")] ++ more).

Definition empty_method_tail : string :=
  "," ++ quote "extra" ++ ":{" ++ quote "assetTransferMethod" ++ ":" ++ quote "" ++ "}".

(** ** JSON trees *)

(** A value that is JSON data: what [JSON.parse] builds and what the
    stringifiers print. *)
Fixpoint is_tree (t : value) : bool :=
  match t with
  | VNull | VBool _ | VNum _ | VStr _ => true
  | VArr l => forallb is_tree l
  | VObj ps => forallb (fun p => is_tree (snd p)) ps
  | _ => false
  end.

(** The tree read back from the text of a tree: in every object a repeated
    name keeps its last value. *)
Fixpoint norm (t : value) : value :=
  match t with
  | VArr l => VArr (List.map norm l)
  | VObj ps => VObj (object_of_members (List.map (fun p => (fst p, norm (snd p))) ps))
  | _ => t
  end.

(** Fuel that suffices to parse the text of a tree. *)
Fixpoint parse_cost (t : value) : nat :=
  match t with
  | VArr l => S (list_sum (List.map (fun x => S (parse_cost x)) l))
  | VObj ps => S (list_sum (List.map (fun p => S (parse_cost (snd p))) ps))
  | _ => 1%nat
  end.

(** Property names are unique in every object of the value. *)
Fixpoint unique_keys (v : value) : Prop :=
  match v with
  | VArr l => fold_right (fun x acc => unique_keys x /\ acc) True l
  | VObj ps =>
      NoDup (List.map fst ps) /\
      fold_right (fun p acc => unique_keys (snd p) /\ acc) True ps
  | VError n m s => unique_keys n /\ unique_keys m /\ unique_keys s
  | VMap es =>
      fold_right (fun e acc => unique_keys (fst e) /\ unique_keys (snd e) /\ acc) True es
  | VSet ms => fold_right (fun x acc => unique_keys x /\ acc) True ms
  | _ => True
  end.



(** ** Structural equality *)

(** Two values with the same structure: equal up to the order in which the
    properties of their objects were inserted. Arrays, maps and sets keep
    their order. *)
Inductive same_struct : value -> value -> Prop :=
| ss_undefined : same_struct VUndefined VUndefined
| ss_null : same_struct VNull VNull
| ss_bool b : same_struct (VBool b) (VBool b)
| ss_num n : same_struct (VNum n) (VNum n)
| ss_str s : same_struct (VStr s) (VStr s)
| ss_bigint n : same_struct (VBigInt n) (VBigInt n)
| ss_boxed n : same_struct (VBoxedBigInt n) (VBoxedBigInt n)
| ss_arr l l' :
    Forall2 same_struct l l' -> same_struct (VArr l) (VArr l')
| ss_obj ps ps' qs :
    Permutation ps ps' ->
    Forall2 (fun p q => fst p = fst q /\ same_struct (snd p) (snd q)) ps' qs ->
    same_struct (VObj ps) (VObj qs)
| ss_error n m s n' m' s' :
    same_struct n n' -> same_struct m m' -> same_struct s s' ->
    same_struct (VError n m s) (VError n' m' s')
| ss_map es es' :
    Forall2 (fun e e' => same_struct (fst e) (fst e') /\ same_struct (snd e) (snd e')) es es' ->
    same_struct (VMap es) (VMap es')
| ss_set ms ms' :
    Forall2 same_struct ms ms' -> same_struct (VSet ms) (VSet ms').

(** Two objects with the same properties, inserted in different orders. *)
Definition inserted_ab : value :=
  VObj [("a", VNum 1); ("b", VObj [("y", VSet [VNum 2]); ("x", VBigInt 3)])].
Definition inserted_ba : value :=
  VObj [("b", VObj [("x", VBigInt 3); ("y", VSet [VNum 2])]); ("a", VNum 1)].

(** ** Values the codec carries *)

(** One of the five tags the decoders look for. *)
Definition is_tag (v : value) : bool :=
  str_is v "Error" || str_is v "Map" || str_is v "Set" ||
  str_is v "BigInt" || str_is v "bigint".

(** A value the decoder takes for a wrapper written by [serialize]: it has
    the two properties and one of the tags. *)
Definition wrapper_like (v : value) : bool :=
  has_prop "dataType" v && has_prop "value" v && is_tag (get_prop "dataType" v).

(** JSON data that holds no object the decoder takes for a wrapper. *)
Fixpoint plain (v : value) : bool :=
  match v with
  | VNull | VBool _ | VNum _ | VStr _ => true
  | VArr l => forallb plain l
  | VObj ps => negb (wrapper_like (VObj ps)) && forallb (fun p => plain (snd p)) ps
  | _ => false
  end.

(** The keys of a [Map], or the members of a [Set], as the language keeps
    them: none is SameValueZero-equal to one [seen] before it. *)
Fixpoint distinct (seen ks : list value) : bool :=
  match ks with
  | [] => true
  | k :: ks' =>
      forallb (fun k' => negb (same_value_zero k k')) seen && distinct (seen ++ [k])%list ks'
  end.

Definition nonempty (v : value) : bool :=
  match v with VStr s => negb (String.eqb s "") | _ => false end.

(** The values [deserialize] gives back as they were: JSON data, bigint,
    an error whose name, message and stack are non-empty strings, a [Map]
    or [Set] of plain JSON data, and arrays and objects of these. *)
Fixpoint supported (v : value) : bool :=
  match v with
  | VNull | VBool _ | VNum _ | VStr _ | VBigInt _ => true
  | VArr l => forallb supported l
  | VObj ps => negb (wrapper_like (VObj ps)) && forallb (fun p => supported (snd p)) ps
  | VError n m s => nonempty n && nonempty m && nonempty s
  | VMap es =>
      forallb (fun e => plain (fst e) && plain (snd e)) es && distinct [] (List.map fst es)
  | VSet ms => forallb plain ms && distinct [] ms
  | VUndefined | VBoxedBigInt _ => false
  end.

(** The value with the properties of every object in the order of their
    names: what a decoder builds from the sorted text. *)
Fixpoint canon (v : value) : value :=
  match v with
  | VArr l => VArr (List.map canon l)
  | VObj ps => VObj (sort_keys (List.map (fun p => (fst p, canon (snd p))) ps))
  | VMap es => VMap (List.map (fun e => (canon (fst e), canon (snd e))) es)
  | VSet ms => VSet (List.map canon ms)
  | _ => v
  end.

(** The JSON tree of a value, null standing for a value that has none. *)
Definition tree_of (v : value) : value := default VNull (to_json v).

(** Sample values for the round trip. *)
Definition blank_error : value := VError (VStr "Error") (VStr "") (VStr "at main").
Definition lookalike : value := VObj [("dataType", VStr "bigint"); ("value", VStr "5")].

(** ** Auxiliary notions of the proofs about JSON text *)

(** The head of the text is not a decimal digit. *)
Definition no_digit_head (s : string) : bool :=
  match s with
  | String c _ => negb (is_digit c)
  | EmptyString => true
  end.

(** The digits of a positive number. *)
Definition digits (p : positive) : string := NilEmpty.string_of_uint (Pos.to_uint p).

(** What may follow a printed value: nothing, or a separator or closing
    bracket. *)
Definition ok_rest (s : string) : bool :=
  match s with
  | String c _ =>
      let n := nat_of_ascii c in (n =? 44)%nat || (n =? 93)%nat || (n =? 125)%nat
  | EmptyString => true
  end.

(** The first character of a printed tree. *)
Definition value_head (c : ascii) : bool :=
  is_digit c ||
  existsb (fun n => (nat_of_ascii c =? n)%nat) [45; 91; 123; 34; 116; 102; 110]%nat.

(** What the parser is shown to do on the text of one tree. *)
Definition reads_back (x : value) : Prop :=
  forall f rest, (parse_cost x <= f)%nat -> ok_rest rest = true ->
                 parse_value f (print x ++ rest) = Parsed (norm x) rest.

(** The text of one member. *)
Definition member_text (p : string * value) : string :=
  quote (fst p) ++ ":" ++ print (snd p).

(** A map whose values are bigints. *)
Definition bigint_map : value := VMap [(VStr "a", VBigInt 1); (VStr "b", VBigInt 2)].

(** An object whose [dataType] is one of the tags: what the reviver of
    [deserializeUnsafe] takes for a wrapper. *)
Definition tag_like (v : value) : bool := is_tag (get_prop "dataType" v).

(** The values [deserializeUnsafe] gives back as they were: as [supported],
    with maps and sets of such values at any depth. *)
Fixpoint nested (v : value) : bool :=
  match v with
  | VNull | VBool _ | VNum _ | VStr _ | VBigInt _ => true
  | VArr l => forallb nested l
  | VObj ps => negb (tag_like (VObj ps)) && forallb (fun p => nested (snd p)) ps
  | VError n m s => nonempty n && nonempty m && nonempty s
  | VMap es =>
      forallb (fun e => nested (fst e) && nested (snd e)) es && distinct [] (List.map fst es)
  | VSet ms => forallb nested ms && distinct [] ms
  | VUndefined | VBoxedBigInt _ => false
  end.

(** A map of maps, sets, errors and bigints. *)
Definition nested_value : value :=
  VMap [(VStr "balances", VMap [(VStr "usdc", VBigInt 2500000); (VNum 1, VBigInt (-1))]);
        (VBigInt 7, VSet [VBigInt 1; VSet [VNull]; VObj [("b", VNum 1); ("a", VBigInt 0)]]);
        (VStr "failure", VError (VStr "RangeError") (VStr "too large") (VStr "at pay"))].

(** ** ObjectUtils.convertBigIntsToStrings *)

(** [convertBigIntsToStrings]. [Object.entries] of an error, a map, a set
    or a boxed bigint of the model yields nothing: they carry no own
    enumerable property. *)
Fixpoint convertBigIntsToStrings (input : value) : value :=
  match input with
  | VBigInt n => VStr (dec n)
  | VArr l => VArr (List.map convertBigIntsToStrings l)
  | VObj ps => VObj (List.map (fun p => (fst p, convertBigIntsToStrings (snd p))) ps)
  | VBoxedBigInt _ | VError _ _ _ | VMap _ | VSet _ => VObj []
  | VUndefined | VNull | VBool _ | VNum _ | VStr _ => input
  end.


(** An object or an array: JSON text that starts with a brace or bracket. *)
Definition is_container (t : value) : bool :=
  match t with VObj _ | VArr _ => true | _ => false end.

(** A challenge as a server states it. *)
Definition challenge_tree : value :=
  VObj [("x402Version", VNum 2);
        ("accepted", VArr [VObj [("scheme", VStr "exact"); ("network", VStr "eip155:8453");
                                 ("amount", VStr "1000"); ("asset", VStr usdc_base);
                                 ("payTo", VStr "0xabc")]])].

(** The server of [paying_world] with a wallet that refuses to sign. *)
Definition refusing_world (challenge : string) : world :=
  {| fetch := fetch (paying_world challenge);
     getERC3009Signature := fun _ => Err ProxyError_notInitialized;
     now_ms := 1700000000999 |}.

(** ** Runs of a bridge *)

(** What the application and the wallet do to a bridge, one at a time:
    the handshake completes, the application calls, a message arrives. *)
Inductive action : Type :=
| DoInitialize (handshake : exn + channel)
| DoCall (eventName : string) (params : value) (requireInteraction : bool)
| DoDeliver (data : string).

(** One action. An exception that leaves the listener leaves the bridge as
    it was; [None] when the message takes the decoders out of the model. *)
Definition step (engineStack : string -> value) (cls : bridge_class) (a : action)
    (b : bridge) : option bridge :=
  match a with
  | DoInitialize h => Some (initialize h b).1
  | DoCall ev params ri => Some (rpcCall cls ev params ri b).1
  | DoDeliver data =>
      match deliver engineStack cls data b with
      | Returned b' => Some b'
      | Thrown _ => Some b
      | Unmodelled => None
      end
  end.

Fixpoint run (engineStack : string -> value) (cls : bridge_class) (acts : list action)
    (b : bridge) : option bridge :=
  match acts with
  | [] => Some b
  | a :: acts' =>
      match step engineStack cls a b with
      | Some b' => run engineStack cls acts' b'
      | None => None
      end
  end.

(** How many times the chain of [rpcCall] runs the restore callback when
    its promise settles with [r]. *)
Definition restores (cls : bridge_class) (r : async value ProxyError) : nat :=
  match cls, r with
  | _, Ok _ => 1
  | OneShotPayClass, Err _ => 1
  | _, _ => 0
  end.

(** The restore callback of every call has run as often as the settlement
    of the call asks for, and not at all while the call is pending. *)
Definition restored_as_settled (cls : bridge_class) (b : bridge) : Prop :=
  forall p, restore_count p (log b)
            = match settled b !! p with Some r => restores cls r | None => 0%nat end.

(** Nonces count the calls: the next nonce is the number of calls made,
    and the call registered under nonce [n] is call number [n]. *)
Definition nonces_in_order (b : bridge) : Prop :=
  0 <= rpcNonce b /\ nextPromise b = Z.to_nat (rpcNonce b) /\
  forall n p, rpcCallbacks b !! n = Some p -> 0 <= n < rpcNonce b /\ p = Z.to_nat n.

(** Two calls, a response to the second, a stray message, a response to
    the first. *)
Definition sample_run : list action :=
  [DoCall "early" VNull false;
   DoInitialize (inr {| call_raises := None |});
   DoCall "getStatus" (VObj []) false;
   DoCall "signIn" (VObj [("user", VStr "ann")]) true;
   DoDeliver (envelope_text true 1 "true");
   DoDeliver "not json";
   DoDeliver (envelope_text false 0 remote_error_text);
   DoDeliver (envelope_text true 0 "1")].

(** ** Values inside values *)

(** [contains v x]: [x] is [v] itself or sits at some depth inside it, as
    an element of an array, the value of a property, a key or a value of a
    map, or a member of a set. *)
Inductive contains : value -> value -> Prop :=
| contains_here v : contains v v
| contains_arr l x y : In x l -> contains x y -> contains (VArr l) y
| contains_obj ps k x y : In (k, x) ps -> contains x y -> contains (VObj ps) y
| contains_map_key es k x y : In (k, x) es -> contains k y -> contains (VMap es) y
| contains_map_value es k x y : In (k, x) es -> contains x y -> contains (VMap es) y
| contains_set ms x y : In x ms -> contains x y -> contains (VSet ms) y.

(** [w] occurs in the text [s]. *)
Definition infix (w s : string) : Prop := exists pre post, s = pre ++ w ++ post.

(** The values [serialize] writes as a wrapper. *)
Definition wrapped (v : value) : bool :=
  match v with
  | VBigInt _ | VBoxedBigInt _ | VError _ _ _ | VMap _ | VSet _ => true
  | _ => false
  end.

(** A record with a bigint three levels down, and a map of bigints inside
    an object. *)
Definition deep_bigint : value :=
  VObj [("order", VArr [VNull; VSet [VObj [("total", VBigInt 12345)]]])].

(* ================================================================== *)
(** * Properties *)

(** ** The codec, node by node *)

(** [to_json] is the tree walk of the stringifier over what [replacer]
    returns at each node. *)
Lemma to_json_unfold (v : value) : to_json v = tree_node to_json (replacer v).
Proof.
  destruct v as [| | | | | | | l | ps | n m s | es | ms]; try reflexivity.
  - cbn. unfold js_or.
    destruct (truthy n), (truthy m), (truthy s); reflexivity.
  - cbn. do 3 f_equal. rewrite List.map_map. reflexivity.
Qed.

(** The two wrappers of the replacer, node by node: a primitive bigint
    gets the tag ["bigint"], a boxed BigInt object the tag ["BigInt"], each
    with the decimal text as the value. *)
Lemma serialize_bigint_wrapper (n : Z) :
  replacer (VBigInt n) = tagged "bigint" (VStr (dec n)) /\
  serialize (VBigInt n) = Some (print (tagged "bigint" (VStr (dec n)))) /\
  serialize (VBoxedBigInt n) = Some (print (tagged "BigInt" (VStr (dec n)))).
Proof. repeat split. Qed.

(** C9 as stated fails: the wrapper of the primitive bigint [1n] does not
    carry the tag ["BigInt"]. *)
Lemma serialize_bigint_not_BigInt :
  replacer (VBigInt 1) <> tagged "BigInt" (VStr (dec 1)) /\
  serialize (VBigInt 1) <> Some (print (tagged "BigInt" (VStr (dec 1)))) /\
  serialize (VArr [VBigInt 1])
    <> Some (print (VArr [tagged "BigInt" (VStr (dec 1))])).
Proof. repeat split; intros H; vm_compute in H; discriminate H. Qed.

Section Decoding.

Variable engineStack : string -> value.

(** C4, what the code does: a text [JSON.parse] refuses makes [deserialize]
    raise the parse exception to its caller; no result value is built. *)
Theorem deserialize_malformed_raises (json : string) (e : exn) :
  JSON_parse json = Thrown e ->
  deserialize engineStack json = Thrown e.
Proof. intros H. unfold deserialize. rewrite H. reflexivity. Qed.

End Decoding.

Lemma deserialize_malformed_raises_witness :
  JSON_parse "{" = Thrown (SyntaxError "Unexpected token or end of JSON input") /\
  deserialize (fun _ => VUndefined) "{"
    = Thrown (SyntaxError "Unexpected token or end of JSON input").
Proof.
  split; [reflexivity |].
  apply (deserialize_malformed_raises (fun _ => VUndefined) "{"). reflexivity.
Defined.

(** ** The RPC bridge *)

Lemma restore_count_app p l1 l2 :
  restore_count p (l1 ++ l2) = (restore_count p l1 + restore_count p l2)%nat.
Proof. unfold restore_count. rewrite List.filter_app, List.length_app. reflexivity. Qed.

Lemma bridge_inv_new : bridge_inv new_bridge.
Proof. split; cbn; intros; try reflexivity; try (rewrite lookup_empty in *; discriminate). Qed.

Lemma bridge_inv_initialize c b : bridge_inv b -> bridge_inv (initialize (inr c) b).1.
Proof. intros [H1 H2 H3 H4 H5]. split; cbn; assumption. Qed.

Lemma bridge_inv_add_log evs b :
  (forall p, restore_count p evs = 0%nat) -> bridge_inv b -> bridge_inv (add_log evs b).
Proof.
  intros Hev [H1 H2 H3 H4 H5]. split; cbn; try assumption.
  intros p Hp. rewrite restore_count_app, H2, Hev by assumption. reflexivity.
Qed.

Lemma bridge_inv_forget n b : bridge_inv b -> bridge_inv (forget n b).
Proof.
  intros [H1 H2 H3 H4 H5]. split; cbn; try assumption.
  - intros m Hm. destruct (decide (n = m)) as [->|Hne].
    + apply lookup_delete_eq.
    + rewrite lookup_delete_ne by assumption. auto.
  - intros m p Hm. apply lookup_delete_Some in Hm as [_ Hm]. eauto.
  - intros m m' p Hm Hm'.
    apply lookup_delete_Some in Hm as [_ Hm]. apply lookup_delete_Some in Hm' as [_ Hm'].
    eauto.
Qed.

Lemma bridge_inv_settle cls p r b :
  (p < nextPromise b)%nat -> bridge_inv b -> bridge_inv (settle cls p r b).
Proof.
  intros Hp [H1 H2 H3 H4 H5]. unfold settle.
  destruct (settled b !! p) eqn:Hs; [split; assumption |].
  split; cbn; try assumption.
  - intros q Hq. rewrite lookup_insert_ne by lia. auto.
  - intros q Hq. rewrite restore_count_app, H2 by assumption.
    assert (Hr : restore_count q [Restored p] = 0%nat).
    { unfold restore_count. cbn. destruct (Nat.eqb_spec q p); [lia | reflexivity]. }
    destruct cls, r; cbn; rewrite ?Hr; reflexivity.
Qed.

Lemma rpcCall_dispatch cls ev params ri b ch :
  child b = Some ch -> call_raises ch = None ->
  exists b1,
    rpcCall cls ev params ri b = (b1, inr (nextPromise b)) /\
    child b1 = child b /\
    rpcNonce b1 = rpcNonce b + 1 /\
    rpcCallbacks b1 = <[rpcNonce b := nextPromise b]> (rpcCallbacks b) /\
    nextPromise b1 = S (nextPromise b) /\
    settled b1 = settled b /\
    restore_count (nextPromise b) (log b1) = restore_count (nextPromise b) (log b).
Proof.
  intros Hc Hr. unfold rpcCall. rewrite Hc, Hr.
  eexists. split; [reflexivity |]. cbn. repeat split.
  rewrite !restore_count_app. unfold restore_count at 2 3. cbn. lia.
Qed.

Lemma bridge_inv_rpcCall cls ev params ri b :
  bridge_inv b -> bridge_inv (rpcCall cls ev params ri b).1.
Proof.
  intros Hinv. unfold rpcCall. destruct (child b) as [ch|]; [| exact Hinv].
  set (b1 := Build_bridge _ _ _ _ _ _ _ _).
  assert (Hb1 : bridge_inv b1).
  { destruct Hinv as [H1 H2 H3 H4 H5]. split; cbn.
    - intros p Hp. apply H1. lia.
    - intros p Hp. rewrite restore_count_app, H2 by lia. reflexivity.
    - intros n Hn. rewrite lookup_insert_ne by lia. apply H3. lia.
    - intros n p Hn. apply lookup_insert_Some in Hn as [[_ <-]|[_ Hn]]; [lia |].
      apply H4 in Hn. lia.
    - intros n n' p Hn Hn'.
      apply lookup_insert_Some in Hn as [[<- <-]|[Hne Hn]];
        apply lookup_insert_Some in Hn' as [[<- Hp]|[Hne' Hn']]; try reflexivity.
      + apply H4 in Hn'. lia.
      + apply H4 in Hn. lia.
      + eauto. }
  destruct (call_raises ch); cbn.
  - apply bridge_inv_settle; [cbn; lia | exact Hb1].
  - apply bridge_inv_add_log; [reflexivity | exact Hb1].
Qed.

Section Bridge.

Variable engineStack : string -> value.

Lemma bridge_inv_run_callback cls p result b b' :
  (p < nextPromise b)%nat -> bridge_inv b ->
  run_callback engineStack cls p result b = Returned b' -> bridge_inv b'.
Proof.
  intros Hp Hinv. unfold run_callback.
  destruct (deserializeUnsafe engineStack _); cbn; try discriminate.
  destruct (truthy _); intros [= <-]; apply bridge_inv_settle; assumption.
Qed.

Lemma pending_Some b nonce n p :
  pending b nonce = Some (n, p) -> nonce = VNum n /\ rpcCallbacks b !! n = Some p.
Proof.
  destruct nonce; cbn; try discriminate.
  destruct (rpcCallbacks b !! n0) eqn:H; cbn; intros [= <- <-]. auto.
Qed.

(** The invariant survives any message the listener receives. *)
Lemma bridge_inv_deliver cls data b b' :
  bridge_inv b -> deliver engineStack cls data b = Returned b' -> bridge_inv b'.
Proof.
  intros Hinv. unfold deliver.
  destruct (child b); [| intros [= <-]; exact Hinv].
  destruct (deserialize engineStack data) as [[result| |]| |]; try discriminate;
    try (intros [= <-]; exact Hinv).
  assert (Hdbg : forall t, bridge_inv (add_log [Debugged t] b)).
  { intros t. apply bridge_inv_add_log; [reflexivity | exact Hinv]. }
  destruct (on_envelope engineStack cls result b) as [b1| |] eqn:Hon;
    try discriminate; intros [= <-].
  - unfold on_envelope in Hon.
    destruct (get_member "callbackNonce" result) as [nonce| |]; cbn in Hon; try discriminate.
    destruct (pending _ nonce) as [[n p]|] eqn:Hp.
    + apply pending_Some in Hp as [_ Hp]. cbn in Hp.
      eapply bridge_inv_run_callback; [| | exact Hon].
      * cbn. eapply inv_waiter; eassumption.
      * apply bridge_inv_forget, Hdbg.
    + cbn in Hon. injection Hon as <-.
      apply bridge_inv_add_log; [reflexivity | apply Hdbg].
  - unfold on_envelope_aborted.
    destruct (get_member "callbackNonce" result) as [nonce| |]; try exact Hinv.
    destruct (pending _ nonce) as [[n p]|]; [apply bridge_inv_forget |]; apply Hdbg.
Qed.

Lemma deliver_unknown_nonce cls data result nonce b :
  isInitialized b = true ->
  deserialize engineStack data = Returned (Ok result) ->
  get_member "callbackNonce" result = Returned nonce ->
  pending b nonce = None ->
  exists b',
    deliver engineStack cls data b = Returned b' /\
    rpcCallbacks b' = rpcCallbacks b /\
    settled b' = settled b /\
    In (Warned "Received RPC callback event that is not expected.") (log b') /\
    (forall p, restore_count p (log b') = restore_count p (log b)).
Proof.
  intros Hini Hdes Hnonce Hpend. unfold isInitialized in Hini.
  unfold deliver, on_envelope. destruct (child b); [| discriminate].
  rewrite Hdes, Hnonce. cbn.
  replace (pending (add_log _ b) nonce) with (pending b nonce) by (destruct nonce; reflexivity).
  rewrite Hpend. cbn. eexists. split; [reflexivity |]. cbn. repeat split.
  - rewrite !in_app_iff. right. left. reflexivity.
  - intros p. rewrite !restore_count_app. unfold restore_count at 2 3. cbn. lia.
Qed.

Lemma deliver_matching cls data result decoded n p ch b :
  child b = Some ch ->
  deserialize engineStack data = Returned (Ok result) ->
  get_member "callbackNonce" result = Returned (VNum n) ->
  rpcCallbacks b !! n = Some p ->
  deserializeUnsafe engineStack (js_to_string (get_prop "result" result)) = Returned decoded ->
  deliver engineStack cls data b =
    Returned (settle cls p (settlement result decoded)
      (forget n (add_log [Debugged ("Received callback from Wallet for nonce " ++ dec n)] b))).
Proof.
  intros Hc Hdes Hnonce Hp Hun. unfold deliver, on_envelope. rewrite Hc, Hdes, Hnonce.
  cbn. rewrite Hp. cbn. unfold run_callback. rewrite Hun. cbn.
  unfold settlement. destruct (truthy _); reflexivity.
Qed.

Lemma settle_fresh cls p r b :
  settled b !! p = None ->
  settled (settle cls p r b) = <[p := r]> (settled b) /\
  rpcCallbacks (settle cls p r b) = rpcCallbacks b /\
  child (settle cls p r b) = child b /\
  restore_count p (log (settle cls p r b)) =
    (restore_count p (log b) +
     match cls, r with
     | _, Ok _ | OneShotPayClass, Err _ => 1
     | _, _ => 0
     end)%nat.
Proof.
  intros Hs. unfold settle. rewrite Hs. cbn. repeat split.
  rewrite restore_count_app.
  assert (Hr : restore_count p [Restored p] = 1%nat).
  { unfold restore_count. cbn. rewrite Nat.eqb_refl. reflexivity. }
  destruct cls, r; cbn; rewrite ?Hr; reflexivity.
Qed.

(** C5: with calls A then B pending, B's response settles B's promise and
    removes B's entry alone; A's entry and A's promise are untouched, and a
    second delivery of the same response removes and settles nothing. *)
Theorem response_settles_only_its_caller
    cls evA parA iA evB parB iB ch b bA bB rA rB data result decoded :
  bridge_inv b ->
  child b = Some ch -> call_raises ch = None ->
  rpcCall cls evA parA iA b = (bA, rA) ->
  rpcCall cls evB parB iB bA = (bB, rB) ->
  deserialize engineStack data = Returned (Ok result) ->
  get_member "callbackNonce" result = Returned (VNum (rpcNonce b + 1)) ->
  deserializeUnsafe engineStack (js_to_string (get_prop "result" result)) = Returned decoded ->
  let nA := rpcNonce b in
  let nB := rpcNonce b + 1 in
  let pA := nextPromise b in
  let pB := S (nextPromise b) in
  rA = inr pA /\ rB = inr pB /\
  rpcCallbacks bB !! nA = Some pA /\ rpcCallbacks bB !! nB = Some pB /\
  exists b',
    deliver engineStack cls data bB = Returned b' /\
    rpcCallbacks b' = delete nB (rpcCallbacks bB) /\
    rpcCallbacks b' !! nA = Some pA /\
    rpcCallbacks b' !! nB = None /\
    settled b' !! pB = Some (settlement result decoded) /\
    settled b' !! pA = None /\
    (forall p, p <> pB -> settled b' !! p = settled b !! p) /\
    exists b'',
      deliver engineStack cls data b' = Returned b'' /\
      rpcCallbacks b'' = rpcCallbacks b' /\
      settled b'' = settled b'.
Proof.
  intros Hinv Hc Hr HA HB Hdes Hnonce Hun nA nB pA pB.
  destruct (rpcCall_dispatch cls evA parA iA b ch Hc Hr)
    as (bA' & EA & HcA & HnA & HtA & HpA & HsA & _).
  rewrite EA in HA. injection HA as <- <-.
  rewrite <- HcA in Hc.
  destruct (rpcCall_dispatch cls evB parB iB bA' ch Hc Hr)
    as (bB' & EB & HcB & HnB & HtB & HpB & HsB & _).
  rewrite EB in HB. injection HB as <- <-.
  rewrite HpA. fold pA pB.
  assert (HlA : rpcCallbacks bB' !! nA = Some pA).
  { rewrite HtB, HnA, HtA. rewrite lookup_insert_ne by (unfold nA; lia).
    apply lookup_insert_eq. }
  assert (HlB : rpcCallbacks bB' !! nB = Some pB).
  { rewrite HtB, HnA, HpA. apply lookup_insert_eq. }
  repeat (split; [reflexivity || assumption |]).
  rewrite <- HcB in Hc.
  pose proof (deliver_matching cls data result decoded nB pB ch bB' Hc Hdes Hnonce HlB Hun)
    as Hdel.
  set (b1 := forget nB (add_log _ bB')) in Hdel.
  assert (Hfresh : settled b1 !! pB = None).
  { cbn. rewrite HsB, HsA. apply (inv_settled b Hinv). unfold pB, pA. lia. }
  destruct (settle_fresh cls pB (settlement result decoded) b1 Hfresh)
    as (Hs' & Ht' & Hc' & _).
  eexists. split; [exact Hdel |].
  assert (Ht : rpcCallbacks (settle cls pB (settlement result decoded) b1)
               = delete nB (rpcCallbacks bB')) by (rewrite Ht'; reflexivity).
  assert (HnoB : rpcCallbacks (settle cls pB (settlement result decoded) b1) !! nB = None)
    by (rewrite Ht; apply lookup_delete_eq).
  split; [exact Ht |].
  split; [rewrite Ht, lookup_delete_ne by (unfold nA, nB; lia); exact HlA |].
  split; [exact HnoB |].
  split; [rewrite Hs'; apply lookup_insert_eq |].
  split.
  { rewrite Hs', lookup_insert_ne by (unfold pA, pB; lia). cbn. rewrite HsB, HsA.
    apply (inv_settled b Hinv). unfold pA. lia. }
  split.
  { intros p Hp. rewrite Hs', lookup_insert_ne by congruence. cbn.
    rewrite HsB, HsA. reflexivity. }
  destruct (deliver_unknown_nonce cls data result (VNum nB)
              (settle cls pB (settlement result decoded) b1))
    as (b'' & E'' & Ht'' & Hs'' & _).
  - unfold isInitialized. rewrite Hc'. cbn. rewrite Hc. reflexivity.
  - exact Hdes.
  - exact Hnonce.
  - cbn. rewrite HnoB. reflexivity.
  - exists b''. auto.
Qed.

(** X18: on [OneShotPay], once the call settles, by a success, by a remote
    error or by a failed dispatch, its restore callback has run exactly
    once. *)
Lemma OneShotPay_restores_once ev par ri ch b bA rA :
  bridge_inv b ->
  child b = Some ch ->
  rpcCall OneShotPayClass ev par ri b = (bA, rA) ->
  rA = inr (nextPromise b) /\
  match call_raises ch with
  | Some e =>
      settled bA !! nextPromise b = Some (Err (ProxyError_fromExn e)) /\
      restore_count (nextPromise b) (log bA) = 1%nat
  | None =>
      forall data result decoded,
        deserialize engineStack data = Returned (Ok result) ->
        get_member "callbackNonce" result = Returned (VNum (rpcNonce b)) ->
        deserializeUnsafe engineStack (js_to_string (get_prop "result" result))
          = Returned decoded ->
        exists b',
          deliver engineStack OneShotPayClass data bA = Returned b' /\
          settled b' !! nextPromise b = Some (settlement result decoded) /\
          restore_count (nextPromise b) (log b') = 1%nat
  end.
Proof.
  intros Hinv Hc HA. destruct (call_raises ch) as [e|] eqn:Hr.
  - unfold rpcCall in HA. rewrite Hc, Hr in HA. injection HA as <- <-.
    split; [reflexivity |].
    set (b1 := Build_bridge _ _ _ _ _ _ _ _).
    assert (Hfresh : settled b1 !! nextPromise b = None)
      by (cbn; apply (inv_settled b Hinv); lia).
    destruct (settle_fresh OneShotPayClass (nextPromise b) (Err (ProxyError_fromExn e)) b1 Hfresh)
      as (Hs & _ & _ & Hcount).
    split; [rewrite Hs; apply lookup_insert_eq |].
    rewrite Hcount. cbn. rewrite restore_count_app, (inv_log b Hinv) by lia.
    reflexivity.
  - destruct (rpcCall_dispatch OneShotPayClass ev par ri b ch Hc Hr)
      as (bA' & EA & HcA & HnA & HtA & HpA & HsA & HlA).
    rewrite EA in HA. injection HA as <- <-. split; [reflexivity |].
    intros data result decoded Hdes Hnonce Hun.
    rewrite <- HcA in Hc.
    assert (Hl : rpcCallbacks bA' !! rpcNonce b = Some (nextPromise b))
      by (rewrite HtA; apply lookup_insert_eq).
    pose proof (deliver_matching OneShotPayClass data result decoded _ _ ch bA'
                  Hc Hdes Hnonce Hl Hun) as Hdel.
    set (b1 := forget _ (add_log _ bA')) in Hdel.
    assert (Hfresh : settled b1 !! nextPromise b = None)
      by (cbn; rewrite HsA; apply (inv_settled b Hinv); lia).
    destruct (settle_fresh OneShotPayClass (nextPromise b) (settlement result decoded) b1 Hfresh)
      as (Hs & _ & _ & Hcount).
    eexists. split; [exact Hdel |].
    split; [rewrite Hs; apply lookup_insert_eq |].
    rewrite Hcount. cbn. rewrite restore_count_app, HlA, (inv_log b Hinv) by lia.
    unfold settlement. destruct (truthy _); reflexivity.
Qed.

(** C3 fails on [WalletProxy]: its [rpcCall] chains the restore callback on
    success only. A call answered by a remote error settles as a failure
    and its restore callback has not run; the same holds when the dispatch
    itself fails. *)
Theorem WalletProxy_failure_skips_restore ev par ri ch b bA rA :
  bridge_inv b ->
  child b = Some ch ->
  rpcCall WalletProxyClass ev par ri b = (bA, rA) ->
  rA = inr (nextPromise b) /\
  match call_raises ch with
  | Some e =>
      settled bA !! nextPromise b = Some (Err (ProxyError_fromExn e)) /\
      restore_count (nextPromise b) (log bA) = 0%nat
  | None =>
      forall data result decoded,
        deserialize engineStack data = Returned (Ok result) ->
        get_member "callbackNonce" result = Returned (VNum (rpcNonce b)) ->
        truthy (get_prop "success" result) = false ->
        deserializeUnsafe engineStack (js_to_string (get_prop "result" result))
          = Returned decoded ->
        exists b',
          deliver engineStack WalletProxyClass data bA = Returned b' /\
          settled b' !! nextPromise b = Some (Err (ProxyError_fromError decoded)) /\
          restore_count (nextPromise b) (log b') = 0%nat
  end.
Proof.
  intros Hinv Hc HA. destruct (call_raises ch) as [e|] eqn:Hr.
  - unfold rpcCall in HA. rewrite Hc, Hr in HA. injection HA as <- <-.
    split; [reflexivity |].
    set (b1 := Build_bridge _ _ _ _ _ _ _ _).
    assert (Hfresh : settled b1 !! nextPromise b = None)
      by (cbn; apply (inv_settled b Hinv); lia).
    destruct (settle_fresh WalletProxyClass (nextPromise b) (Err (ProxyError_fromExn e)) b1 Hfresh)
      as (Hs & _ & _ & Hcount).
    split; [rewrite Hs; apply lookup_insert_eq |].
    rewrite Hcount. cbn. rewrite restore_count_app, (inv_log b Hinv) by lia.
    reflexivity.
  - destruct (rpcCall_dispatch WalletProxyClass ev par ri b ch Hc Hr)
      as (bA' & EA & HcA & HnA & HtA & HpA & HsA & HlA).
    rewrite EA in HA. injection HA as <- <-. split; [reflexivity |].
    intros data result decoded Hdes Hnonce Hfail Hun.
    rewrite <- HcA in Hc.
    assert (Hl : rpcCallbacks bA' !! rpcNonce b = Some (nextPromise b))
      by (rewrite HtA; apply lookup_insert_eq).
    pose proof (deliver_matching WalletProxyClass data result decoded _ _ ch bA'
                  Hc Hdes Hnonce Hl Hun) as Hdel.
    set (b1 := forget _ (add_log _ bA')) in Hdel.
    assert (Hfresh : settled b1 !! nextPromise b = None)
      by (cbn; rewrite HsA; apply (inv_settled b Hinv); lia).
    destruct (settle_fresh WalletProxyClass (nextPromise b) (settlement result decoded) b1 Hfresh)
      as (Hs & _ & _ & Hcount).
    eexists. split; [exact Hdel |].
    unfold settlement in *. rewrite Hfail in *.
    split; [rewrite Hs; apply lookup_insert_eq |].
    rewrite Hcount. cbn. rewrite restore_count_app, HlA, (inv_log b Hinv) by lia.
    reflexivity.
Qed.

(** C6: a response whose nonce has no pending entry is dropped. The
    listener returns normally, a warning is logged, the pending table and
    every caller's state are as before, and no restore callback runs. *)
Theorem unknown_nonce_dropped cls data result nonce b :
  isInitialized b = true ->
  deserialize engineStack data = Returned (Ok result) ->
  get_member "callbackNonce" result = Returned nonce ->
  pending b nonce = None ->
  exists b',
    deliver engineStack cls data b = Returned b' /\
    rpcCallbacks b' = rpcCallbacks b /\
    settled b' = settled b /\
    In (Warned "Received RPC callback event that is not expected.") (log b') /\
    (forall p, restore_count p (log b') = restore_count p (log b)).
Proof. apply deliver_unknown_nonce. Qed.

End Bridge.

Lemma unknown_nonce_dropped_witness :
  exists b',
    deliver no_stack OneShotPayClass (envelope_text true 7 "{}") ready_bridge = Returned b' /\
    rpcCallbacks b' = rpcCallbacks ready_bridge /\
    settled b' = settled ready_bridge /\
    In (Warned "Received RPC callback event that is not expected.") (log b') /\
    (forall p, restore_count p (log b') = restore_count p (log ready_bridge)).
Proof.
  eapply (unknown_nonce_dropped no_stack OneShotPayClass (envelope_text true 7 "{}")).
  - reflexivity.
  - vm_compute. reflexivity.
  - reflexivity.
  - reflexivity.
Defined.

Lemma response_settles_only_its_caller_witness :
  let bA := (rpcCall OneShotPayClass "getStatus" (VObj []) false ready_bridge).1 in
  let bB := (rpcCall OneShotPayClass "signOut" (VObj []) false bA).1 in
  rpcCallbacks bB !! 0 = Some 0%nat /\ rpcCallbacks bB !! 1 = Some 1%nat /\
  exists b',
    deliver no_stack OneShotPayClass (envelope_text true 1 "{}") bB = Returned b' /\
    rpcCallbacks b' !! 0 = Some 0%nat /\
    rpcCallbacks b' !! 1 = None /\
    settled b' !! 1%nat = Some (Ok (VObj [])) /\
    settled b' !! 0%nat = None.
Proof.
  intros bA bB.
  destruct (response_settles_only_its_caller no_stack OneShotPayClass
              "getStatus" (VObj []) false "signOut" (VObj []) false
              {| call_raises := None |} ready_bridge bA bB
              (rpcCall OneShotPayClass "getStatus" (VObj []) false ready_bridge).2
              (rpcCall OneShotPayClass "signOut" (VObj []) false bA).2
              (envelope_text true 1 "{}")
              (VObj [("success", VBool true); ("callbackNonce", VNum 1); ("result", VStr "{}")])
              (VObj []))
    as (_ & _ & HA & HB & b' & Hd & _ & HA' & HB' & HsB & HsA & _).
  - apply bridge_inv_initialize, bridge_inv_new.
  - reflexivity.
  - reflexivity.
  - reflexivity.
  - reflexivity.
  - vm_compute. reflexivity.
  - reflexivity.
  - vm_compute. reflexivity.
  - split; [exact HA |]. split; [exact HB |].
    exists b'. repeat split; assumption.
Defined.

Lemma WalletProxy_failure_skips_restore_witness :
  let bA := (rpcCall WalletProxyClass "getStatus" (VObj []) false ready_bridge).1 in
  exists b',
    deliver no_stack WalletProxyClass (envelope_text false 0 remote_error_text) bA
      = Returned b' /\
    settled b' !! 0%nat = Some (Err (ProxyError_fromError remote_error)) /\
    restore_count 0 (log b') = 0%nat.
Proof.
  intros bA.
  destruct (WalletProxy_failure_skips_restore no_stack "getStatus" (VObj []) false
              {| call_raises := None |} ready_bridge bA
              (rpcCall WalletProxyClass "getStatus" (VObj []) false ready_bridge).2)
    as [_ H].
  - apply bridge_inv_initialize, bridge_inv_new.
  - reflexivity.
  - reflexivity.
  - cbn in H.
    apply (H (envelope_text false 0 remote_error_text)
             (VObj [("success", VBool false); ("callbackNonce", VNum 0);
                    ("result", VStr remote_error_text)])
             remote_error).
    + vm_compute. reflexivity.
    + reflexivity.
    + reflexivity.
    + vm_compute. reflexivity.
Defined.

(** ** The payment flow *)

(** What [x402Fetch] does once the first response is a 402 whose challenge
    header parses to [req]. *)
Lemma x402Fetch_challenge w input init resp h req :
  fetch w init = inr resp ->
  status resp = 402 ->
  header_get "payment-required" (headers resp) = Some h ->
  h <> "" ->
  x402ParseJsonOrBase64Json h = Returned req ->
  x402Fetch w input init =
    match x402_challenge w input init req with
    | Returned (r, t) => Returned (r, Fetched init :: t)
    | Thrown e => Thrown e
    | Unmodelled => Unmodelled
    end.
Proof.
  intros Hf Hs Hh Hne Hp. unfold x402Fetch, doFetch. cbn. rewrite Hf, Hs. cbn.
  rewrite Hh. destruct h as [|c h]; [congruence |]. rewrite Hp. reflexivity.
Qed.

(** The checks of [x402Fetch] on the selected entry, up to the chain id. *)
Lemma x402_validate_selected w input req accepted exact :
  x402NormalizeAcceptedPayments req = Returned accepted ->
  find_first is_exact accepted = Returned (Some exact) ->
  truthy (get_prop "network" exact) = true ->
  truthy (get_prop "amount" exact) = true ->
  truthy (get_prop "asset" exact) = true ->
  truthy (get_prop "payTo" exact) = true ->
  x402_validate w input req =
    (let network := get_prop "network" exact in
     let amount := get_prop "amount" exact in
     let asset := get_prop "asset" exact in
     let payTo := get_prop "payTo" exact in
     chain ← x402GetChainIdFromNetwork network;
     match chain with
     | None => mret (inl (AjaxError (err_network network)))
     | Some chainId =>
         usdc ← x402IsUsdcOnBase chainId asset;
         if negb usdc then mret (inl (AjaxError (err_asset asset network)))
         else
           let extra := js_coalesce (get_prop "extra" exact) (VObj []) in
           let method :=
             js_coalesce (get_prop "assetTransferMethod" extra)
                         (get_prop "asset_transfer_method" extra) in
           refused ←
             (if truthy method
              then m ← js_toLowerCase method; mret (negb (String.eqb m "eip3009"))
              else mret false);
           if refused : bool then mret (inl (AjaxError (err_method method)))
           else mret (inr (plan_of w input req exact))
     end).
Proof.
  intros Hn Hf H1 H2 H3 H4. unfold x402_validate. rewrite Hn. cbn. rewrite Hf. cbn.
  rewrite H1, H2, H3, H4. reflexivity.
Qed.

(** C7: the selected exact entry names Base USDC on [eip155:1]. The call
    fails with the unsupported-asset error after the single initial fetch:
    no signature is requested and nothing else is sent. *)
Theorem wrong_chain_refused w input init resp h req accepted exact a :
  fetch w init = inr resp ->
  status resp = 402 ->
  header_get "payment-required" (headers resp) = Some h ->
  h <> "" ->
  x402ParseJsonOrBase64Json h = Returned req ->
  x402NormalizeAcceptedPayments req = Returned accepted ->
  find_first is_exact accepted = Returned (Some exact) ->
  get_prop "network" exact = VStr "eip155:1" ->
  get_prop "asset" exact = VStr a ->
  toLowerCase a = usdc_base ->
  truthy (get_prop "amount" exact) = true ->
  truthy (get_prop "payTo" exact) = true ->
  x402Fetch w input init =
    Returned (Err (AjaxError (err_asset (VStr a) (VStr "eip155:1"))), [Fetched init]) /\
  forall r t, x402Fetch w input init = Returned (r, t) ->
              forall sr, ~ In (SignatureRequested sr) t.
Proof.
  intros Hf Hs Hh Hne Hp Hn Hfi Hnet Ha Hlow Ham Hpay.
  assert (Hat : truthy (get_prop "asset" exact) = true).
  { rewrite Ha. cbn. destruct a; [discriminate Hlow | reflexivity]. }
  assert (E : x402Fetch w input init =
    Returned (Err (AjaxError (err_asset (VStr a) (VStr "eip155:1"))), [Fetched init])).
  { rewrite (x402Fetch_challenge w input init resp h req Hf Hs Hh Hne Hp).
    unfold x402_challenge.
    rewrite (x402_validate_selected w input req accepted exact Hn Hfi); try assumption;
      [| rewrite Hnet; reflexivity].
    rewrite Hnet, Ha. cbn. rewrite Hlow. reflexivity. }
  split; [exact E |].
  intros r t Hrt sr. rewrite E in Hrt. injection Hrt as <- <-.
  intros [Hin|[]]. discriminate Hin.
Qed.

Lemma wrong_chain_refused_witness :
  x402Fetch (paying_world (challenge_text (entry_text "eip155:1" "")))
            (InputString "https://api.test/data") [] =
    Returned (Err (AjaxError (err_asset (VStr usdc_mixed) (VStr "eip155:1"))), [Fetched []]).
Proof.
  eapply proj1.
  eapply (wrong_chain_refused (paying_world (challenge_text (entry_text "eip155:1" "")))
            (InputString "https://api.test/data") []).
  - reflexivity.
  - reflexivity.
  - reflexivity.
  - discriminate.
  - vm_compute. reflexivity.
  - reflexivity.
  - reflexivity.
  - reflexivity.
  - reflexivity.
  - reflexivity.
  - reflexivity.
  - reflexivity.
Defined.

(** A strong induction principle: the children of a node satisfy [P]. *)
Lemma value_induction (P : value -> Prop) :
  P VUndefined -> P VNull -> (forall b, P (VBool b)) -> (forall n, P (VNum n)) ->
  (forall s, P (VStr s)) -> (forall n, P (VBigInt n)) -> (forall n, P (VBoxedBigInt n)) ->
  (forall l, Forall P l -> P (VArr l)) ->
  (forall ps, Forall (fun p => P (snd p)) ps -> P (VObj ps)) ->
  (forall n m s, P n -> P m -> P s -> P (VError n m s)) ->
  (forall es, Forall (fun e => P (fst e) /\ P (snd e)) es -> P (VMap es)) ->
  (forall ms, Forall P ms -> P (VSet ms)) ->
  forall v, P v.
Proof.
  intros Hu Hn Hb Hz Hs Hbi Hbo Ha Ho He Hm Hse.
  fix IH 1. intros [| | b | n | s | n | n | l | ps | n m s | es | ms].
  - exact Hu.
  - exact Hn.
  - apply Hb.
  - apply Hz.
  - apply Hs.
  - apply Hbi.
  - apply Hbo.
  - apply Ha. induction l as [|x l IHl]; constructor; [apply IH | exact IHl].
  - apply Ho. induction ps as [|[k x] ps IHps]; constructor; [apply IH | exact IHps].
  - apply He; apply IH.
  - apply Hm. induction es as [|[k x] es IHes]; constructor;
      [split; apply IH | exact IHes].
  - apply Hse. induction ms as [|x ms IHms]; constructor; [apply IH | exact IHms].
Qed.

Lemma mapM_modelled {A B} (f : A -> outcome B) (l : list A) :
  Forall (fun x => f x <> Unmodelled) l -> mapM f l <> Unmodelled.
Proof.
  induction 1 as [|x l Hx Hl IH]; cbn; [discriminate |].
  destruct (f x); cbn; try congruence.
  destruct (mapM f l); cbn; first [discriminate | congruence].
Qed.

(** [JSON.stringify] stays inside the model on every value. *)
Lemma native_json_modelled (v : value) : native_json v <> Unmodelled.
Proof.
  induction v using value_induction; cbn; try discriminate.
  - pose proof (mapM_modelled native_json l H) as Hm.
    destruct (mapM native_json l); cbn; first [discriminate | congruence].
  - set (f := fun p : string * value => _).
    assert (Hm : mapM f ps <> Unmodelled).
    { apply mapM_modelled. eapply Forall_impl; [exact H |].
      intros [k x] Hx. subst f. cbn in *.
      destruct (native_json x); cbn; first [discriminate | congruence]. }
    destruct (mapM f ps); cbn; first [discriminate | congruence].
Qed.

Lemma payment_header_modelled pl signed : payment_header pl signed <> Unmodelled.
Proof.
  unfold payment_header. destruct (paymentPayload pl signed) as [payload| |] eqn:Hp; cbn.
  - unfold JSON_stringify. pose proof (native_json_modelled payload).
    destruct (native_json payload); cbn; first [discriminate | congruence].
  - discriminate.
  - unfold paymentPayload in Hp. destruct signed; cbn in Hp; discriminate.
Qed.

(** [x402_pay] always settles, starts by asking for the signature, and
    never ends in one of the refusals of the validation. *)
Lemma x402_pay_proceeds w init pl :
  exists r t,
    x402_pay w init pl = Returned (r, SignatureRequested (p_request pl) :: t) /\
    forall msg, r <> Err (AjaxError msg).
Proof.
  unfold x402_pay. destruct (getERC3009Signature w (p_request pl)) as [signed|e|e].
  - pose proof (payment_header_modelled pl signed) as Hm.
    destruct (payment_header pl signed) as [encoded|e|]; [| | congruence].
    + unfold doFetch. destruct (fetch w _); eexists _, _; (split; [reflexivity | discriminate]).
    + eexists _, _. split; [reflexivity | discriminate].
  - eexists _, _. split; [reflexivity | discriminate].
  - eexists _, _. split; [reflexivity | discriminate].
Qed.

Lemma chain_of_base : x402GetChainIdFromNetwork (VStr "eip155:8453") = Returned (Some 8453).
Proof. reflexivity. Qed.

(** C10: a transfer method that is the empty string, under either name,
    counts as absent: the entry passes the method check, the signature is
    requested with the window of the entry, and the call does not end in
    the unsupported-method refusal (nor in any other refusal). *)
Theorem empty_method_proceeds w input init resp h req accepted exact a :
  fetch w init = inr resp ->
  status resp = 402 ->
  header_get "payment-required" (headers resp) = Some h ->
  h <> "" ->
  x402ParseJsonOrBase64Json h = Returned req ->
  x402NormalizeAcceptedPayments req = Returned accepted ->
  find_first is_exact accepted = Returned (Some exact) ->
  get_prop "network" exact = VStr "eip155:8453" ->
  get_prop "asset" exact = VStr a ->
  toLowerCase a = usdc_base ->
  truthy (get_prop "amount" exact) = true ->
  truthy (get_prop "payTo" exact) = true ->
  (let extra := js_coalesce (get_prop "extra" exact) (VObj []) in
   get_prop "assetTransferMethod" extra = VStr "" \/
   (nullish (get_prop "assetTransferMethod" extra) = true /\
    get_prop "asset_transfer_method" extra = VStr "")) ->
  exists r t,
    x402Fetch w input init =
      Returned (r, Fetched init
                   :: SignatureRequested
                        {| recipient := x402ResolveRequestUrl input;
                           destinationAddress := get_prop "payTo" exact;
                           amount := get_prop "amount" exact;
                           validUntil :=
                             now_ms w / 1000 +
                             match get_prop "maxTimeoutSeconds" exact with
                             | VNum n => n
                             | _ => 60
                             end;
                           validAfter := now_ms w / 1000 |}
                   :: t) /\
    forall msg, r <> Err (AjaxError msg).
Proof.
  intros Hf Hs Hh Hne Hp Hn Hfi Hnet Ha Hlow Ham Hpay Hmeth.
  assert (Hat : truthy (get_prop "asset" exact) = true).
  { rewrite Ha. cbn. destruct a; [discriminate Hlow | reflexivity]. }
  rewrite (x402Fetch_challenge w input init resp h req Hf Hs Hh Hne Hp).
  unfold x402_challenge.
  rewrite (x402_validate_selected w input req accepted exact Hn Hfi); try assumption;
    [| rewrite Hnet; reflexivity].
  rewrite Hnet, Ha. cbn. rewrite Hlow. cbn.
  assert (Hm : truthy (js_coalesce
                 (get_prop "assetTransferMethod" (js_coalesce (get_prop "extra" exact) (VObj [])))
                 (get_prop "asset_transfer_method" (js_coalesce (get_prop "extra" exact) (VObj []))))
               = false).
  { cbn in Hmeth. destruct Hmeth as [E|[E1 E2]].
    - rewrite E. reflexivity.
    - unfold js_coalesce at 1. rewrite E1, E2. reflexivity. }
  rewrite Hm. rewrite chain_of_base. cbn -[x402_pay].
  match goal with |- context [x402_pay w init ?pl] =>
    destruct (x402_pay_proceeds w init pl) as (r & t & E & Hr) end.
  rewrite E. exists r, t. split; [reflexivity | exact Hr].
Qed.

Lemma empty_method_proceeds_witness :
  exists r t,
    x402Fetch (paying_world (challenge_text (entry_text "eip155:8453" empty_method_tail)))
              (InputString "https://api.test/data") [] =
      Returned (r, Fetched []
                   :: SignatureRequested
                        {| recipient := "https://api.test/data";
                           destinationAddress := VStr "0xAbc";
                           amount := VStr "1000";
                           validUntil := 1700000060;
                           validAfter := 1700000000 |}
                   :: t) /\
    forall msg, r <> Err (AjaxError msg).
Proof.
  pose (exact := entry_value "eip155:8453"
                   [("extra", VObj [("assetTransferMethod", VStr "")])]).
  apply (empty_method_proceeds
           (paying_world (challenge_text (entry_text "eip155:8453" empty_method_tail)))
           (InputString "https://api.test/data") []
           {| status := 402;
              headers := [("payment-required",
                           challenge_text (entry_text "eip155:8453" empty_method_tail))] |}
           (challenge_text (entry_text "eip155:8453" empty_method_tail))
           (VObj [("accepted", VArr [exact])]) [exact] exact usdc_mixed).
  - reflexivity.
  - reflexivity.
  - reflexivity.
  - discriminate.
  - vm_compute. reflexivity.
  - reflexivity.
  - reflexivity.
  - reflexivity.
  - reflexivity.
  - reflexivity.
  - reflexivity.
  - reflexivity.
  - left. reflexivity.
Defined.

(** ** Decimal text *)

Lemma append_cons (x : ascii) (a b : string) : String x a ++ b = String x (a ++ b).
Proof. reflexivity. Qed.

Lemma append_nil_l (a : string) : "" ++ a = a.
Proof. reflexivity. Qed.

Lemma append_assoc (a b c : string) : (a ++ b) ++ c = a ++ (b ++ c).
Proof.
  induction a as [|x a IH]; [reflexivity |].
  rewrite !append_cons. f_equal. exact IH.
Qed.

Lemma append_nil_r (a : string) : a ++ "" = a.
Proof.
  induction a as [|x a IH]; [reflexivity |]. rewrite append_cons. f_equal. exact IH.
Qed.

Lemma length_append (a b : string) :
  String.length (a ++ b) = (String.length a + String.length b)%nat.
Proof.
  induction a as [|x a IH]; [reflexivity |]. rewrite append_cons. cbn. f_equal. exact IH.
Qed.

Lemma span_digits_uint (d : Decimal.uint) (rest : string) :
  no_digit_head rest = true ->
  span_digits (NilEmpty.string_of_uint d ++ rest) = (NilEmpty.string_of_uint d, rest).
Proof.
  intros Hr. induction d; cbn [NilEmpty.string_of_uint]; rewrite ?append_cons, ?append_nil_l;
    try (cbn; rewrite IHd; reflexivity).
  destruct rest as [|c rest]; [reflexivity |]. cbn in *.
  destruct (is_digit c); [discriminate | reflexivity].
Qed.

Lemma all_digits_uint (d : Decimal.uint) : all_digits (NilEmpty.string_of_uint d) = true.
Proof. induction d; cbn; auto. Qed.

Lemma nzhead_head (d : Decimal.uint) :
  match Decimal.nzhead d with Decimal.D0 _ => False | _ => True end.
Proof. induction d; cbn; auto. Qed.

Lemma to_uint_head (p : positive) :
  match Pos.to_uint p with Decimal.D0 _ | Decimal.Nil => False | _ => True end.
Proof.
  pose proof (DecimalPos.Unsigned.to_of (Pos.to_uint p)) as H.
  rewrite DecimalPos.Unsigned.of_to in H. cbn in H.
  pose proof (DecimalPos.Unsigned.to_uint_nonzero p) as Hz.
  pose proof (nzhead_head (Pos.to_uint p)) as Hh.
  unfold Decimal.unorm in H.
  destruct (Decimal.nzhead (Pos.to_uint p)) eqn:E; rewrite H in *; auto.
Qed.

Lemma dec_pos (p : positive) : dec (Zpos p) = digits p.
Proof.
  unfold dec, digits. cbn. pose proof (to_uint_head p).
  destruct (Pos.to_uint p); cbn; tauto.
Qed.

Lemma dec_neg (p : positive) : dec (Zneg p) = String "-" (digits p).
Proof.
  unfold dec, digits. cbn. pose proof (to_uint_head p).
  destruct (Pos.to_uint p); cbn; tauto.
Qed.

Lemma digits_head (p : positive) :
  exists c s, digits p = String c s /\ is_digit c = true /\
              (nat_of_ascii c =? 48)%nat = false.
Proof.
  unfold digits. pose proof (to_uint_head p).
  destruct (Pos.to_uint p); cbn; try tauto; eexists _, _; repeat split.
Qed.

Lemma of_uint_digits (p : positive) :
  NilEmpty.uint_of_string (digits p) = Some (Pos.to_uint p) /\
  Z.of_uint (Pos.to_uint p) = Zpos p.
Proof.
  split; [apply NilEmpty.usu |].
  unfold Z.of_uint. rewrite DecimalPos.Unsigned.of_to. reflexivity.
Qed.

Lemma ok_rest_facts (s : string) :
  ok_rest s = true -> no_digit_head s = true /\ starts_fraction s = false.
Proof.
  destruct s as [|c s]; [auto |]. cbn.
  destruct c as [[|] [|] [|] [|] [|] [|] [|] [|]]; cbn; intros H; try discriminate H; auto.
Qed.

Lemma parse_digits_pos (p : positive) (rest : string) :
  ok_rest rest = true -> parse_digits (digits p ++ rest) = Parsed (Zpos p) rest.
Proof.
  intros Hr. apply ok_rest_facts in Hr as [Hd Hf].
  unfold parse_digits, digits. rewrite span_digits_uint by assumption.
  destruct (digits_head p) as (c & s & E & _ & Hz). unfold digits in E. rewrite E.
  assert (Hl : leading_zero (String c s) = false).
  { unfold leading_zero. destruct s; [reflexivity | exact Hz]. }
  rewrite Hl, Hf, <- E. destruct (of_uint_digits p) as [H1 H2]. unfold digits in H1.
  rewrite H1, H2. reflexivity.
Qed.

Lemma parse_digits_zero (rest : string) :
  ok_rest rest = true -> parse_digits (String "0" rest) = Parsed 0 rest.
Proof.
  intros Hr. apply ok_rest_facts in Hr as [Hd Hf].
  assert (Hsp : span_digits rest = ("", rest)).
  { destruct rest as [|c r]; [reflexivity |]. cbn in *.
    destruct (is_digit c); [discriminate | reflexivity]. }
  unfold parse_digits. cbn [span_digits]. change (is_digit "0") with true. cbv iota.
  rewrite Hsp. cbv iota beta. unfold leading_zero. rewrite Hf. reflexivity.
Qed.

Lemma parse_number_dec (n : Z) (rest : string) :
  ok_rest rest = true -> parse_number (dec n ++ rest) = Parsed (VNum n) rest.
Proof.
  intros Hr. destruct n as [|p|p].
  - change (dec 0) with "0". rewrite append_cons, append_nil_l. unfold parse_number.
    replace (nat_of_ascii "0" =? 45)%nat with false by reflexivity.
    rewrite parse_digits_zero by assumption. reflexivity.
  - rewrite dec_pos. destruct (digits_head p) as (c & s & E & Hc & _).
    unfold parse_number. pose proof (parse_digits_pos p rest Hr) as Hp.
    rewrite E in *. rewrite append_cons in *.
    assert (Hm : (nat_of_ascii c =? 45)%nat = false).
    { destruct c as [[|] [|] [|] [|] [|] [|] [|] [|]]; try discriminate Hc; reflexivity. }
    rewrite Hm, Hp. reflexivity.
  - rewrite dec_neg. rewrite append_cons. unfold parse_number.
    replace (nat_of_ascii "-" =? 45)%nat with true by reflexivity.
    rewrite parse_digits_pos by assumption. reflexivity.
Qed.

(** The head of a decimal text is a digit or the minus sign. *)
Lemma dec_head (n : Z) :
  exists c s, dec n = String c s /\ (is_digit c || (nat_of_ascii c =? 45)%nat) = true.
Proof.
  destruct n as [|p|p].
  - exists "0"%char, "". split; reflexivity.
  - rewrite dec_pos. destruct (digits_head p) as (c & s & E & Hc & _).
    exists c, s. rewrite Hc. auto.
  - rewrite dec_neg. eexists _, _. split; reflexivity.
Qed.

(** ** Reading back what was printed *)

Lemma parse_chars_escape_char (c : ascii) (tail : string) :
  parse_chars (escape_char c ++ tail)
  = pbind (parse_chars tail) (fun t r => Parsed (String c t) r).
Proof.
  destruct c as [[|] [|] [|] [|] [|] [|] [|] [|]]; reflexivity.
Qed.

Lemma parse_chars_escape (s rest : string) :
  parse_chars (escape s ++ String dquote rest) = Parsed s rest.
Proof.
  induction s as [|c s IH]; [reflexivity |].
  cbn [escape]. rewrite append_assoc, parse_chars_escape_char, IH. reflexivity.
Qed.

Lemma quote_append (s rest : string) :
  quote s ++ rest = String dquote (escape s ++ String dquote rest).
Proof.
  unfold quote. rewrite append_cons, append_assoc, append_cons, append_nil_l. reflexivity.
Qed.

Lemma value_head_facts (c : ascii) (s : string) :
  value_head c = true ->
  skip_ws (String c s) = String c s /\
  next_item 93 (String c s) = Stray /\
  next_item 125 (String c s) = Stray.
Proof.
  destruct c as [[|] [|] [|] [|] [|] [|] [|] [|]]; cbn; intros H;
    try discriminate H; repeat split.
Qed.

Lemma parse_value_number (f : nat) (c : ascii) (s : string) :
  (is_digit c || (nat_of_ascii c =? 45)%nat) = true ->
  parse_value (S f) (String c s) = parse_number (String c s).
Proof.
  destruct c as [[|] [|] [|] [|] [|] [|] [|] [|]]; cbn; intros H;
    try discriminate H; reflexivity.
Qed.

Lemma print_head (t : value) :
  is_tree t = true -> exists c s, print t = String c s /\ value_head c = true.
Proof.
  destruct t; cbn; try discriminate; intros _.
  - eexists _, _. split; reflexivity.
  - destruct b; eexists _, _; split; reflexivity.
  - destruct (dec_head n) as (c & s & E & Hc). exists c, s. split; [exact E |].
    unfold value_head. cbn. destruct (is_digit c); [reflexivity |]. cbn in *.
    rewrite Hc. reflexivity.
  - eexists _, _. split; reflexivity.
  - eexists _, _. split; reflexivity.
  - eexists _, _. split; reflexivity.
Qed.

Lemma concat_cons2 (sep x y : string) (l : list string) :
  String.concat sep (x :: y :: l) = x ++ sep ++ String.concat sep (y :: l).
Proof. reflexivity. Qed.

Lemma next_item_more (close : nat) (s : string) : next_item close (String "," s) = More s.
Proof. reflexivity. Qed.

Lemma parse_elements_print (l : list value) :
  l <> [] -> Forall reads_back l ->
  forall f rest, (list_sum (List.map (fun x => S (parse_cost x)) l) <= f)%nat ->
    parse_elements f (String.concat "," (List.map print l) ++ String "]" rest)
    = Parsed (List.map norm l) rest.
Proof.
  intros Hne Hall. induction Hall as [|x l Hx Hl IH]; [congruence |].
  intros f rest Hf. cbn in Hf.
  destruct f as [|f]; [lia |]. destruct l as [|y l].
  - cbn [List.map String.concat]. cbn [parse_elements].
    rewrite (Hx f (String "]" rest)) by (cbn in *; lia || reflexivity).
    reflexivity.
  - cbn [List.map]. rewrite concat_cons2, !append_assoc, append_cons, append_nil_l.
    cbn [parse_elements].
    rewrite (Hx f) by (cbn in *; lia || reflexivity).
    cbn [pbind]. rewrite next_item_more.
    change (print y :: List.map print l) with (List.map print (y :: l)).
    rewrite IH by (cbn in *; congruence || lia). reflexivity.
Qed.

Lemma parse_members_print (ps : list (string * value)) :
  ps <> [] -> Forall (fun p => reads_back (snd p)) ps ->
  forall f rest, (list_sum (List.map (fun p => S (parse_cost (snd p))) ps) <= f)%nat ->
    parse_members f (String.concat "," (List.map member_text ps) ++ String "}" rest)
    = Parsed (List.map (fun p => (fst p, norm (snd p))) ps) rest.
Proof.
  intros Hne Hall. induction Hall as [|[k x] l Hx Hl IH]; [congruence |].
  intros f rest Hf. cbn in Hf, Hx.
  destruct f as [|f]; [lia |].
  assert (Hstep : forall tail, ok_rest tail = true ->
            parse_members (S f) (member_text (k, x) ++ tail)
            = pbind (Parsed (A := value) (norm x) tail) (fun v r3 =>
                match next_item 125 r3 with
                | More r4 => pbind (parse_members f r4) (fun ms r5 => Parsed ((k, v) :: ms) r5)
                | Closed r4 => Parsed [(k, v)] r4
                | Stray => Malformed
                end)).
  { intros tail Ht. unfold member_text. cbn [fst snd].
    rewrite !append_assoc, quote_append. cbn [parse_members skip_ws].
    change (is_ws dquote) with false. cbv iota.
    change (nat_of_ascii dquote =? 34)%nat with true. cbv iota.
    rewrite append_cons, append_nil_l, parse_chars_escape. cbn [pbind skip_ws].
    change (is_ws ":") with false. cbv iota.
    change (nat_of_ascii ":" =? 58)%nat with true. cbv iota.
    rewrite (Hx f tail) by (cbn in *; lia || assumption). reflexivity. }
  destruct l as [|q l].
  - cbn [List.map String.concat]. rewrite Hstep by reflexivity. reflexivity.
  - cbn [List.map]. rewrite concat_cons2, !append_assoc, append_cons, append_nil_l.
    rewrite Hstep by reflexivity. cbn [pbind]. rewrite next_item_more.
    change (member_text q :: List.map member_text l) with (List.map member_text (q :: l)).
    rewrite IH by (cbn in *; congruence || lia). reflexivity.
Qed.

Lemma bracket_append (o c : ascii) (body rest : string) :
  (String o "" ++ body ++ String c "") ++ rest = String o (body ++ String c rest).
Proof. rewrite !append_assoc. reflexivity. Qed.

Lemma is_tree_arr (l : list value) :
  is_tree (VArr l) = true -> Forall (fun x => is_tree x = true) l.
Proof.
  cbn. induction l as [|x l IH]; cbn; [constructor |].
  intros H. apply andb_prop in H as [Hx Hl]. constructor; auto.
Qed.

Lemma is_tree_obj (ps : list (string * value)) :
  is_tree (VObj ps) = true -> Forall (fun p => is_tree (snd p) = true) ps.
Proof.
  cbn. induction ps as [|p ps IH]; cbn; [constructor |].
  intros H. apply andb_prop in H as [Hx Hl]. constructor; auto.
Qed.

(** The parser reads the text of a tree back, whatever follows it. *)
Lemma parse_print (t : value) : is_tree t = true -> reads_back t.
Proof.
  induction t as [| | b | n | s | n | n | l IH | ps IH | n m s _ _ _ | es _ | ms _]
    using value_induction; intros Ht; try discriminate Ht;
    intros f rest Hf Hr; (destruct f as [|f]; [cbn in Hf; lia |]).
  - reflexivity.
  - destruct b; reflexivity.
  - cbn [print norm]. destruct (dec_head n) as (c & r & E & Hc).
    pose proof (parse_number_dec n rest Hr) as Hp. rewrite E in *.
    rewrite append_cons in *. rewrite parse_value_number by assumption. exact Hp.
  - cbn [print norm]. rewrite quote_append. cbn [parse_value skip_ws].
    change (is_ws dquote) with false. cbv iota.
    change (nat_of_ascii dquote =? 91)%nat with false.
    change (nat_of_ascii dquote =? 123)%nat with false.
    change (nat_of_ascii dquote =? 34)%nat with true. cbv iota.
    rewrite parse_chars_escape. reflexivity.
  - apply is_tree_arr in Ht.
    assert (Hall : Forall reads_back l).
    { clear Hf. induction IH as [|x l Hx Hl IHl]; constructor;
        inversion Ht; subst; auto. }
    cbn [print norm]. rewrite bracket_append.
    destruct l as [|x l]; [reflexivity |].
    destruct (print_head x) as (c & r & E & Hc); [inversion Ht; assumption |].
    assert (Hstray : forall tail,
              next_item 93 (String.concat "," (List.map print (x :: l)) ++ tail) = Stray).
    { intros tail. destruct l as [|y l]; cbn [List.map].
      - cbn [String.concat]. rewrite E, append_cons.
        apply (value_head_facts c _ Hc).
      - rewrite concat_cons2, E, !append_cons. apply (value_head_facts c _ Hc). }
    cbn [parse_value skip_ws]. change (is_ws "[") with false. cbv iota.
    change (nat_of_ascii "[" =? 91)%nat with true. cbv iota.
    rewrite Hstray.
    rewrite parse_elements_print; [reflexivity | congruence | exact Hall |].
    cbn in Hf. cbn. lia.
  - apply is_tree_obj in Ht.
    assert (Hall : Forall (fun p => reads_back (snd p)) ps).
    { clear Hf. induction IH as [|x l Hx Hl IHl]; constructor;
        inversion Ht; subst; auto. }
    cbn [print norm].
    change (List.map (fun p => quote (fst p) ++ ":" ++ print (snd p)) ps)
      with (List.map member_text ps).
    rewrite bracket_append.
    destruct ps as [|[k x] ps]; [reflexivity |].
    assert (Hstray : forall tail,
              next_item 125 (String.concat "," (List.map member_text ((k, x) :: ps)) ++ tail)
              = Stray).
    { intros tail. destruct ps as [|y ps]; cbn [List.map];
        unfold member_text at 1; cbn [fst snd].
      - cbn [String.concat]. unfold quote. rewrite !append_cons. reflexivity.
      - rewrite concat_cons2. unfold quote. rewrite !append_cons. reflexivity. }
    cbn [parse_value skip_ws]. change (is_ws "{") with false. cbv iota.
    change (nat_of_ascii "{" =? 91)%nat with false.
    change (nat_of_ascii "{" =? 123)%nat with true. cbv iota.
    rewrite Hstray.
    rewrite parse_members_print; [reflexivity | congruence | exact Hall |].
    cbn in Hf. cbn. lia.
Qed.

Lemma length_concat_bound (cost : list nat) (texts : list string) :
  Forall2 (fun c t => (c <= 2 * String.length t)%nat) cost texts ->
  (list_sum (List.map S cost) <= 2 * String.length (String.concat "," texts) + 1)%nat.
Proof.
  induction 1 as [|c t cs ts Hc Hcs IH]; [cbn; lia |].
  destruct ts as [|t' ts].
  - inversion Hcs; subst. cbn. lia.
  - rewrite concat_cons2, !length_append.
    remember (String.concat "," (t' :: ts)) as tail.
    change (list_sum (List.map S (c :: cs))) with (S c + list_sum (List.map S cs))%nat.
    cbn [String.length]. lia.
Qed.

Lemma print_nonempty (t : value) : (1 <= String.length (print t))%nat.
Proof.
  destruct t; cbn [print]; try (cbn; lia);
    try (destruct (dec_head n) as (c & s & -> & _); cbn; lia).
  - destruct b; cbn; lia.
  - rewrite append_cons. cbn. lia.
  - rewrite append_cons. cbn. lia.
Qed.

(** The fuel [JSON.parse] starts with covers the text of any tree. *)
Lemma parse_cost_bound (t : value) : (parse_cost t <= 2 * String.length (print t))%nat.
Proof.
  induction t as [| | b | n | s | n | n | l IH | ps IH | n m s _ _ _ | es _ | ms _]
    using value_induction;
    try (pose proof (print_nonempty (VBool b))); try (pose proof (print_nonempty (VNum n)));
    try (pose proof (print_nonempty (VStr s))); try (cbn in *; lia).
  - cbn [print parse_cost]. rewrite append_cons, append_nil_l.
    cbn [String.length]. rewrite length_append. cbn [String.length].
    pose proof (length_concat_bound (List.map parse_cost l) (List.map print l)) as Hb.
    rewrite List.map_map in Hb. cbn in Hb |- *.
    assert (Hf2 : Forall2 (fun c t => (c <= 2 * String.length t)%nat)
                    (List.map parse_cost l) (List.map print l)).
    { clear Hb. induction IH; cbn; constructor; auto. }
    specialize (Hb Hf2). lia.
  - cbn [print parse_cost]. rewrite append_cons, append_nil_l.
    cbn [String.length]. rewrite length_append. cbn [String.length].
    pose proof (length_concat_bound (List.map (fun p => parse_cost (snd p)) ps)
                  (List.map (fun p => quote (fst p) ++ ":" ++ print (snd p)) ps)) as Hb.
    rewrite List.map_map in Hb. cbn in Hb |- *.
    assert (Hf2 : Forall2 (fun c t => (c <= 2 * String.length t)%nat)
                    (List.map (fun p => parse_cost (snd p)) ps)
                    (List.map (fun p => quote (fst p) ++ ":" ++ print (snd p)) ps)).
    { clear Hb. induction IH as [|p ps Hp Hps IHps]; cbn; constructor; auto.
      rewrite !length_append. lia. }
    specialize (Hb Hf2). lia.
Qed.

(** [JSON.parse] reads the text of a tree back. *)
Lemma JSON_parse_print (t : value) :
  is_tree t = true -> JSON_parse (print t) = Returned (norm t).
Proof.
  intros Ht. unfold JSON_parse.
  pose proof (parse_print t Ht (2 * String.length (print t) + 2)%nat "") as H.
  rewrite append_nil_r in H. rewrite H; [reflexivity | | reflexivity].
  pose proof (parse_cost_bound t). lia.
Qed.

(** ** Objects with unique names *)


Lemma set_prop_fresh (k : string) (v : value) (ps : list (string * value)) :
  ~ In k (List.map fst ps) -> set_prop k v ps = (ps ++ [(k, v)])%list.
Proof.
  induction ps as [|[k' v'] ps IH]; cbn; [reflexivity |]. intros H.
  destruct (String.eqb_spec k k') as [->|Hne]; [tauto |].
  rewrite IH by tauto. reflexivity.
Qed.


Lemma fold_set_prop_fresh (ms acc : list (string * value)) :
  NoDup (List.map fst (acc ++ ms)) ->
  fold_left (fun a p => set_prop (fst p) (snd p) a) ms acc = (acc ++ ms)%list.
Proof.
  revert acc. induction ms as [|[k v] ms IH]; intros acc Hnd; cbn.
  - rewrite app_nil_r. reflexivity.
  - assert (Hfresh : ~ In k (List.map fst acc)).
    { rewrite List.map_app in Hnd. cbn in Hnd.
      apply NoDup_app in Hnd as (_ & Hd & _). intros Hin.
      apply (Hd k); [apply list_elem_of_In; exact Hin | left]. }
    rewrite set_prop_fresh by assumption.
    replace (acc ++ (k, v) :: ms)%list with ((acc ++ [(k, v)]) ++ ms)%list
      by (rewrite <- app_assoc; reflexivity).
    apply IH. rewrite <- app_assoc. exact Hnd.
Qed.

(** With unique names the object is its member list. *)
Lemma object_of_members_unique (ms : list (string * value)) :
  NoDup (List.map fst ms) -> object_of_members ms = ms.
Proof. intros H. unfold object_of_members. rewrite fold_set_prop_fresh; auto. Qed.



Lemma unique_keys_arr (l : list value) :
  unique_keys (VArr l) <-> Forall unique_keys l.
Proof.
  cbn. induction l as [|x l IH]; cbn.
  - split; [constructor | trivial].
  - rewrite IH. split; [intros [H1 H2]; constructor; auto | intros H; inversion H; auto].
Qed.

Lemma unique_keys_obj (ps : list (string * value)) :
  unique_keys (VObj ps) <->
  NoDup (List.map fst ps) /\ Forall (fun p => unique_keys (snd p)) ps.
Proof.
  cbn. apply and_iff_compat_l. induction ps as [|x l IH]; cbn.
  - split; [constructor | trivial].
  - rewrite IH. split; [intros [H1 H2]; constructor; auto | intros H; inversion H; auto].
Qed.

(** A tree with unique names is read back as it is. *)
Lemma norm_unique (t : value) : unique_keys t -> norm t = t.
Proof.
  induction t as [| | b | n | s | n | n | l IH | ps IH | n m s _ _ _ | es _ | ms _]
    using value_induction; intros Hu; try reflexivity.
  - apply unique_keys_arr in Hu. cbn. f_equal.
    induction IH as [|x l Hx Hl IHl]; [reflexivity |].
    inversion Hu; subst. cbn. f_equal; auto.
  - apply unique_keys_obj in Hu as [Hnd Hu]. cbn.
    assert (E : List.map (fun p => (fst p, norm (snd p))) ps = ps).
    { clear Hnd. induction IH as [|[k x] l Hx Hl IHl]; [reflexivity |].
      inversion Hu; subst. cbn in *. f_equal; [f_equal |]; auto. }
    rewrite E, object_of_members_unique by assumption. reflexivity.
Qed.

(** ** Base64 and UTF-8 read back *)

Ltac divmod := zify; Z.div_mod_to_equations; lia.

Lemma triple_induction (P : list nat -> Prop) :
  P [] -> (forall a, P [a]) -> (forall a b, P [a; b]) ->
  (forall a b c l, P l -> P (a :: b :: c :: l)) ->
  forall l, P l.
Proof.
  intros H0 H1 H2 H3. fix IH 1. intros [|a [|b [|c l]]].
  - exact H0.
  - apply H1.
  - apply H2.
  - apply H3, IH.
Qed.

Ltac bounded_items :=
  repeat match goal with
         | |- Forall _ (_ :: _) => constructor; [divmod |]
         | |- Forall _ [] => constructor
         end.

Lemma sextets_spec (bs : list nat) :
  Forall (fun b => (b < 256)%nat) bs ->
  Forall (fun x => (x < 64)%nat) (sextets bs).1 /\
  octets (sextets bs).1 = Some bs /\
  ((sextets bs).2 <= 2)%nat /\
  ((length (sextets bs).1 + (sextets bs).2) mod 4 = 0)%nat.
Proof.
  induction bs as [| a | a b | a b c l IH] using triple_induction; intros Hb.
  - cbn. repeat split; [constructor | lia].
  - inversion Hb; subst. cbn [sextets fst snd octets length].
    split; [bounded_items |].
    assert (E1 : (a / 4 * 4 + a mod 4 * 16 / 16 = a)%nat) by divmod.
    split; [rewrite E1; reflexivity |]. split; [lia | reflexivity].
  - inversion Hb as [|? ? Ha Hb']; subst. inversion Hb' as [|? ? Hb2 _]; subst.
    cbn [sextets fst snd octets length].
    split; [bounded_items |].
    assert (E1 : (a / 4 * 4 + (a mod 4 * 16 + b / 16) / 16 = a)%nat) by divmod.
    assert (E2 : ((a mod 4 * 16 + b / 16) mod 16 * 16 + b mod 16 * 4 / 4 = b)%nat) by divmod.
    split; [rewrite E1, E2; reflexivity |]. split; [lia | reflexivity].
  - inversion Hb as [|? ? Ha Hb1]; subst. inversion Hb1 as [|? ? Hb2 Hb3]; subst.
    inversion Hb3 as [|? ? Hc Hl]; subst.
    destruct (IH Hl) as (I1 & I2 & I3 & I4).
    cbn [sextets]. destruct (sextets l) as [ss pad]. cbn [fst snd] in *.
    split; [bounded_items; exact I1 |]. split; [| split; [exact I3 |]].
    + cbn [octets]. rewrite I2. cbn [fmap option_fmap option_map].
      assert (E1 : (a / 4 * 4 + (a mod 4 * 16 + b / 16) / 16 = a)%nat) by divmod.
      assert (E2 : ((a mod 4 * 16 + b / 16) mod 16 * 16 + (b mod 16 * 4 + c / 64) / 4 = b)%nat)
        by divmod.
      assert (E3 : ((b mod 16 * 4 + c / 64) mod 4 * 64 + c mod 64 = c)%nat) by divmod.
      rewrite E1, E2, E3. reflexivity.
    + cbn [length]. divmod.
Qed.

Lemma b64_char_spec (n : nat) :
  (n < 64)%nat ->
  b64_index (b64_char n) = Some n /\
  is_ascii_ws (b64_char n) = false /\
  (nat_of_ascii (b64_char n) =? 61)%nat = false.
Proof.
  intros H. do 64 (destruct n as [|n]; [repeat split |]). lia.
Qed.

Lemma filter_all {A} (f : A -> bool) (l : list A) :
  Forall (fun x => f x = true) l -> List.filter f l = l.
Proof. induction 1 as [|x l Hx Hl IH]; cbn; [reflexivity |]. rewrite Hx, IH. reflexivity. Qed.

Lemma drop_padding_keep (l : list ascii) :
  match l with c :: _ => (nat_of_ascii c =? 61)%nat = false | [] => True end ->
  drop_padding l = l.
Proof.
  destruct l as [|p [|q r]]; cbn; intros H; try reflexivity; rewrite H; reflexivity.
Qed.

(** Stripping the padding of an encoded text leaves its alphabet part. *)
Lemma strip_padding (ss : list nat) (pad : nat) :
  Forall (fun x => (x < 64)%nat) ss -> (pad <= 2)%nat ->
  List.rev (drop_padding (List.rev (List.map b64_char ss ++ repeat "="%char pad)))
  = List.map b64_char ss.
Proof.
  intros Hss Hpad. rewrite rev_app_distr.
  assert (Hhead : match List.rev (List.map b64_char ss) with
                  | c :: _ => (nat_of_ascii c =? 61)%nat = false
                  | [] => True
                  end).
  { destruct (List.rev (List.map b64_char ss)) as [|c r] eqn:E; [exact I |].
    assert (Hin : In c (List.map b64_char ss)).
    { apply in_rev. rewrite E. left. reflexivity. }
    apply in_map_iff in Hin as (n & <- & Hn).
    rewrite List.Forall_forall in Hss. apply b64_char_spec, Hss, Hn. }
  destruct pad as [|[|[|pad]]]; [| | | lia]; cbn [repeat List.rev app].
  - rewrite drop_padding_keep by exact Hhead. apply rev_involutive.
  - destruct (List.rev (List.map b64_char ss)) as [|c r] eqn:E.
    + cbn. rewrite <- (rev_involutive (List.map b64_char ss)), E. reflexivity.
    + cbn [drop_padding]. change (nat_of_ascii "=" =? 61)%nat with true. cbv iota.
      rewrite Hhead, <- E. apply rev_involutive.
  - destruct (List.rev (List.map b64_char ss)) as [|c r] eqn:E.
    + cbn. rewrite <- (rev_involutive (List.map b64_char ss)), E. reflexivity.
    + cbn. rewrite <- E. apply rev_involutive.
Qed.

Lemma mapM_b64_index (ss : list nat) :
  Forall (fun x => (x < 64)%nat) ss -> mapM b64_index (List.map b64_char ss) = Some ss.
Proof.
  induction 1 as [|x l Hx Hl IH]; [reflexivity |].
  change (mapM b64_index (List.map b64_char (x :: l)))
    with (y ← b64_index (b64_char x); k ← mapM b64_index (List.map b64_char l); mret (y :: k)).
  destruct (b64_char_spec x Hx) as (-> & _). rewrite IH. reflexivity.
Qed.

(** [atob] undoes [btoa] on bytes. *)
Lemma atob_btoa (bs : list nat) :
  Forall (fun b => (b < 256)%nat) bs -> atob (btoa bs) = Returned bs.
Proof.
  intros Hb. destruct (sextets_spec bs Hb) as (Hss & Hoct & Hpad & Hlen).
  unfold atob, btoa. destruct (sextets bs) as [ss pad]. cbn [fst snd] in *.
  rewrite list_ascii_of_string_of_list_ascii.
  rewrite filter_all.
  - rewrite List.length_app, List.length_map, repeat_length.
    apply Nat.eqb_eq in Hlen. rewrite Hlen.
    rewrite strip_padding, mapM_b64_index, Hoct by assumption. reflexivity.
  - apply Forall_app. split.
    + apply List.Forall_forall. intros c Hin.
      apply in_map_iff in Hin as (n & <- & Hn).
      rewrite List.Forall_forall in Hss.
      destruct (b64_char_spec n (Hss n Hn)) as (_ & -> & _). reflexivity.
    + apply List.Forall_forall. intros c Hin. apply repeat_spec in Hin. subst. reflexivity.
Qed.

Lemma utf8_encode_bytes (s : string) : Forall (fun b => (b < 256)%nat) (utf8_encode s).
Proof.
  induction s as [|c s IH]; cbn [utf8_encode]; [constructor |].
  pose proof (nat_ascii_bounded c) as Hc.
  destruct (nat_of_ascii c <? 128)%nat; bounded_items; exact IH.
Qed.

Lemma utf8_decode_char (c : ascii) (s : string) :
  utf8_decode (utf8_encode (String c s))
  = t ← utf8_decode (utf8_encode s); mret (String c t).
Proof.
  destruct c as [[|] [|] [|] [|] [|] [|] [|] [|]]; reflexivity.
Qed.

Lemma utf8_decode_encode (s : string) : utf8_decode (utf8_encode s) = Returned s.
Proof.
  induction s as [|c s IH]; [reflexivity |].
  rewrite utf8_decode_char, IH. reflexivity.
Qed.

(** [x402Base64DecodeUtf8] undoes [x402Base64EncodeUtf8]. *)
Lemma x402Base64_roundtrip (s : string) :
  x402Base64DecodeUtf8 (x402Base64EncodeUtf8 s) = Returned s.
Proof.
  unfold x402Base64DecodeUtf8, x402Base64EncodeUtf8.
  rewrite atob_btoa by apply utf8_encode_bytes. cbn. apply utf8_decode_encode.
Qed.

(** ** What the parser builds *)

Lemma set_prop_all (P : value -> bool) k v ps :
  P v = true -> forallb (fun p => P (snd p)) ps = true ->
  forallb (fun p => P (snd p)) (set_prop k v ps) = true.
Proof.
  intros Hv. induction ps as [|[k' v'] ps IH]; cbn; [rewrite Hv; reflexivity |].
  intros H. apply andb_prop in H as [H1 H2].
  destruct (String.eqb k k'); cbn; rewrite ?Hv, ?H1, ?H2, ?IH; auto.
Qed.

Lemma object_of_members_all (P : value -> bool) ms :
  forallb (fun p => P (snd p)) ms = true ->
  forallb (fun p => P (snd p)) (object_of_members ms) = true.
Proof.
  unfold object_of_members.
  assert (H : forall acc, forallb (fun p => P (snd p)) acc = true ->
            forallb (fun p => P (snd p)) ms = true ->
            forallb (fun p => P (snd p))
              (fold_left (fun a p => set_prop (fst p) (snd p) a) ms acc) = true).
  { induction ms as [|[k v] ms IH]; intros acc Ha Hm; cbn in *; [exact Ha |].
    apply andb_prop in Hm as [H1 H2]. apply IH; [apply set_prop_all |]; assumption. }
  apply H. reflexivity.
Qed.

Lemma parse_number_tree s v r : parse_number s = Parsed v r -> is_tree v = true.
Proof.
  unfold parse_number. destruct s as [|c s]; [discriminate |].
  destruct (nat_of_ascii c =? 45)%nat;
    match goal with |- context [parse_digits ?x] => destruct (parse_digits x) end;
    cbn; try discriminate; intros [= <- <-]; reflexivity.
Qed.

Lemma parse_tree (f : nat) :
  (forall s v r, parse_value f s = Parsed v r -> is_tree v = true) /\
  (forall s l r, parse_elements f s = Parsed l r -> forallb is_tree l = true) /\
  (forall s ms r, parse_members f s = Parsed ms r ->
                  forallb (fun p => is_tree (snd p)) ms = true).
Proof.
  induction f as [|f (IHv & IHe & IHm)]; [repeat split; discriminate |].
  repeat split.
  - intros s v r. cbn [parse_value]. destruct (skip_ws s) as [|c s']; [discriminate |].
    destruct (nat_of_ascii c =? 91)%nat.
    { destruct (next_item 93 s'); try (intros [= <- <-]; reflexivity);
        destruct (parse_elements f s') eqn:E; cbn; try discriminate;
        intros [= <- <-]; cbn; eapply IHe; exact E. }
    destruct (nat_of_ascii c =? 123)%nat.
    { destruct (next_item 125 s'); try (intros [= <- <-]; reflexivity);
        destruct (parse_members f s') eqn:E; cbn; try discriminate;
        intros [= <- <-]; cbn; apply object_of_members_all; eapply IHm; exact E. }
    destruct (nat_of_ascii c =? 34)%nat.
    { destruct (parse_chars s'); cbn; try discriminate. intros [= <- <-]. reflexivity. }
    destruct (strip_prefix "true" (String c s')); [intros [= <- <-]; reflexivity |].
    destruct (strip_prefix "false" (String c s')); [intros [= <- <-]; reflexivity |].
    destruct (strip_prefix "null" (String c s')); [intros [= <- <-]; reflexivity |].
    apply parse_number_tree.
  - intros s l r. cbn [parse_elements].
    destruct (parse_value f s) as [v r1| |] eqn:Ev; cbn; try discriminate.
    apply IHv in Ev.
    destruct (next_item 93 r1); try discriminate.
    + destruct (parse_elements f rest) eqn:Ee; cbn; try discriminate.
      intros [= <- <-]. cbn. rewrite Ev. eapply IHe; exact Ee.
    + intros [= <- <-]. cbn. rewrite Ev. reflexivity.
  - intros s ms r. cbn [parse_members].
    destruct (skip_ws s) as [|q s1]; [discriminate |].
    destruct (nat_of_ascii q =? 34)%nat; [| discriminate].
    destruct (parse_chars s1) as [k r1| |]; cbn; try discriminate.
    destruct (skip_ws r1) as [|c r2]; [discriminate |].
    destruct (nat_of_ascii c =? 58)%nat; [| discriminate].
    destruct (parse_value f r2) as [v r3| |] eqn:Ev; cbn; try discriminate.
    apply IHv in Ev.
    destruct (next_item 125 r3); try discriminate.
    + destruct (parse_members f rest) eqn:Em; cbn; try discriminate.
      intros [= <- <-]. cbn. rewrite Ev. eapply IHm; exact Em.
    + intros [= <- <-]. cbn. rewrite Ev. reflexivity.
Qed.

(** [JSON.parse] returns JSON data. *)
Lemma JSON_parse_tree (s : string) (v : value) :
  JSON_parse s = Returned v -> is_tree v = true.
Proof.
  unfold JSON_parse.
  destruct (parse_value _ s) as [v' r| |] eqn:E; try discriminate.
  destruct (skip_ws r); [| discriminate]. intros [= <-].
  eapply (proj1 (parse_tree _)); exact E.
Qed.


(** ** What [JSON.stringify] accepts *)










(** ** The tree of a serialized object *)



Lemma mapM_cons_outcome {A B} (f : A -> outcome B) (x : A) (l : list A) :
  mapM f (x :: l) =
  match f x with
  | Returned y =>
      match mapM f l with
      | Returned ys => Returned (y :: ys)
      | Thrown e => Thrown e
      | Unmodelled => Unmodelled
      end
  | Thrown e => Thrown e
  | Unmodelled => Unmodelled
  end.
Proof.
  cbn. destruct (f x); cbn; try reflexivity; destruct (mapM f l); reflexivity.
Qed.






(** ** The payment payload *)











(** ** The order of property names *)







(** ** Insertion order and the serialized text *)


Lemma unique_keys_set (ms : list value) :
  unique_keys (VSet ms) <-> Forall unique_keys ms.
Proof. exact (unique_keys_arr ms). Qed.

Lemma unique_keys_map (es : list (value * value)) :
  unique_keys (VMap es) <->
  Forall (fun e => unique_keys (fst e) /\ unique_keys (snd e)) es.
Proof.
  cbn. induction es as [|x l IH]; cbn.
  - split; [constructor | trivial].
  - rewrite IH. split.
    + intros (H1 & H2 & H3). constructor; auto.
    + intros H; inversion H; subst. tauto.
Qed.



(** The names that survive the walk are names of the object. *)
Lemma kept_names_In {A} (f : value -> option A) (ps : list (string * value)) (k : string) :
  In k (List.map fst (omap (fun p => keep (fst p, f (snd p))) ps)) ->
  In k (List.map fst ps).
Proof.
  induction ps as [|[k' x] ps IH]; cbn; [trivial |].
  destruct (f x); cbn; intuition.
Qed.

Lemma kept_names_NoDup {A} (f : value -> option A) (ps : list (string * value)) :
  NoDup (List.map fst ps) ->
  NoDup (List.map fst (omap (fun p => keep (fst p, f (snd p))) ps)).
Proof.
  induction ps as [|[k x] ps IH]; cbn; [trivial |].
  intros Hnd. apply NoDup_cons in Hnd as [Hin Hnd].
  destruct (f x); cbn; [| auto].
  apply NoDup_cons. split; [| auto].
  intros Hk. apply Hin. apply list_elem_of_In. apply list_elem_of_In in Hk.
  eapply kept_names_In, Hk.
Qed.




(** ** Sorted properties *)

Lemma insert_key_Permutation {A} (p : string * A) (l : list (string * A)) :
  insert_key p l ≡ₚ p :: l.
Proof.
  induction l as [|q l IH]; cbn; [reflexivity |].
  destruct (key_lt (fst q) (fst p)); [| reflexivity].
  rewrite IH. apply perm_swap.
Qed.

Lemma sort_keys_Permutation {A} (l : list (string * A)) : sort_keys l ≡ₚ l.
Proof.
  induction l as [|p l IH]; cbn; [reflexivity |].
  rewrite insert_key_Permutation, IH. reflexivity.
Qed.

Lemma insert_key_map {A B} (f : A -> B) (p : string * A) (l : list (string * A)) :
  insert_key (fst p, f (snd p)) (List.map (fun q => (fst q, f (snd q))) l)
  = List.map (fun q => (fst q, f (snd q))) (insert_key p l).
Proof.
  induction l as [|q l IH]; cbn; [reflexivity |].
  destruct (key_lt (fst q) (fst p)); cbn; [rewrite IH |]; reflexivity.
Qed.

(** Sorting looks at the names only. *)
Lemma sort_keys_map {A B} (f : A -> B) (l : list (string * A)) :
  sort_keys (List.map (fun q => (fst q, f (snd q))) l)
  = List.map (fun q => (fst q, f (snd q))) (sort_keys l).
Proof.
  induction l as [|p l IH]; cbn; [reflexivity |].
  rewrite IH. apply (insert_key_map f p).
Qed.

Lemma assoc_Permutation (k : string) (l l' : list (string * value)) :
  l ≡ₚ l' -> NoDup (List.map fst l) -> assoc k l = assoc k l'.
Proof.
  induction 1 as [| [k0 x] l l' Hp IH | [k1 x] [k2 y] l | l l' l'' H1 IH1 H2 IH2];
    intros Hnd; cbn in *.
  - reflexivity.
  - apply NoDup_cons in Hnd as [_ Hnd]. rewrite IH by assumption. reflexivity.
  - apply NoDup_cons in Hnd as [Hin _].
    destruct (String.eqb_spec k k1), (String.eqb_spec k k2); try reflexivity.
    exfalso. apply Hin. subst. left.
  - rewrite IH1 by assumption. apply IH2.
    assert (Hm : List.map fst l ≡ₚ List.map fst l') by apply Permutation_map, H1.
    rewrite <- Hm. exact Hnd.
Qed.

Lemma assoc_map (f : value -> value) (k : string) (l : list (string * value)) :
  assoc k (List.map (fun q => (fst q, f (snd q))) l) = f <$> assoc k l.
Proof.
  induction l as [|[k0 x] l IH]; cbn; [reflexivity |].
  destruct (String.eqb k k0); [reflexivity | exact IH].
Qed.

Lemma assoc_sorted_map (f : value -> value) (k : string) (ps : list (string * value)) :
  NoDup (List.map fst ps) ->
  assoc k (sort_keys (List.map (fun q => (fst q, f (snd q))) ps)) = f <$> assoc k ps.
Proof.
  intros Hnd. rewrite sort_keys_map, assoc_map. f_equal.
  symmetry. apply assoc_Permutation; [| exact Hnd].
  symmetry. apply sort_keys_Permutation.
Qed.

(** A walk that keeps strings as they are, and makes none, keeps what the
    decoder takes for a wrapper. *)
Lemma wrapper_like_sorted_map (f : value -> value) (ps : list (string * value)) :
  (forall x t, str_is (f x) t = str_is x t) ->
  NoDup (List.map fst ps) ->
  wrapper_like (VObj (sort_keys (List.map (fun q => (fst q, f (snd q))) ps)))
  = wrapper_like (VObj ps).
Proof.
  intros Hf Hnd. unfold wrapper_like, has_prop, get_prop, is_tag.
  rewrite !(assoc_sorted_map f) by assumption.
  destruct (assoc "dataType" ps) as [d|], (assoc "value" ps) as [x|]; cbn;
    rewrite ?Hf; reflexivity.
Qed.

(** ** Plain data through the codec *)

Lemma forallb_Forall_true {A} (f : A -> bool) (l : list A) :
  forallb f l = true <-> Forall (fun x => f x = true) l.
Proof.
  induction l as [|x l IH]; cbn.
  - split; [constructor | reflexivity].
  - rewrite andb_true_iff, IH. split.
    + intros [H1 H2]. constructor; assumption.
    + intros H. inversion H; subst. split; assumption.
Qed.

Lemma Forall_both {A} {P Q : A -> Prop} {l : list A} :
  Forall P l -> Forall Q l -> Forall (fun x => P x /\ Q x) l.
Proof. intros HP HQ. apply Forall_and. split; assumption. Qed.

Lemma mapM_map_Returned {A B} (f : A -> outcome B) (g : A -> B) (l : list A) :
  Forall (fun x => f x = Returned (g x)) l -> mapM f l = Returned (List.map g l).
Proof.
  induction 1 as [|x l Hx Hl IH]; [reflexivity |].
  rewrite mapM_cons_outcome, Hx, IH. reflexivity.
Qed.

Lemma map_ext_Forall {A B} (f g : A -> B) (l : list A) :
  Forall (fun x => f x = g x) l -> List.map f l = List.map g l.
Proof. induction 1 as [|x l Hx Hl IH]; cbn; congruence. Qed.

Lemma omap_keep_all {A} (f : value -> option A) (g : value -> A)
    (ps : list (string * value)) :
  Forall (fun p => f (snd p) = Some (g (snd p))) ps ->
  omap (fun p => keep (fst p, f (snd p))) ps = List.map (fun p => (fst p, g (snd p))) ps.
Proof.
  induction 1 as [|p l Hp Hl IH]; [reflexivity |].
  cbn. rewrite Hp. cbn. rewrite <- IH. reflexivity.
Qed.

Lemma str_is_canon (x : value) (t : string) : str_is (canon x) t = str_is x t.
Proof. destruct x; reflexivity. Qed.

Lemma str_is_tree_of (x : value) (t : string) : str_is (tree_of x) t = str_is x t.
Proof. destruct x; reflexivity. Qed.

(** The tree of plain data is the data, names sorted. *)
Lemma to_json_plain (v : value) : plain v = true -> to_json v = Some (canon v).
Proof.
  induction v as [| | b | n | s | n | n | l IH | ps IH | n m s _ _ _ | es _ | ms _]
    using value_induction; cbn [plain]; try discriminate; try reflexivity; intros Hp.
  - apply forallb_Forall_true in Hp. cbn. do 2 f_equal. apply map_ext_Forall.
    eapply Forall_impl; [exact (Forall_both IH Hp) |]. cbn.
    intros x [Hx Hpx]. rewrite Hx by assumption. reflexivity.
  - apply andb_prop in Hp as [_ Hp]. apply forallb_Forall_true in Hp.
    cbn. do 3 f_equal. apply omap_keep_all.
    eapply Forall_impl; [exact (Forall_both IH Hp) |]. cbn.
    intros x [Hx Hpx]. auto.
Qed.

Lemma unique_keys_canon (v : value) : unique_keys v -> unique_keys (canon v).
Proof.
  induction v as [| | b | n | s | n | n | l IH | ps IH | n m s _ _ _ | es IH | ms IH]
    using value_induction; intros Hu; try exact Hu.
  - apply unique_keys_arr in Hu. apply unique_keys_arr. apply Forall_map.
    eapply Forall_impl; [exact (Forall_both IH Hu) |]. cbn. intros x [Hx Hux]. auto.
  - apply unique_keys_obj in Hu as [Hnd Hu]. apply unique_keys_obj. cbn [canon].
    rewrite sort_keys_map. split.
    + rewrite List.map_map. cbn. rewrite sort_keys_Permutation. exact Hnd.
    + apply Forall_map. cbn. rewrite sort_keys_Permutation.
      eapply Forall_impl; [exact (Forall_both IH Hu) |]. cbn. intros x [Hx Hux]. auto.
  - apply unique_keys_map in Hu. apply unique_keys_map. apply Forall_map.
    eapply Forall_impl; [exact (Forall_both IH Hu) |]. cbn. intros x [[H1 H2] [U1 U2]]. auto.
  - apply unique_keys_set in Hu. apply unique_keys_set. apply Forall_map.
    eapply Forall_impl; [exact (Forall_both IH Hu) |]. cbn. intros x [Hx Hux]. auto.
Qed.

Lemma plain_canon (v : value) : plain v = true -> unique_keys v -> plain (canon v) = true.
Proof.
  induction v as [| | b | n | s | n | n | l IH | ps IH | n m s _ _ _ | es _ | ms _]
    using value_induction; cbn [plain]; try discriminate; try reflexivity; intros Hp Hu.
  - apply unique_keys_arr in Hu. apply forallb_Forall_true in Hp.
    cbn. apply forallb_Forall_true. apply Forall_map.
    eapply Forall_impl; [exact (Forall_both IH (Forall_both Hp Hu)) |]. cbn.
    intros x (Hx & Hpx & Hux). auto.
  - apply unique_keys_obj in Hu as [Hnd Hu]. apply andb_prop in Hp as [Hw Hp].
    apply forallb_Forall_true in Hp. cbn [canon plain].
    rewrite (wrapper_like_sorted_map canon ps str_is_canon Hnd), Hw. cbn.
    apply forallb_Forall_true. rewrite sort_keys_map. apply Forall_map. cbn.
    rewrite sort_keys_Permutation.
    eapply Forall_impl; [exact (Forall_both IH (Forall_both Hp Hu)) |]. cbn.
    intros x (Hx & Hpx & Hux). auto.
Qed.

Lemma plain_is_tree (v : value) : plain v = true -> is_tree v = true.
Proof.
  induction v as [| | b | n | s | n | n | l IH | ps IH | n m s _ _ _ | es _ | ms _]
    using value_induction; cbn [plain is_tree]; try discriminate; try reflexivity; intros Hp.
  - apply forallb_Forall_true in Hp. apply forallb_Forall_true.
    eapply Forall_impl; [exact (Forall_both IH Hp) |]. cbn. intros x [Hx Hpx]. auto.
  - apply andb_prop in Hp as [_ Hp].
    apply forallb_Forall_true in Hp. apply forallb_Forall_true.
    eapply Forall_impl; [exact (Forall_both IH Hp) |]. cbn. intros x [Hx Hpx]. auto.
Qed.

Lemma same_value_zero_canon (a b : value) :
  same_value_zero (canon a) (canon b) = same_value_zero a b.
Proof. destruct a, b; reflexivity. Qed.

Lemma distinct_canon (seen ks : list value) :
  distinct (List.map canon seen) (List.map canon ks) = distinct seen ks.
Proof.
  revert seen. induction ks as [|k ks IH]; intros seen; cbn; [reflexivity |].
  rewrite <- IH, List.map_app. cbn. f_equal.
  induction seen as [|x seen IHs]; cbn; [reflexivity |].
  rewrite same_value_zero_canon, IHs. reflexivity.
Qed.

Lemma distinct_canon_nil (ks : list value) :
  distinct [] (List.map canon ks) = distinct [] ks.
Proof. exact (distinct_canon [] ks). Qed.

(** ** BigInt of a decimal text *)

Lemma digit_not_space (c : ascii) : is_digit c = true -> is_space c = false.
Proof.
  destruct c as [[|] [|] [|] [|] [|] [|] [|] [|]]; cbn; intros H;
    first [discriminate H | reflexivity].
Qed.

Lemma digit_not_sign (c : ascii) :
  is_digit c = true ->
  (nat_of_ascii c =? 45)%nat = false /\ (nat_of_ascii c =? 43)%nat = false.
Proof.
  destruct c as [[|] [|] [|] [|] [|] [|] [|] [|]]; cbn; intros H;
    first [discriminate H | split; reflexivity].
Qed.

Lemma trim_right_digits (s : string) : all_digits s = true -> trim_right s = s.
Proof.
  induction s as [|c s IH]; cbn; [reflexivity |].
  intros H. apply andb_prop in H as [Hc Hs].
  rewrite IH, (digit_not_space c Hc) by assumption. reflexivity.
Qed.

Lemma js_trim_digits (s : string) : all_digits s = true -> js_trim s = s.
Proof.
  intros H. unfold js_trim.
  destruct s as [|c s]; [reflexivity |].
  pose proof H as H'. cbn in H'. apply andb_prop in H' as [Hc _].
  cbn [trim_left]. rewrite (digit_not_space c Hc).
  apply trim_right_digits, H.
Qed.

Lemma all_digits_digits (p : positive) : all_digits (digits p) = true.
Proof. apply all_digits_uint. Qed.

Lemma unsigned_digits_digits (p : positive) : unsigned_digits (digits p) = Returned (Zpos p).
Proof.
  unfold unsigned_digits. rewrite all_digits_digits.
  destruct (digits_head p) as (c & s & E & _ & _).
  destruct (of_uint_digits p) as [H1 H2]. rewrite H1, H2, E. reflexivity.
Qed.

(** [BigInt] reads back the decimal text [toString] writes. *)
Lemma bigint_of_string_dec (n : Z) : bigint_of_string (dec n) = Returned n.
Proof.
  destruct n as [|p|p].
  - reflexivity.
  - rewrite dec_pos. unfold bigint_of_string.
    rewrite (js_trim_digits _ (all_digits_digits p)).
    pose proof (unsigned_digits_digits p) as Hu.
    pose proof (all_digits_digits p) as Ha.
    destruct (digits_head p) as (c & s & E & Hc & Hz). rewrite E in *.
    destruct (digit_not_sign c Hc) as [H45 H43].
    assert (Hr : radix_prefix (String c s) = false).
    { unfold radix_prefix. destruct s; [reflexivity |]. rewrite Hz. reflexivity. }
    rewrite Hr, H45, H43. cbn [String.eqb]. exact Hu.
  - rewrite dec_neg. unfold bigint_of_string.
    pose proof (unsigned_digits_digits p) as Hu.
    pose proof (all_digits_digits p) as Ha.
    assert (Ht : js_trim (String "-" (digits p)) = String "-" (digits p)).
    { unfold js_trim. cbn [trim_left]. change (is_space "-") with false. cbv iota.
      cbn [trim_right]. rewrite (trim_right_digits _ Ha).
      change (is_space "-") with false. reflexivity. }
    rewrite Ht.
    destruct (digits_head p) as (c & s & E & Hc & Hz). rewrite E in *.
    cbn [String.eqb]. change (radix_prefix (String "-" (String c s))) with false.
    cbv iota. change (nat_of_ascii "-" =? 45)%nat with true. cbv iota.
    rewrite Hu. reflexivity.
Qed.

(** ** Maps and sets rebuilt from their items *)

Lemma set_add_fresh (x : value) (ms : list value) :
  forallb (fun k' => negb (same_value_zero x k')) ms = true ->
  set_add x ms = (ms ++ [x])%list.
Proof.
  induction ms as [|y ms IH]; cbn; [reflexivity |].
  intros H. apply andb_prop in H as [Hy Hms].
  destruct (same_value_zero x y); [discriminate |].
  rewrite IH by assumption. reflexivity.
Qed.

Lemma fold_set_add (ks acc : list value) :
  distinct acc ks = true ->
  fold_left (fun a x => set_add x a) ks acc = (acc ++ ks)%list.
Proof.
  revert acc. induction ks as [|k ks IH]; intros acc; cbn.
  - rewrite app_nil_r. reflexivity.
  - intros H. apply andb_prop in H as [Hk Hks].
    rewrite set_add_fresh by assumption. rewrite IH by assumption.
    rewrite <- app_assoc. reflexivity.
Qed.

Lemma map_set_fresh (k v : value) (es : list (value * value)) :
  forallb (fun k' => negb (same_value_zero k k')) (List.map fst es) = true ->
  map_set k v es = (es ++ [(k, v)])%list.
Proof.
  induction es as [|[k' v'] es IH]; cbn; [reflexivity |].
  intros H. apply andb_prop in H as [Hy Hms].
  destruct (same_value_zero k k'); [discriminate |].
  rewrite IH by assumption. reflexivity.
Qed.

Lemma fold_map_set (es acc : list (value * value)) :
  distinct (List.map fst acc) (List.map fst es) = true ->
  fold_left (fun a e => map_set (fst e) (snd e) a) es acc = (acc ++ es)%list.
Proof.
  revert acc. induction es as [|[k v] es IH]; intros acc; cbn.
  - rewrite app_nil_r. reflexivity.
  - intros H. apply andb_prop in H as [Hk Hks].
    rewrite map_set_fresh by assumption. rewrite IH.
    + rewrite <- app_assoc. reflexivity.
    + rewrite List.map_app. exact Hks.
Qed.

Lemma mapM_map_map {A B C} (f : B -> outcome C) (h : A -> B) (g : A -> C) (l : list A) :
  Forall (fun x => f (h x) = Returned (g x)) l ->
  mapM f (List.map h l) = Returned (List.map g l).
Proof.
  induction 1 as [|x l Hx Hl IH]; [reflexivity |].
  cbn [List.map]. rewrite mapM_cons_outcome, Hx, IH. reflexivity.
Qed.

Lemma new_Set_items (ms : list value) :
  distinct [] ms = true -> new_Set (VArr ms) = Returned (VSet ms).
Proof.
  intros H. unfold new_Set. cbn. rewrite fold_set_add by assumption. reflexivity.
Qed.

Lemma new_Map_items (es : list (value * value)) :
  distinct [] (List.map fst es) = true ->
  new_Map (VArr (List.map (fun e => VArr [fst e; snd e]) es)) = Returned (VMap es).
Proof.
  intros H. unfold new_Map. cbn [iterate].
  assert (E : mapM entry_of (List.map (fun e => VArr [fst e; snd e]) es) = Returned es).
  { rewrite (mapM_map_map entry_of _ (fun e => e)).
    - rewrite List.map_id. reflexivity.
    - apply Forall_forall. intros [k v] _. reflexivity. }
  cbn. rewrite E. cbn. rewrite fold_map_set by assumption. reflexivity.
Qed.

(** ** Structural equality of the canonical form *)

Lemma Forall2_map_self {A} (R : A -> A -> Prop) (g : A -> A) (l : list A) :
  Forall (fun x => R x (g x)) l -> Forall2 R l (List.map g l).
Proof. induction 1; constructor; assumption. Qed.

Lemma Forall2_diag {A} (R : A -> A -> Prop) (l : list A) :
  Forall (fun x => R x x) l -> Forall2 R l l.
Proof. induction 1; constructor; assumption. Qed.

Lemma same_struct_refl (v : value) : same_struct v v.
Proof.
  induction v as [| | b | n | s | n | n | l IH | ps IH | n m s IHn IHm IHs | es IH | ms IH]
    using value_induction.
  1-7: constructor.
  - constructor. apply Forall2_diag, IH.
  - apply (ss_obj _ ps); [reflexivity |].
    apply (Forall2_diag (fun p q => fst p = fst q /\ same_struct (snd p) (snd q))).
    eapply Forall_impl; [exact IH |]. cbn. auto.
  - constructor; assumption.
  - constructor.
    apply (Forall2_diag
             (fun e e' => same_struct (fst e) (fst e') /\ same_struct (snd e) (snd e'))).
    exact IH.
  - constructor. apply Forall2_diag, IH.
Qed.

Lemma same_struct_canon (v : value) : same_struct v (canon v).
Proof.
  induction v as [| | b | n | s | n | n | l IH | ps IH | n m s IHn IHm IHs | es IH | ms IH]
    using value_induction; cbn [canon].
  1-7: constructor.
  - constructor. apply Forall2_map_self, IH.
  - rewrite sort_keys_map. apply (ss_obj _ (sort_keys ps)).
    + symmetry. apply sort_keys_Permutation.
    + apply (Forall2_map_self
               (fun p q => fst p = fst q /\ same_struct (snd p) (snd q))
               (fun p => (fst p, canon (snd p)))).
      rewrite sort_keys_Permutation.
      eapply Forall_impl; [exact IH |]. cbn. auto.
  - apply same_struct_refl.
  - constructor.
    apply (Forall2_map_self
             (fun e e' => same_struct (fst e) (fst e') /\ same_struct (snd e) (snd e'))
             (fun e => (canon (fst e), canon (snd e)))).
    exact IH.
  - constructor. apply Forall2_map_self, IH.
Qed.

(** ** The round trip through [serialize] and [deserialize] *)

Section RoundTrip.

Variable engineStack : string -> value.

Lemma process_tagged_None (v : value) :
  wrapper_like v = false -> process_tagged engineStack v = None.
Proof.
  unfold wrapper_like, process_tagged, is_tag. intros H.
  destruct (is_object v); [| reflexivity].
  destruct (has_prop "dataType" v); [| reflexivity].
  destruct (has_prop "value" v); [| reflexivity].
  cbn [andb] in *.
  destruct (str_is (get_prop "dataType" v) "Error"); [discriminate |].
  destruct (str_is (get_prop "dataType" v) "Map"); [discriminate |].
  destruct (str_is (get_prop "dataType" v) "Set"); [discriminate |].
  destruct (str_is (get_prop "dataType" v) "BigInt"); [discriminate |].
  destruct (str_is (get_prop "dataType" v) "bigint"); [discriminate |].
  reflexivity.
Qed.

Lemma processValue_arr (l : list value) :
  processValue engineStack (VArr l)
  = l' ← mapM (processValue engineStack) l; mret (VArr l').
Proof. reflexivity. Qed.

Lemma processValue_obj (ps : list (string * value)) :
  wrapper_like (VObj ps) = false ->
  processValue engineStack (VObj ps)
  = ps' ← mapM (fun p => x ← processValue engineStack (snd p); mret (fst p, x)) ps;
    mret (VObj ps').
Proof.
  intros H. apply process_tagged_None in H.
  change (processValue engineStack (VObj ps))
    with (match process_tagged engineStack (VObj ps) with
          | Some r => r
          | None =>
              ps' ← mapM (fun p => x ← processValue engineStack (snd p); mret (fst p, x)) ps;
              mret (VObj ps')
          end).
  rewrite H. reflexivity.
Qed.

(** [processValue] leaves plain data as it is. *)
Lemma processValue_plain (t : value) :
  plain t = true -> processValue engineStack t = Returned t.
Proof.
  induction t as [| | b | n | s | n | n | l IH | ps IH | n m s _ _ _ | es _ | ms _]
    using value_induction; cbn [plain]; try discriminate; try reflexivity; intros Hp.
  - apply forallb_Forall_true in Hp. rewrite processValue_arr.
    rewrite (mapM_map_Returned _ (fun x => x)).
    + rewrite List.map_id. reflexivity.
    + eapply Forall_impl; [exact (Forall_both IH Hp) |]. cbn. intros x [Hx Hpx]. auto.
  - apply andb_prop in Hp as [Hw Hp]. apply negb_true_iff in Hw.
    apply forallb_Forall_true in Hp. rewrite processValue_obj by assumption.
    rewrite (mapM_map_Returned _ (fun p => p)).
    + rewrite List.map_id. reflexivity.
    + eapply Forall_impl; [exact (Forall_both IH Hp) |]. cbn.
      intros [k x] [Hx Hpx]. cbn in *. rewrite Hx by assumption. reflexivity.
Qed.

Lemma processValue_bigint (n : Z) :
  processValue engineStack (tree_of (VBigInt n)) = Returned (VBigInt n).
Proof.
  change (processValue engineStack (tree_of (VBigInt n)))
    with (x ← bigint_of_string (dec n); Returned (VBigInt x)).
  rewrite bigint_of_string_dec. reflexivity.
Qed.

Lemma processValue_error (n m s : string) :
  n <> "" -> m <> "" -> s <> "" ->
  processValue engineStack (tree_of (VError (VStr n) (VStr m) (VStr s)))
  = Returned (VError (VStr n) (VStr m) (VStr s)).
Proof.
  destruct n as [|a n]; [congruence |]. destruct m as [|b m]; [congruence |].
  destruct s as [|c s]; [congruence |]. intros _ _ _. reflexivity.
Qed.

Lemma tree_of_map (es : list (value * value)) :
  Forall (fun e => plain (fst e) = true /\ plain (snd e) = true) es ->
  tree_of (VMap es)
  = tagged "Map" (VArr (List.map (fun e => VArr [fst e; snd e])
                          (List.map (fun e => (canon (fst e), canon (snd e))) es))).
Proof.
  intros H. unfold tagged.
  change (tree_of (VMap es))
    with (VObj [("dataType", VStr "Map");
                ("value", VArr (List.map (fun e => VArr [tree_of (fst e); tree_of (snd e)]) es))]).
  do 5 f_equal. rewrite List.map_map. apply map_ext_Forall.
  eapply Forall_impl; [exact H |]. cbn. intros e [H1 H2].
  unfold tree_of. rewrite (to_json_plain _ H1), (to_json_plain _ H2). reflexivity.
Qed.

Lemma tree_of_set (ms : list value) :
  Forall (fun x => plain x = true) ms ->
  tree_of (VSet ms) = tagged "Set" (VArr (List.map canon ms)).
Proof.
  intros H. unfold tagged.
  change (tree_of (VSet ms))
    with (VObj [("dataType", VStr "Set"); ("value", VArr (List.map tree_of ms))]).
  do 5 f_equal. apply map_ext_Forall.
  eapply Forall_impl; [exact H |]. cbn. intros e H1.
  unfold tree_of. rewrite (to_json_plain _ H1). reflexivity.
Qed.

Lemma to_json_tree_of (v : value) : v <> VUndefined -> to_json v = Some (tree_of v).
Proof. destruct v; try reflexivity. congruence. Qed.

Lemma supported_defined (v : value) : supported v = true -> v <> VUndefined.
Proof. intros H ->. discriminate. Qed.

Lemma tree_of_arr (l : list value) : tree_of (VArr l) = VArr (List.map tree_of l).
Proof. reflexivity. Qed.

Lemma tree_of_obj (ps : list (string * value)) :
  Forall (fun p => supported (snd p) = true) ps ->
  tree_of (VObj ps) = VObj (sort_keys (List.map (fun p => (fst p, tree_of (snd p))) ps)).
Proof.
  intros H.
  change (tree_of (VObj ps))
    with (VObj (sort_keys (omap (fun p => keep (fst p, to_json (snd p))) ps))).
  do 2 f_equal. apply omap_keep_all.
  eapply Forall_impl; [exact H |]. cbn. intros p Hp.
  apply to_json_tree_of, supported_defined, Hp.
Qed.

(** What the codec does to a supported value: the tree [serialize] prints
    is JSON data with unique names, and [processValue] rebuilds the value
    from it, names sorted. *)
Lemma supported_tree (v : value) :
  supported v = true -> unique_keys v ->
  is_tree (tree_of v) = true /\ unique_keys (tree_of v) /\
  processValue engineStack (tree_of v) = Returned (canon v).
Proof.
  induction v as [| | b | n | s | n | n | l IH | ps IH | n m s _ _ _ | es _ | ms _]
    using value_induction; cbn [supported]; try discriminate; intros Hs Hu.
  - repeat split.
  - repeat split.
  - repeat split.
  - repeat split.
  - split; [reflexivity |]. split; [| apply processValue_bigint].
    apply unique_keys_obj. split; [| repeat constructor].
    apply (bool_decide_unpack _). vm_compute. exact I.
  - apply forallb_Forall_true in Hs. apply unique_keys_arr in Hu.
    pose proof (Forall_impl _ _ _ (Forall_both IH (Forall_both Hs Hu))
                  (fun x H => proj1 H (proj1 (proj2 H)) (proj2 (proj2 H)))) as Hall.
    rewrite tree_of_arr. split; [| split].
    + cbn [is_tree]. apply forallb_Forall_true, Forall_map.
      eapply Forall_impl; [exact Hall |]. cbn. tauto.
    + apply unique_keys_arr, Forall_map.
      eapply Forall_impl; [exact Hall |]. cbn. tauto.
    + rewrite processValue_arr. rewrite (mapM_map_map _ tree_of canon); [reflexivity |].
      eapply Forall_impl; [exact Hall |]. cbn. tauto.
  - apply andb_prop in Hs as [Hw Hs]. apply negb_true_iff in Hw.
    apply forallb_Forall_true in Hs. apply unique_keys_obj in Hu as [Hnd Hu].
    pose proof (Forall_impl _ _ _ (Forall_both IH (Forall_both Hs Hu))
                  (fun x H => proj1 H (proj1 (proj2 H)) (proj2 (proj2 H)))) as Hall.
    rewrite tree_of_obj by assumption.
    assert (Hw' : wrapper_like
                    (VObj (sort_keys (List.map (fun p => (fst p, tree_of (snd p))) ps)))
                  = false).
    { rewrite (wrapper_like_sorted_map tree_of ps str_is_tree_of Hnd). exact Hw. }
    rewrite processValue_obj by assumption. rewrite sort_keys_map.
    assert (Hsorted : Forall
              (fun p => is_tree (tree_of (snd p)) = true /\ unique_keys (tree_of (snd p)) /\
                        processValue engineStack (tree_of (snd p)) = Returned (canon (snd p)))
              (sort_keys ps)).
    { rewrite sort_keys_Permutation. exact Hall. }
    split; [| split].
    + cbn [is_tree]. apply forallb_Forall_true, Forall_map.
      eapply Forall_impl; [exact Hsorted |]. cbn. tauto.
    + apply unique_keys_obj. split.
      * rewrite List.map_map. cbn. rewrite sort_keys_Permutation. exact Hnd.
      * apply Forall_map. eapply Forall_impl; [exact Hsorted |]. cbn. tauto.
    + rewrite (mapM_map_map _ _ (fun p => (fst p, canon (snd p)))).
      * cbn [canon]. rewrite sort_keys_map. reflexivity.
      * eapply Forall_impl; [exact Hsorted |]. cbn. intros p (_ & _ & Hp).
        rewrite Hp. reflexivity.
  - destruct n as [| | | | n | | | | | | |]; try discriminate.
    destruct m as [| | | | m | | | | | | |]; try (cbn in Hs; rewrite ?andb_false_r in Hs; discriminate).
    destruct s as [| | | | s | | | | | | |]; try (cbn in Hs; rewrite ?andb_false_r in Hs; discriminate).
    apply andb_prop in Hs as [Hs Hs3]. apply andb_prop in Hs as [Hs1 Hs2].
    cbn in Hs1, Hs2, Hs3.
    destruct n as [|a n]; [discriminate |]. destruct m as [|b m]; [discriminate |].
    destruct s as [|c s]; [discriminate |].
    split; [reflexivity |]. split; [| apply processValue_error; discriminate].
    change (tree_of (VError (VStr (String a n)) (VStr (String b m)) (VStr (String c s))))
      with (tagged "Error" (VObj [("message", VStr (String b m));
                                  ("name", VStr (String a n));
                                  ("stack", VStr (String c s))])).
    unfold tagged. cbn [unique_keys fold_right List.map fst snd].
    repeat split; apply (bool_decide_unpack _); vm_compute; exact I.
  - apply andb_prop in Hs as [Hp Hd]. apply forallb_Forall_true in Hp.
    assert (Hp' : Forall (fun e => plain (fst e) = true /\ plain (snd e) = true) es).
    { eapply Forall_impl; [exact Hp |]. cbn. intros e H. apply andb_prop in H. exact H. }
    apply unique_keys_map in Hu.
    rewrite (tree_of_map es Hp'). split; [| split].
    + cbn. rewrite andb_true_r. apply forallb_Forall_true. rewrite List.map_map.
      apply Forall_map. eapply Forall_impl; [exact (Forall_both Hp' Hu) |]. cbn.
      intros e [[P1 P2] [U1 U2]].
      rewrite (plain_is_tree _ (plain_canon _ P1 U1)),
        (plain_is_tree _ (plain_canon _ P2 U2)). reflexivity.
    + apply unique_keys_obj. split; [apply (bool_decide_unpack _); vm_compute; exact I |].
      repeat constructor. apply unique_keys_arr. rewrite List.map_map. apply Forall_map.
      eapply Forall_impl; [exact Hu |]. cbn. intros e [U1 U2].
      split; [apply unique_keys_canon, U1 |]. split; [apply unique_keys_canon, U2 | exact I].
    + change (processValue engineStack (tagged "Map" ?x)) with (new_Map x).
      rewrite new_Map_items; [reflexivity |].
      assert (E : List.map fst (List.map (fun e => (canon (fst e), canon (snd e))) es)
                  = List.map canon (List.map fst es)).
      { rewrite !List.map_map. reflexivity. }
      rewrite E, distinct_canon_nil. exact Hd.
  - apply andb_prop in Hs as [Hp Hd]. apply forallb_Forall_true in Hp.
    apply unique_keys_set in Hu.
    rewrite (tree_of_set ms Hp). split; [| split].
    + cbn. rewrite andb_true_r. apply forallb_Forall_true.
      apply Forall_map. eapply Forall_impl; [exact (Forall_both Hp Hu) |]. cbn.
      intros e [P1 U1]. apply plain_is_tree, plain_canon; assumption.
    + apply unique_keys_obj. split; [apply (bool_decide_unpack _); vm_compute; exact I |].
      repeat constructor. apply unique_keys_arr. apply Forall_map.
      eapply Forall_impl; [exact Hu |]. cbn. intros e U1. apply unique_keys_canon, U1.
    + change (processValue engineStack (tagged "Set" ?x)) with (new_Set x).
      rewrite new_Set_items; [reflexivity |].
      rewrite distinct_canon_nil. exact Hd.
Qed.


End RoundTrip.


(** Outside these values, by the defaults and the tags of the codec: an
    error with an empty message comes back with the message
    ["Unknown error"], and JSON data that has the shape of a bigint
    wrapper comes back as a bigint. *)
Lemma round_trip_not_identity :
  (exists s v', serialize blank_error = Some s /\
                deserialize no_stack s = Returned (Ok v') /\
                ~ same_struct blank_error v') /\
  (exists s v', serialize lookalike = Some s /\
                deserialize no_stack s = Returned (Ok v') /\
                ~ same_struct lookalike v').
Proof.
  split.
  - exists (default "" (serialize blank_error)),
           (VError (VStr "Error") (VStr "Unknown error") (VStr "at main")).
    split; [reflexivity |]. split; [vm_compute; reflexivity |].
    intros H. inversion H as [| | | | | | | | | n m s n' m' s' Hn Hm Hst | |]; subst.
    inversion Hm.
  - exists (default "" (serialize lookalike)), (VBigInt 5).
    split; [reflexivity |]. split; [vm_compute; reflexivity |].
    intros H. inversion H.
Qed.

(** ** The tree of any value *)

Lemma forallb_Permutation {A} (f : A -> bool) (l l' : list A) :
  l ≡ₚ l' -> forallb f l = forallb f l'.
Proof.
  induction 1 as [| x l l' Hp IH | x y l | l l' l'' H1 IH1 H2 IH2]; cbn.
  - reflexivity.
  - rewrite IH. reflexivity.
  - destruct (f x), (f y); reflexivity.
  - congruence.
Qed.

Lemma forallb_omap_keep {A} (f : A -> bool) (l : list (string * option A)) :
  forallb (fun p => match snd p with Some x => f x | None => true end) l = true ->
  forallb (fun p => f (snd p)) (omap keep l) = true.
Proof.
  induction l as [|[k [x|]] l IH]; cbn; [reflexivity | |].
  - intros H. apply andb_prop in H as [H1 H2]. rewrite H1. auto.
  - exact IH.
Qed.

Lemma NoDup_omap_keep {A} (l : list (string * option A)) :
  NoDup (List.map fst l) -> NoDup (List.map fst (omap keep l)).
Proof.
  assert (Hin : forall k (l : list (string * option A)),
             k ∈ List.map fst (omap keep l) -> k ∈ List.map fst l).
  { intros k l0. induction l0 as [|[k0 [x|]] l0 IH]; cbn; [trivial | |].
    - rewrite !elem_of_cons. intuition.
    - rewrite elem_of_cons. intuition. }
  induction l as [|[k [x|]] l IH]; cbn; [trivial | |]; intros Hnd;
    apply NoDup_cons in Hnd as [Hk Hnd].
  - apply NoDup_cons. split; [| auto]. intros H. apply Hk, Hin, H.
  - auto.
Qed.

(** Every value has a JSON tree: [serialize] prints JSON data. *)
Lemma is_tree_tree_of (v : value) : is_tree (tree_of v) = true.
Proof.
  induction v as [| | b | n | s | n | n | l IH | ps IH | n m s IHn IHm IHs | es IH | ms IH]
    using value_induction; try reflexivity.
  - rewrite tree_of_arr. cbn [is_tree]. apply forallb_Forall_true, Forall_map, IH.
  - change (tree_of (VObj ps))
      with (VObj (sort_keys (omap (fun p => keep (fst p, to_json (snd p))) ps))).
    cbn [is_tree]. rewrite (forallb_Permutation _ _ _ (sort_keys_Permutation _)).
    induction IH as [|[k x] l Hx Hl IHl]; cbn; [reflexivity |].
    cbn in Hx. unfold tree_of in Hx.
    destruct (to_json x); cbn in Hx |- *; [rewrite Hx; exact IHl | exact IHl].
  - change (tree_of (VError n m s))
      with (VObj [("dataType", VStr "Error");
                  ("value", VObj (sort_keys (omap keep
                     [("name", if truthy n then to_json n else Some (VStr "Error"));
                      ("message", if truthy m then to_json m else Some (VStr "Unknown error"));
                      ("stack", if truthy s then to_json s else None)])))]).
    cbn [is_tree forallb snd]. rewrite andb_true_r.
    rewrite (forallb_Permutation _ _ _ (sort_keys_Permutation _)).
    apply forallb_omap_keep. unfold tree_of in IHn, IHm, IHs. cbn [forallb snd].
    destruct (truthy n), (truthy m), (truthy s),
      (to_json n), (to_json m), (to_json s); cbn in *;
      rewrite ?IHn, ?IHm, ?IHs; reflexivity.
  - change (tree_of (VMap es))
      with (VObj [("dataType", VStr "Map");
                  ("value", VArr (List.map
                     (fun e => VArr [tree_of (fst e); tree_of (snd e)]) es))]).
    cbn [is_tree forallb snd]. rewrite andb_true_r.
    apply forallb_Forall_true, Forall_map.
    eapply Forall_impl; [exact IH |]. cbn. intros e [H1 H2]. rewrite H1, H2. reflexivity.
  - change (tree_of (VSet ms))
      with (VObj [("dataType", VStr "Set"); ("value", VArr (List.map tree_of ms))]).
    cbn [is_tree forallb snd]. rewrite andb_true_r.
    apply forallb_Forall_true, Forall_map, IH.
Qed.

Lemma unique_keys_pair (k k' : string) (a b : value) :
  k <> k' -> unique_keys a -> unique_keys b -> unique_keys (VObj [(k, a); (k', b)]).
Proof.
  intros Hne Ha Hb. apply unique_keys_obj. split; [| repeat constructor; assumption].
  cbn. apply NoDup_cons. split; [| apply NoDup_singleton].
  rewrite list_elem_of_singleton. exact Hne.
Qed.

(** The tree keeps property names unique. *)
Lemma unique_keys_tree_of (v : value) : unique_keys v -> unique_keys (tree_of v).
Proof.
  induction v as [| | b | n | s | n | n | l IH | ps IH | n m s IHn IHm IHs | es IH | ms IH]
    using value_induction; intros Hu; try exact I.
  - apply unique_keys_pair; [discriminate | exact I | exact I].
  - apply unique_keys_pair; [discriminate | exact I | exact I].
  - apply unique_keys_arr in Hu. rewrite tree_of_arr. apply unique_keys_arr, Forall_map.
    eapply Forall_impl; [exact (Forall_both IH Hu) |]. cbn. intros x [H1 H2]. auto.
  - apply unique_keys_obj in Hu as [Hnd Hu].
    change (tree_of (VObj ps))
      with (VObj (sort_keys (omap (fun p => keep (fst p, to_json (snd p))) ps))).
    apply unique_keys_obj. split.
    + rewrite sort_keys_Permutation. apply kept_names_NoDup, Hnd.
    + rewrite sort_keys_Permutation.
      pose proof (Forall_both IH Hu) as Hall. clear IH Hu Hnd.
      induction Hall as [|[k x] l [Hx Hux] Hl IHl]; cbn; [constructor |].
      cbn in Hx. unfold tree_of in Hx.
      destruct (to_json x); cbn; [constructor; auto | exact IHl].
  - cbn in Hu. destruct Hu as (Hn & Hm & Hs).
    change (tree_of (VError n m s))
      with (VObj [("dataType", VStr "Error");
                  ("value", VObj (sort_keys (omap keep
                     [("name", if truthy n then to_json n else Some (VStr "Error"));
                      ("message", if truthy m then to_json m else Some (VStr "Unknown error"));
                      ("stack", if truthy s then to_json s else None)])))]).
    apply unique_keys_pair; [discriminate | exact I |].
    apply unique_keys_obj. split.
    + rewrite sort_keys_Permutation. apply NoDup_omap_keep.
      apply (bool_decide_unpack _). vm_compute. exact I.
    + rewrite sort_keys_Permutation.
      specialize (IHn Hn). specialize (IHm Hm). specialize (IHs Hs).
      unfold tree_of in IHn, IHm, IHs.
      destruct (truthy n), (truthy m), (truthy s),
        (to_json n), (to_json m), (to_json s); cbn in *;
        repeat constructor; assumption.
  - apply unique_keys_map in Hu.
    change (tree_of (VMap es))
      with (VObj [("dataType", VStr "Map");
                  ("value", VArr (List.map
                     (fun e => VArr [tree_of (fst e); tree_of (snd e)]) es))]).
    apply unique_keys_pair; [discriminate | exact I |].
    apply unique_keys_arr, Forall_map.
    eapply Forall_impl; [exact (Forall_both IH Hu) |]. cbn.
    intros e [[H1 H2] [U1 U2]]. auto.
  - apply unique_keys_set in Hu.
    change (tree_of (VSet ms))
      with (VObj [("dataType", VStr "Set"); ("value", VArr (List.map tree_of ms))]).
    apply unique_keys_pair; [discriminate | exact I |].
    apply unique_keys_arr, Forall_map.
    eapply Forall_impl; [exact (Forall_both IH Hu) |]. cbn. intros x [H1 H2]. auto.
Qed.

(** ** What [serialize] prints, and what the decoders make of it *)

Lemma undefined_or_not (v : value) : v = VUndefined \/ v <> VUndefined.
Proof. destruct v; first [left; reflexivity | right; discriminate]. Qed.

Lemma serialize_tree_of (v : value) :
  v <> VUndefined -> serialize v = Some (print (tree_of v)).
Proof.
  intros Hv. unfold serialize, stringify. rewrite (to_json_tree_of v Hv). reflexivity.
Qed.

(** X1: whenever [serialize] returns a text, the text is well-formed
    JSON: [JSON.parse] reads it back as the tree that was printed, which
    is JSON data. *)
Theorem serialize_reads_back (v : value) (s : string) :
  serialize v = Some s ->
  JSON_parse s = Returned (norm (tree_of v)) /\ is_tree (norm (tree_of v)) = true.
Proof.
  intros Hs. destruct (undefined_or_not v) as [->|Hv]; [discriminate Hs |].
  rewrite (serialize_tree_of v Hv) in Hs. injection Hs as <-.
  pose proof (JSON_parse_print _ (is_tree_tree_of v)) as Hp.
  split; [exact Hp | exact (JSON_parse_tree _ _ Hp)].
Qed.

Section Decoders.

Variable engineStack : string -> value.

(** X2: [toGenericObject] raises synchronously exactly when [serialize]
    returns no text, as it does for undefined: [JSON.parse] is then handed
    undefined. Whenever [serialize] returns a text, the text parses and
    nothing is raised to the caller. *)
Theorem toGenericObject_raises_iff (v : value) :
  (exists e, toGenericObject engineStack v = Thrown e) <-> serialize v = None.
Proof.
  destruct (undefined_or_not v) as [->|Hv].
  - split; [reflexivity |]. intros _. eexists. vm_compute. reflexivity.
  - rewrite (serialize_tree_of v Hv). split; [| discriminate].
    intros [e He]. exfalso. unfold toGenericObject in He.
    rewrite (serialize_tree_of v Hv) in He. unfold deserialize in He.
    rewrite (JSON_parse_print _ (is_tree_tree_of v)) in He.
    destruct (processValue engineStack (norm (tree_of v))); discriminate.
Qed.

(** X3: on the values the codec carries, the text determines the value up
    to the order of properties: two values with the same serialization
    have the same canonical form. *)
Theorem serialize_injective (v w : value) :
  supported v = true -> unique_keys v ->
  supported w = true -> unique_keys w ->
  serialize v = serialize w -> canon v = canon w.
Proof.
  intros Hsv Huv Hsw Huw E.
  rewrite (serialize_tree_of v (supported_defined v Hsv)),
    (serialize_tree_of w (supported_defined w Hsw)) in E.
  injection E as E.
  pose proof (JSON_parse_print _ (is_tree_tree_of v)) as Pv.
  pose proof (JSON_parse_print _ (is_tree_tree_of w)) as Pw.
  rewrite E, Pw in Pv. injection Pv as Pv.
  rewrite (norm_unique _ (unique_keys_tree_of v Huv)),
    (norm_unique _ (unique_keys_tree_of w Huw)) in Pv.
  destruct (supported_tree engineStack v Hsv Huv) as (_ & _ & Hv).
  destruct (supported_tree engineStack w Hsw Huw) as (_ & _ & Hw).
  rewrite <- Pv, Hw in Hv. injection Hv as Hv. symmetry. exact Hv.
Qed.

(** X5: [deserialize] hands the payload of a ["Map"] wrapper to [new Map]
    as [JSON.parse] built it: the keys and values of the map come back as
    their JSON trees, a wrapper among them undecoded. *)
Theorem deserialize_map_payload (es : list (value * value)) :
  unique_keys (VMap es) ->
  distinct [] (List.map (fun e => tree_of (fst e)) es) = true ->
  exists s,
    serialize (VMap es) = Some s /\
    deserialize engineStack s
    = Returned (Ok (VMap (List.map (fun e => (tree_of (fst e), tree_of (snd e))) es))).
Proof.
  intros Hu Hd. exists (print (tree_of (VMap es))). split; [reflexivity |].
  unfold deserialize.
  rewrite (JSON_parse_print _ (is_tree_tree_of (VMap es))),
    (norm_unique _ (unique_keys_tree_of _ Hu)).
  change (processValue engineStack (tree_of (VMap es)))
    with (new_Map (VArr (List.map (fun e => VArr [tree_of (fst e); tree_of (snd e)]) es))).
  assert (E : List.map (fun e => VArr [tree_of (fst e); tree_of (snd e)]) es
              = List.map (fun e => VArr [fst e; snd e])
                  (List.map (fun e => (tree_of (fst e), tree_of (snd e))) es)).
  { rewrite List.map_map. reflexivity. }
  rewrite E, new_Map_items; [reflexivity |].
  rewrite List.map_map. exact Hd.
Qed.

End Decoders.

Lemma serialize_injective_witness : canon inserted_ab = canon inserted_ba.
Proof.
  apply (serialize_injective no_stack inserted_ab inserted_ba).
  - reflexivity.
  - cbn. repeat split; apply (bool_decide_unpack _); vm_compute; exact I.
  - reflexivity.
  - cbn. repeat split; apply (bool_decide_unpack _); vm_compute; exact I.
  - reflexivity.
Defined.

Lemma deserialize_map_payload_witness :
  exists s,
    serialize bigint_map = Some s /\
    deserialize no_stack s
    = Returned (Ok (VMap [(VStr "a", tagged "bigint" (VStr "1"));
                          (VStr "b", tagged "bigint" (VStr "2"))])).
Proof.
  apply (deserialize_map_payload no_stack [(VStr "a", VBigInt 1); (VStr "b", VBigInt 2)]).
  - cbn. tauto.
  - reflexivity.
Defined.

(** ** The round trip through [serialize] and [deserializeUnsafe] *)

Lemma tree_of_obj_defined (ps : list (string * value)) :
  Forall (fun p => snd p <> VUndefined) ps ->
  tree_of (VObj ps) = VObj (sort_keys (List.map (fun p => (fst p, tree_of (snd p))) ps)).
Proof.
  intros H.
  change (tree_of (VObj ps))
    with (VObj (sort_keys (omap (fun p => keep (fst p, to_json (snd p))) ps))).
  do 2 f_equal. apply omap_keep_all.
  eapply Forall_impl; [exact H |]. cbn. intros p Hp. apply to_json_tree_of, Hp.
Qed.

Lemma nested_defined (v : value) : nested v = true -> v <> VUndefined.
Proof. intros H ->. discriminate. Qed.

Lemma tag_like_sorted_map (f : value -> value) (ps : list (string * value)) :
  (forall x t, str_is (f x) t = str_is x t) ->
  NoDup (List.map fst ps) ->
  tag_like (VObj (sort_keys (List.map (fun q => (fst q, f (snd q))) ps)))
  = tag_like (VObj ps).
Proof.
  intros Hf Hnd. unfold tag_like, get_prop, is_tag.
  rewrite (assoc_sorted_map f) by assumption.
  destruct (assoc "dataType" ps) as [d|]; cbn; rewrite ?Hf; reflexivity.
Qed.

Section Reviver.

Variable engineStack : string -> value.

Lemma reviver_untagged (v : value) :
  tag_like v = false -> reviver engineStack v = Returned v.
Proof.
  unfold tag_like, is_tag, reviver. intros H.
  destruct (is_object v); [| reflexivity].
  destruct (str_is (get_prop "dataType" v) "Error"); [discriminate |].
  destruct (str_is (get_prop "dataType" v) "Map"); [discriminate |].
  destruct (str_is (get_prop "dataType" v) "Set"); [discriminate |].
  destruct (str_is (get_prop "dataType" v) "BigInt"); [discriminate |].
  destruct (str_is (get_prop "dataType" v) "bigint"); [discriminate |].
  reflexivity.
Qed.

Lemma revive_arr (ts vs : list value) :
  mapM (revive engineStack) ts = Returned vs ->
  revive engineStack (VArr ts) = Returned (VArr vs).
Proof.
  intros H. change (revive engineStack (VArr ts))
    with (l' ← mapM (revive engineStack) ts; reviver engineStack (VArr l')).
  rewrite H. reflexivity.
Qed.

(** The walk over a wrapper: the payload is revived, then the reviver
    sees the wrapper. *)
Lemma revive_tagged (tag : string) (payload payload' : value) :
  revive engineStack payload = Returned payload' ->
  revive engineStack (tagged tag payload) = reviver engineStack (tagged tag payload').
Proof.
  intros H. unfold tagged.
  change (revive engineStack (VObj [("dataType", VStr tag); ("value", payload)]))
    with (ps' ← mapM (fun p => x ← revive engineStack (snd p); mret (fst p, x))
                     [("dataType", VStr tag); ("value", payload)];
          reviver engineStack (VObj ps')).
  rewrite !mapM_cons_outcome. cbn [snd fst].
  change (revive engineStack (VStr tag)) with (Returned (VStr tag)).
  rewrite H. reflexivity.
Qed.

Lemma revive_bigint (n : Z) :
  revive engineStack (tree_of (VBigInt n)) = Returned (VBigInt n).
Proof.
  change (tree_of (VBigInt n)) with (tagged "bigint" (VStr (dec n))).
  rewrite (revive_tagged _ _ (VStr (dec n))) by reflexivity.
  change (reviver engineStack (tagged "bigint" (VStr (dec n))))
    with (x ← bigint_of_string (dec n); Returned (VBigInt x)).
  rewrite bigint_of_string_dec. reflexivity.
Qed.

(** [deserializeUnsafe]'s walk rebuilds a nested value from its tree. *)
Lemma nested_tree (v : value) :
  nested v = true -> unique_keys v ->
  revive engineStack (tree_of v) = Returned (canon v).
Proof.
  induction v as [| | b | n | s | n | n | l IH | ps IH | n m s _ _ _ | es IH | ms IH]
    using value_induction; cbn [nested]; try discriminate; intros Hs Hu;
    try reflexivity.
  - apply revive_bigint.
  - apply forallb_Forall_true in Hs. apply unique_keys_arr in Hu.
    rewrite tree_of_arr. apply revive_arr.
    apply (mapM_map_map _ tree_of canon).
    eapply Forall_impl; [exact (Forall_both IH (Forall_both Hs Hu)) |]. cbn.
    intros x (Hx & Hsx & Hux). auto.
  - apply andb_prop in Hs as [Hw Hs]. apply negb_true_iff in Hw.
    apply forallb_Forall_true in Hs. apply unique_keys_obj in Hu as [Hnd Hu].
    rewrite tree_of_obj_defined
      by (eapply Forall_impl; [exact Hs |]; cbn; intros p Hp; apply nested_defined, Hp).
    rewrite sort_keys_map.
    change (revive engineStack (VObj ?ts))
      with (ps' ← mapM (fun p => x ← revive engineStack (snd p); mret (fst p, x)) ts;
            reviver engineStack (VObj ps')).
    rewrite (mapM_map_map _ _ (fun p => (fst p, canon (snd p)))).
    + cbn [canon]. rewrite (sort_keys_map canon ps).
      change (reviver engineStack
                (VObj (List.map (fun p => (fst p, canon (snd p))) (sort_keys ps)))
              = Returned (VObj (List.map (fun p => (fst p, canon (snd p))) (sort_keys ps)))).
      apply reviver_untagged.
      rewrite <- (sort_keys_map canon ps).
      rewrite (tag_like_sorted_map canon ps str_is_canon Hnd). exact Hw.
    + rewrite sort_keys_Permutation.
      eapply Forall_impl; [exact (Forall_both IH (Forall_both Hs Hu)) |]. cbn.
      intros p (Hp & Hsp & Hup). rewrite Hp by assumption. reflexivity.
  - destruct n as [| | | | n | | | | | | |]; try discriminate.
    destruct m as [| | | | m | | | | | | |];
      try (cbn in Hs; rewrite ?andb_false_r in Hs; discriminate).
    destruct s as [| | | | s | | | | | | |];
      try (cbn in Hs; rewrite ?andb_false_r in Hs; discriminate).
    apply andb_prop in Hs as [Hs Hs3]. apply andb_prop in Hs as [Hs1 Hs2].
    cbn in Hs1, Hs2, Hs3.
    destruct n as [|a n]; [discriminate |]. destruct m as [|b m]; [discriminate |].
    destruct s as [|c s]; [discriminate |]. reflexivity.
  - apply andb_prop in Hs as [Hp Hd]. apply forallb_Forall_true in Hp.
    apply unique_keys_map in Hu.
    change (tree_of (VMap es))
      with (tagged "Map" (VArr (List.map
              (fun e => VArr [tree_of (fst e); tree_of (snd e)]) es))).
    rewrite (revive_tagged _ _
               (VArr (List.map (fun e => VArr [fst e; snd e])
                        (List.map (fun e => (canon (fst e), canon (snd e))) es)))).
    + change (reviver engineStack (tagged "Map" ?x)) with (new_Map x).
      rewrite new_Map_items; [reflexivity |].
      assert (E : List.map fst (List.map (fun e => (canon (fst e), canon (snd e))) es)
                  = List.map canon (List.map fst es)).
      { rewrite !List.map_map. reflexivity. }
      rewrite E, distinct_canon_nil. exact Hd.
    + apply revive_arr. rewrite List.map_map.
      apply (mapM_map_map _ _ (fun e => VArr [canon (fst e); canon (snd e)])).
      eapply Forall_impl; [exact (Forall_both IH (Forall_both Hp Hu)) |]. cbn.
      intros e ([H1 H2] & Hn & [U1 U2]). apply andb_prop in Hn as [N1 N2].
      rewrite (H1 N1 U1). cbn. rewrite (H2 N2 U2). reflexivity.
  - apply andb_prop in Hs as [Hp Hd]. apply forallb_Forall_true in Hp.
    apply unique_keys_set in Hu.
    change (tree_of (VSet ms)) with (tagged "Set" (VArr (List.map tree_of ms))).
    rewrite (revive_tagged _ _ (VArr (List.map canon ms))).
    + change (reviver engineStack (tagged "Set" ?x)) with (new_Set x).
      rewrite new_Set_items; [reflexivity |].
      rewrite distinct_canon_nil. exact Hd.
    + apply revive_arr. apply (mapM_map_map _ tree_of canon).
      eapply Forall_impl; [exact (Forall_both IH (Forall_both Hp Hu)) |]. cbn.
      intros x (Hx & Hsx & Hux). auto.
Qed.

(** X4: maps, sets, errors and bigints nested in one another at any depth
    go through [serialize] and [deserializeUnsafe] and come back
    structurally equal, the properties of every object in the order of
    their names. *)
Theorem deserializeUnsafe_round_trip (v : value) :
  nested v = true -> unique_keys v ->
  exists s, serialize v = Some s /\
            deserializeUnsafe engineStack s = Returned (canon v) /\
            same_struct v (canon v).
Proof.
  intros Hs Hu. exists (print (tree_of v)).
  split; [apply serialize_tree_of, nested_defined, Hs |].
  split; [| apply same_struct_canon].
  unfold deserializeUnsafe.
  rewrite (JSON_parse_print _ (is_tree_tree_of v)),
    (norm_unique _ (unique_keys_tree_of v Hu)).
  apply nested_tree; assumption.
Qed.

End Reviver.

Lemma deserializeUnsafe_round_trip_witness :
  exists s, serialize nested_value = Some s /\
            deserializeUnsafe no_stack s = Returned (canon nested_value) /\
            same_struct nested_value (canon nested_value).
Proof.
  apply (deserializeUnsafe_round_trip no_stack nested_value); [reflexivity |].
  cbn. repeat split; apply (bool_decide_unpack _); vm_compute; exact I.
Defined.

(** ** convertBigIntsToStrings *)



(** X7: converting twice is converting once. *)
Theorem convertBigIntsToStrings_idempotent (v : value) :
  convertBigIntsToStrings (convertBigIntsToStrings v) = convertBigIntsToStrings v.
Proof.
  induction v as [| | b | n | s | n | n | l IH | ps IH | n m s _ _ _ | es _ | ms _]
    using value_induction; try reflexivity.
  - cbn. f_equal. rewrite List.map_map. apply map_ext_Forall, IH.
  - cbn. f_equal. rewrite List.map_map. apply map_ext_Forall.
    eapply Forall_impl; [exact IH |]. cbn. intros p Hp. rewrite Hp. reflexivity.
Qed.



(** ** The two encodings of the challenge header *)

Lemma trim_right_end (s : string) (c : ascii) :
  is_space c = false -> trim_right (s ++ String c "") = s ++ String c "".
Proof.
  intros Hc. induction s as [|a s IH].
  - rewrite append_nil_l. cbn. rewrite Hc. reflexivity.
  - rewrite append_cons. cbn [trim_right]. rewrite IH.
    destruct s; rewrite ?append_nil_l, ?append_cons; cbn [String.eqb];
      rewrite andb_false_r; reflexivity.
Qed.

Lemma js_trim_bracketed (o c : ascii) (body : string) :
  is_space o = false -> is_space c = false ->
  js_trim (String o (body ++ String c "")) = String o (body ++ String c "").
Proof.
  intros Ho Hc. unfold js_trim. cbn [trim_left]. rewrite Ho.
  rewrite <- append_cons. apply trim_right_end, Hc.
Qed.

Lemma js_trim_container (t : value) :
  is_container t = true -> js_trim (print t) = print t /\ starts_json (print t) = true.
Proof.
  destruct t as [| | | | | | | l | ps | | |]; try discriminate; intros _.
  - change (print (VArr l))
      with (String "[" (String.concat "," (List.map print l) ++ String "]" "")).
    split; [apply js_trim_bracketed; reflexivity | reflexivity].
  - change (print (VObj ps))
      with (String "{" (String.concat ","
              (List.map (fun p => quote (fst p) ++ ":" ++ print (snd p)) ps)
              ++ String "}" "")).
    split; [apply js_trim_bracketed; reflexivity | reflexivity].
Qed.

Lemma trim_right_nonspace (cs : list ascii) :
  Forall (fun c => is_space c = false) cs ->
  trim_right (string_of_list_ascii cs) = string_of_list_ascii cs.
Proof.
  induction 1 as [|c cs Hc Hcs IH]; [reflexivity |].
  cbn. rewrite IH, Hc. reflexivity.
Qed.

Lemma js_trim_nonspace (cs : list ascii) :
  Forall (fun c => is_space c = false) cs ->
  js_trim (string_of_list_ascii cs) = string_of_list_ascii cs.
Proof.
  intros H. unfold js_trim. destruct H as [|c cs Hc Hcs]; [reflexivity |].
  cbn [string_of_list_ascii trim_left]. rewrite Hc.
  apply (trim_right_nonspace (c :: cs)). constructor; assumption.
Qed.

Lemma b64_char_plain (n : nat) :
  (n < 64)%nat ->
  is_space (b64_char n) = false /\
  ((nat_of_ascii (b64_char n) =? 123)%nat || (nat_of_ascii (b64_char n) =? 91)%nat) = false.
Proof.
  intros H. do 64 (destruct n as [|n]; [split; reflexivity |]). lia.
Qed.

(** Base64 text holds no white space and starts with neither a brace nor
    a bracket. *)
Lemma btoa_plain (bs : list nat) :
  Forall (fun b => (b < 256)%nat) bs ->
  js_trim (btoa bs) = btoa bs /\ starts_json (btoa bs) = false.
Proof.
  intros Hb. destruct (sextets_spec bs Hb) as (Hss & _ & _ & _).
  unfold btoa. destruct (sextets bs) as [ss pad]. cbn [fst] in Hss.
  assert (Hall : Forall (fun c => is_space c = false /\
                   ((nat_of_ascii c =? 123)%nat || (nat_of_ascii c =? 91)%nat) = false)
                   (List.map b64_char ss ++ repeat "="%char pad)%list).
  { apply Forall_app. split.
    - apply Forall_map. eapply Forall_impl; [exact Hss |]. cbn.
      intros n Hn. apply b64_char_plain, Hn.
    - clear. induction pad; cbn; constructor; [split; reflexivity | assumption]. }
  split.
  - apply js_trim_nonspace. eapply Forall_impl; [exact Hall |]. cbn. tauto.
  - destruct Hall as [|c cs [_ Hc] _]; [reflexivity | exact Hc].
Qed.

(** X9: a challenge sent as JSON text and the same challenge sent as the
    base64 of that text parse to the same value, the one [JSON.parse]
    reads from the text. *)
Theorem x402Parse_either_encoding (t : value) :
  is_tree t = true -> is_container t = true ->
  x402ParseJsonOrBase64Json (print t) = Returned (norm t) /\
  x402ParseJsonOrBase64Json (x402Base64EncodeUtf8 (print t)) = Returned (norm t).
Proof.
  intros Ht Hc. split.
  - unfold x402ParseJsonOrBase64Json.
    destruct (js_trim_container t Hc) as [-> ->]. apply JSON_parse_print, Ht.
  - unfold x402ParseJsonOrBase64Json, x402Base64EncodeUtf8.
    destruct (btoa_plain _ (utf8_encode_bytes (print t))) as [-> ->].
    change (btoa (utf8_encode (print t))) with (x402Base64EncodeUtf8 (print t)).
    rewrite x402Base64_roundtrip. cbn. rewrite (JSON_parse_print _ Ht). reflexivity.
Qed.

Lemma x402Parse_either_encoding_witness :
  x402ParseJsonOrBase64Json (print challenge_tree) = Returned (norm challenge_tree) /\
  x402ParseJsonOrBase64Json (x402Base64EncodeUtf8 (print challenge_tree))
  = Returned (norm challenge_tree).
Proof. apply x402Parse_either_encoding; reflexivity. Defined.

(** X10: [x402Base64DecodeUtf8] undoes [x402Base64EncodeUtf8] on every
    string, so the encoding loses nothing: two strings with the same
    encoding are the same string. *)
Theorem x402Base64_lossless (s s' : string) :
  x402Base64DecodeUtf8 (x402Base64EncodeUtf8 s) = Returned s /\
  (x402Base64EncodeUtf8 s = x402Base64EncodeUtf8 s' -> s = s').
Proof.
  split; [apply x402Base64_roundtrip |].
  intros E. pose proof (x402Base64_roundtrip s) as H.
  rewrite E, x402Base64_roundtrip in H. congruence.
Qed.

(** ** What [x402Fetch] does to the outside *)

(** A plan comes out of the validation only for the first exact entry, and
    only when that entry names USDC on Base. *)
Lemma x402_validate_inv w input req pl :
  x402_validate w input req = Returned (inr pl) ->
  exists accepted exact a,
    x402NormalizeAcceptedPayments req = Returned accepted /\
    find_first is_exact accepted = Returned (Some exact) /\
    truthy (get_prop "amount" exact) = true /\
    truthy (get_prop "payTo" exact) = true /\
    x402GetChainIdFromNetwork (get_prop "network" exact) = Returned (Some 8453) /\
    get_prop "asset" exact = VStr a /\
    toLowerCase a = usdc_base /\
    pl = plan_of w input req exact.
Proof.
  unfold x402_validate.
  destruct (x402NormalizeAcceptedPayments req) as [accepted| |] eqn:Hn; cbn;
    try discriminate.
  destruct (find_first is_exact accepted) as [[exact|]| |] eqn:Hf; cbn; try discriminate.
  destruct (truthy (get_prop "network" exact)) eqn:T1; cbn; try discriminate.
  destruct (truthy (get_prop "amount" exact)) eqn:T2; cbn; try discriminate.
  destruct (truthy (get_prop "asset" exact)) eqn:T3; cbn; try discriminate.
  destruct (truthy (get_prop "payTo" exact)) eqn:T4; cbn; try discriminate.
  destruct (x402GetChainIdFromNetwork (get_prop "network" exact)) as [[c|]| |] eqn:Hc;
    cbn; try discriminate.
  unfold x402IsUsdcOnBase, js_toLowerCase.
  destruct (get_prop "asset" exact) as [| | | | a | | | | | | |] eqn:Ha; cbn;
    try discriminate.
  destruct (c =? 8453) eqn:Hc8; cbn; try discriminate.
  destruct (String.eqb_spec (toLowerCase a) usdc_base) as [Hl|]; cbn; try discriminate.
  apply Z.eqb_eq in Hc8. subst c.
  set (method := js_coalesce _ _).
  destruct (truthy method); cbn.
  - destruct method; cbn; try discriminate.
    destruct (String.eqb _ "eip3009"); cbn; try discriminate.
    intros [= <-]. exists accepted, exact, a. repeat split; auto.
  - intros [= <-]. exists accepted, exact, a. repeat split; auto.
Qed.

Lemma x402_pay_inv w init pl r t :
  x402_pay w init pl = Returned (r, t) ->
  (t = [SignatureRequested (p_request pl)] /\
   (forall resp, r <> Ok resp) /\
   (forall e, getERC3009Signature w (p_request pl) = Err e -> r = Err (FromBridge e))) \/
  (exists signed encoded,
     getERC3009Signature w (p_request pl) = Ok signed /\
     payment_header pl signed = Returned encoded /\
     t = [SignatureRequested (p_request pl);
          Fetched (header_set "PAYMENT-SIGNATURE" encoded init)] /\
     r = match fetch w (header_set "PAYMENT-SIGNATURE" encoded init) with
         | inr second => Ok second
         | inl e => Err (AjaxError_fromError e)
         end).
Proof.
  unfold x402_pay. destruct (getERC3009Signature w (p_request pl)) as [signed|e|e] eqn:Hs.
  - destruct (payment_header pl signed) as [encoded|e|] eqn:Hp; try discriminate.
    + cbn. intros [= <- <-]. right. exists signed, encoded. auto.
    + intros [= <- <-]. left. repeat split; [discriminate | discriminate].
  - intros [= <- <-]. left. repeat split; [discriminate | congruence].
  - intros [= <- <-]. left. repeat split; [discriminate | discriminate].
Qed.

(** Every run of [x402Fetch] that returns is a single fetch, or a 402 with
    a validated challenge followed by the payment stage. *)
Lemma x402Fetch_inv w input init r t :
  x402Fetch w input init = Returned (r, t) ->
  (t = [Fetched init] /\
   forall resp, r = Ok resp -> fetch w init = inr resp /\ status resp <> 402) \/
  (exists resp h req pl t2,
     fetch w init = inr resp /\ status resp = 402 /\
     header_get "payment-required" (headers resp) = Some h /\
     x402ParseJsonOrBase64Json h = Returned req /\
     x402_validate w input req = Returned (inr pl) /\
     x402_pay w init pl = Returned (r, t2) /\
     t = Fetched init :: t2).
Proof.
  unfold x402Fetch, doFetch. cbn.
  destruct (fetch w init) as [e|resp] eqn:Hf.
  - intros [= <- <-]. left. split; [reflexivity | discriminate].
  - destruct (status resp =? 402) eqn:Hst; cbn.
    + apply Z.eqb_eq in Hst.
      destruct (header_get "payment-required" (headers resp)) as [[|c h]|] eqn:Hh.
      * intros [= <- <-]. left. split; [reflexivity | discriminate].
      * destruct (x402ParseJsonOrBase64Json (String c h)) as [req|e|] eqn:Hp;
          try discriminate.
        -- unfold x402_challenge.
           destruct (x402_validate w input req) as [[refusal|pl]|e|] eqn:Hv;
             try discriminate.
           ++ intros [= <- <-]. left. split; [reflexivity | discriminate].
           ++ destruct (x402_pay w init pl) as [[r2 t2]| |] eqn:Hpay; try discriminate.
              intros [= <- <-]. right. exists resp, (String c h), req, pl, t2. auto 10.
           ++ intros [= <- <-]. left. split; [reflexivity | discriminate].
        -- intros [= <- <-]. left. split; [reflexivity | discriminate].
      * intros [= <- <-]. left. split; [reflexivity | discriminate].
    + apply Z.eqb_neq in Hst. intros [= <- <-]. left.
      split; [reflexivity |]. intros resp' [= <-]. auto.
Qed.

Lemma header_get_set_same (name v : string) (hs : list (string * string)) :
  header_get name (header_set name v hs) = Some v.
Proof.
  induction hs as [|[k x] hs IH]; cbn.
  - rewrite String.eqb_refl. reflexivity.
  - destruct (String.eqb k (toLowerCase name)) eqn:E; cbn; rewrite E; [reflexivity | exact IH].
Qed.

Lemma header_get_set_other (name name' v : string) (hs : list (string * string)) :
  toLowerCase name' <> toLowerCase name ->
  header_get name' (header_set name v hs) = header_get name' hs.
Proof.
  intros Hne. induction hs as [|[k x] hs IH]; cbn.
  - destruct (String.eqb_spec (toLowerCase name) (toLowerCase name')); [congruence | reflexivity].
  - destruct (String.eqb_spec k (toLowerCase name)) as [->|Hk]; cbn.
    + destruct (String.eqb_spec (toLowerCase name) (toLowerCase name')); [congruence | reflexivity].
    + rewrite IH. reflexivity.
Qed.

(** X11: the wallet is asked for a signature only after a 402 whose
    challenge parses and whose first exact entry names USDC on Base
    (chain 8453); what it is asked to sign is that entry's amount, to that
    entry's payTo, for the requested URL, valid from now for the entry's
    maxTimeoutSeconds (60 without a numeric value). *)
Theorem signature_only_for_base_usdc w input init r t rq :
  x402Fetch w input init = Returned (r, t) ->
  In (SignatureRequested rq) t ->
  exists resp h req accepted exact a,
    fetch w init = inr resp /\ status resp = 402 /\
    header_get "payment-required" (headers resp) = Some h /\
    x402ParseJsonOrBase64Json h = Returned req /\
    x402NormalizeAcceptedPayments req = Returned accepted /\
    find_first is_exact accepted = Returned (Some exact) /\
    x402GetChainIdFromNetwork (get_prop "network" exact) = Returned (Some 8453) /\
    get_prop "asset" exact = VStr a /\ toLowerCase a = usdc_base /\
    rq = {| recipient := x402ResolveRequestUrl input;
            destinationAddress := get_prop "payTo" exact;
            amount := get_prop "amount" exact;
            validUntil :=
              now_ms w / 1000 +
              match get_prop "maxTimeoutSeconds" exact with VNum n => n | _ => 60 end;
            validAfter := now_ms w / 1000 |}.
Proof.
  intros Hx Hin. destruct (x402Fetch_inv _ _ _ _ _ Hx) as [[-> _] | H].
  - destruct Hin as [Hin|[]]. discriminate Hin.
  - destruct H as (resp & h & req & pl & t2 & Hf & Hs & Hh & Hp & Hv & Hpay & ->).
    destruct (x402_validate_inv _ _ _ _ Hv)
      as (accepted & exact & a & Hn & Hfi & _ & _ & Hc & Ha & Hl & ->).
    exists resp, h, req, accepted, exact, a. repeat (split; [assumption |]).
    destruct Hin as [Hin|Hin]; [discriminate Hin |].
    destruct (x402_pay_inv _ _ _ _ _ Hpay) as [(-> & _) | (s & enc & _ & _ & -> & _)].
    + destruct Hin as [[= <-]|[]]. reflexivity.
    + destruct Hin as [[= <-]|[Hin|[]]]; [reflexivity | discriminate Hin].
Qed.

Lemma signature_only_for_base_usdc_witness :
  exists resp h req accepted exact a,
    fetch (paying_world (challenge_text (entry_text "eip155:8453" ""))) [] = inr resp /\
    status resp = 402 /\
    header_get "payment-required" (headers resp) = Some h /\
    x402ParseJsonOrBase64Json h = Returned req /\
    x402NormalizeAcceptedPayments req = Returned accepted /\
    find_first is_exact accepted = Returned (Some exact) /\
    x402GetChainIdFromNetwork (get_prop "network" exact) = Returned (Some 8453) /\
    get_prop "asset" exact = VStr a /\ toLowerCase a = usdc_base /\
    {| recipient := "https://api.test/data"; destinationAddress := VStr "0xAbc";
       amount := VStr "1000"; validUntil := 1700000060; validAfter := 1700000000 |}
    = {| recipient := x402ResolveRequestUrl (InputString "https://api.test/data");
         destinationAddress := get_prop "payTo" exact;
         amount := get_prop "amount" exact;
         validUntil :=
           now_ms (paying_world (challenge_text (entry_text "eip155:8453" ""))) / 1000 +
           match get_prop "maxTimeoutSeconds" exact with VNum n => n | _ => 60 end;
         validAfter :=
           now_ms (paying_world (challenge_text (entry_text "eip155:8453" ""))) / 1000 |}.
Proof.
  eapply (signature_only_for_base_usdc
            (paying_world (challenge_text (entry_text "eip155:8453" "")))
            (InputString "https://api.test/data") []).
  - vm_compute. reflexivity.
  - right. left. reflexivity.
Defined.

(** X12: the effects of one [x402Fetch] call are the initial request
    alone, or the request and one signature request, or these two and one
    replay. A response returned after the initial request alone is not a
    402. The replay carries the caller's headers and the PAYMENT-SIGNATURE
    header. *)
Theorem x402Fetch_effects w input init r t :
  x402Fetch w input init = Returned (r, t) ->
  (t = [Fetched init] /\ forall resp, r = Ok resp -> status resp <> 402) \/
  (exists rq, t = [Fetched init; SignatureRequested rq] /\ forall resp, r <> Ok resp) \/
  (exists rq encoded,
     t = [Fetched init; SignatureRequested rq;
          Fetched (header_set "PAYMENT-SIGNATURE" encoded init)] /\
     header_get "PAYMENT-SIGNATURE" (header_set "PAYMENT-SIGNATURE" encoded init)
     = Some encoded /\
     forall name, toLowerCase name <> "payment-signature" ->
       header_get name (header_set "PAYMENT-SIGNATURE" encoded init) = header_get name init).
Proof.
  intros Hx. destruct (x402Fetch_inv _ _ _ _ _ Hx) as [[-> H] | H].
  - left. split; [reflexivity |]. intros resp Hr. apply (H resp Hr).
  - destruct H as (resp & h & req & pl & t2 & _ & _ & _ & _ & _ & Hpay & ->).
    right. destruct (x402_pay_inv _ _ _ _ _ Hpay) as [(-> & Hno & _) | (s & enc & _ & _ & -> & _)].
    + left. exists (p_request pl). auto.
    + right. exists (p_request pl), enc. split; [reflexivity |].
      split; [apply header_get_set_same |].
      intros name Hn. apply header_get_set_other. exact Hn.
Qed.

Lemma x402Fetch_effects_witness :
  exists r t,
    x402Fetch (paying_world (challenge_text (entry_text "eip155:8453" "")))
              (InputString "https://api.test/data") [("accept", "application/json")]
    = Returned (r, t) /\ length t = 3%nat.
Proof.
  destruct (x402Fetch (paying_world (challenge_text (entry_text "eip155:8453" "")))
              (InputString "https://api.test/data") [("accept", "application/json")])
    as [[r t]| |] eqn:E; [| vm_compute in E; discriminate E | vm_compute in E; discriminate E].
  exists r, t. split; [reflexivity |].
  destruct (x402Fetch_effects _ _ _ _ _ E) as [[-> _] | [(rq & -> & _) | (rq & enc & -> & _)]].
  - vm_compute in E. discriminate E.
  - vm_compute in E. discriminate E.
  - reflexivity.
Defined.

(** X13: when the wallet answers the signature request with an error,
    [x402Fetch] fails with that error and sends nothing more: no replay
    follows a refused signature. *)
Theorem signer_failure_stops w input init r t rq e :
  x402Fetch w input init = Returned (r, t) ->
  In (SignatureRequested rq) t ->
  getERC3009Signature w rq = Err e ->
  r = Err (FromBridge e) /\ t = [Fetched init; SignatureRequested rq].
Proof.
  intros Hx Hin He. destruct (x402Fetch_inv _ _ _ _ _ Hx) as [[-> _] | H].
  - destruct Hin as [Hin|[]]. discriminate Hin.
  - destruct H as (resp & h & req & pl & t2 & _ & _ & _ & _ & _ & Hpay & ->).
    destruct Hin as [Hin|Hin]; [discriminate Hin |].
    destruct (x402_pay_inv _ _ _ _ _ Hpay) as [(-> & _ & Herr) | (s & enc & Hs & _ & -> & _)].
    + destruct Hin as [[= <-]|[]]. split; [apply Herr, He | reflexivity].
    + destruct Hin as [[= <-]|[Hin|[]]]; [congruence | discriminate Hin].
Qed.

Lemma signer_failure_stops_witness :
  x402Fetch (refusing_world (challenge_text (entry_text "eip155:8453" "")))
            (InputString "https://api.test/data") []
  = Returned
      (Err (FromBridge ProxyError_notInitialized),
       [Fetched [];
        SignatureRequested
          {| recipient := "https://api.test/data"; destinationAddress := VStr "0xAbc";
             amount := VStr "1000"; validUntil := 1700000060; validAfter := 1700000000 |}]).
Proof.
  destruct (x402Fetch (refusing_world (challenge_text (entry_text "eip155:8453" "")))
              (InputString "https://api.test/data") [])
    as [[r t]| |] eqn:E; [| vm_compute in E; discriminate E | vm_compute in E; discriminate E].
  destruct (signer_failure_stops _ _ _ r t
              {| recipient := "https://api.test/data"; destinationAddress := VStr "0xAbc";
                 amount := VStr "1000"; validUntil := 1700000060;
                 validAfter := 1700000000 |}
              ProxyError_notInitialized E) as [-> ->].
  - vm_compute in E. injection E as _ <-. right. left. reflexivity.
  - reflexivity.
  - reflexivity.
Defined.

(** ** Chain ids *)


Lemma strip_prefix_app (p r : string) : strip_prefix p (p ++ r) = Some r.
Proof.
  induction p as [|a p IH]; [destruct r; reflexivity |].
  rewrite append_cons. cbn. rewrite Ascii.eqb_refl. exact IH.
Qed.



(** X15: the decimal text of a chain id of at most fifteen digits, after
    [eip155:], is read back as that id. *)
Theorem chain_id_of_decimal (n : Z) :
  0 <= n -> (String.length (dec n) <= 15)%nat ->
  x402GetChainIdFromNetwork (VStr ("eip155:" ++ dec n)) = Returned (Some n).
Proof.
  intros Hn Hlen. destruct n as [|p|p]; [reflexivity | | lia].
  unfold x402GetChainIdFromNetwork, eip155_digits. cbn [js_to_string].
  rewrite strip_prefix_app. rewrite dec_pos in *.
  destruct (of_uint_digits p) as [H1 H2].
  destruct (digits_head p) as (c & r & E & _ & _).
  assert (Hne : String.eqb (digits p) "" = false) by (rewrite E; reflexivity).
  apply Nat.ltb_ge in Hlen.
  rewrite Hne, all_digits_digits. cbn [negb andb]. rewrite Hlen, H1, H2. reflexivity.
Qed.

Lemma chain_id_of_decimal_witness :
  x402GetChainIdFromNetwork (VStr ("eip155:" ++ dec 8453)) = Returned (Some 8453).
Proof. apply chain_id_of_decimal; [lia | vm_compute; lia]. Defined.

Lemma x402Base64_lossless_witness :
  x402Base64DecodeUtf8 (x402Base64EncodeUtf8 "{}") = Returned "{}" /\
  (x402Base64EncodeUtf8 "{}" = x402Base64EncodeUtf8 "{}" -> "{}" = "{}").
Proof. apply (x402Base64_lossless "{}" "{}"). Defined.

(** ** Every state a bridge reaches *)

Section Runs.

Variable engineStack : string -> value.
Variable cls : bridge_class.

Lemma restored_add_log evs b :
  (forall p, restore_count p evs = 0%nat) ->
  restored_as_settled cls b -> restored_as_settled cls (add_log evs b).
Proof.
  intros Hev H p. cbn. rewrite restore_count_app, Hev, H. lia.
Qed.

Lemma restored_forget n b :
  restored_as_settled cls b -> restored_as_settled cls (forget n b).
Proof. intros H p. apply H. Qed.

Lemma restored_settle p r b :
  restored_as_settled cls b -> restored_as_settled cls (settle cls p r b).
Proof.
  intros H q. unfold settle. destruct (settled b !! p) eqn:Hs; [apply H |].
  cbn. rewrite restore_count_app, H.
  destruct (decide (q = p)) as [->|Hne].
  - rewrite Hs, lookup_insert_eq.
    destruct cls, r; cbn; unfold restore_count; cbn; rewrite ?Nat.eqb_refl; reflexivity.
  - rewrite lookup_insert_ne by congruence.
    assert (Hr : restore_count q [Restored p] = 0%nat).
    { unfold restore_count. cbn. destruct (Nat.eqb_spec q p); [congruence | reflexivity]. }
    assert (Hnil : restore_count q [] = 0%nat) by reflexivity.
    destruct cls, r; cbn -[restores]; rewrite ?Hr, ?Hnil; apply Nat.add_0_r.
Qed.

Lemma restored_rpcCall ev params ri b :
  restored_as_settled cls b -> restored_as_settled cls (rpcCall cls ev params ri b).1.
Proof.
  intros H. unfold rpcCall. destruct (child b) as [ch|]; [| exact H].
  set (b1 := Build_bridge _ _ _ _ _ _ _ _).
  assert (H1 : restored_as_settled cls b1).
  { intros p. cbn. rewrite restore_count_app, H. unfold restore_count at 1. cbn. lia. }
  destruct (call_raises ch); cbn.
  - apply restored_settle, H1.
  - apply restored_add_log; [reflexivity | exact H1].
Qed.

Lemma restored_deliver data b b' :
  restored_as_settled cls b ->
  deliver engineStack cls data b = Returned b' -> restored_as_settled cls b'.
Proof.
  intros H. unfold deliver.
  destruct (child b); [| intros [= <-]; exact H].
  destruct (deserialize engineStack data) as [[result| |]| |]; try discriminate;
    try (intros [= <-]; exact H).
  assert (Hdbg : forall t, restored_as_settled cls (add_log [Debugged t] b)).
  { intros t. apply restored_add_log; [reflexivity | exact H]. }
  destruct (on_envelope engineStack cls result b) as [b1| |] eqn:Hon;
    try discriminate; intros [= <-].
  - unfold on_envelope in Hon.
    destruct (get_member "callbackNonce" result) as [nonce| |]; cbn in Hon; try discriminate.
    destruct (pending _ nonce) as [[n p]|] eqn:Hp.
    + unfold run_callback in Hon.
      destruct (deserializeUnsafe engineStack _); cbn in Hon; try discriminate.
      destruct (truthy _); injection Hon as <-;
        apply restored_settle, restored_forget, Hdbg.
    + cbn in Hon. injection Hon as <-.
      apply restored_add_log; [reflexivity | apply Hdbg].
  - unfold on_envelope_aborted.
    destruct (get_member "callbackNonce" result) as [nonce| |]; try exact H.
    destruct (pending _ nonce) as [[n p]|]; [apply restored_forget |]; apply Hdbg.
Qed.

Lemma restored_step a b b' :
  restored_as_settled cls b -> step engineStack cls a b = Some b' ->
  restored_as_settled cls b'.
Proof.
  intros H. destruct a as [h | ev params ri | data]; cbn.
  - intros [= <-]. destruct h; exact H.
  - intros [= <-]. apply restored_rpcCall, H.
  - destruct (deliver engineStack cls data b) as [b1| |] eqn:Hd; try discriminate.
    + intros [= <-]. eapply restored_deliver; eassumption.
    + intros [= <-]. exact H.
Qed.

Lemma restored_run acts b b' :
  restored_as_settled cls b -> run engineStack cls acts b = Some b' ->
  restored_as_settled cls b'.
Proof.
  revert b. induction acts as [|a acts IH]; intros b H; cbn.
  - intros [= <-]. exact H.
  - destruct (step engineStack cls a b) as [b1|] eqn:Hs; [| discriminate].
    apply IH. eapply restored_step; eassumption.
Qed.

(** X16: in every state a bridge reaches, by any sequence of handshakes,
    calls and messages, the restore callback of each call has run at most
    once: not at all while the call is pending, once when it settled with
    a result, and on a failure once for [OneShotPay] and never for
    [WalletProxy]. *)
Theorem restore_once_in_every_state (acts : list action) (b : bridge) :
  run engineStack cls acts new_bridge = Some b ->
  restored_as_settled cls b /\ forall p, (restore_count p (log b) <= 1)%nat.
Proof.
  intros Hrun.
  assert (H : restored_as_settled cls b).
  { eapply restored_run; [| exact Hrun]. intros p. reflexivity. }
  split; [exact H |]. intros p. rewrite H.
  destruct (settled b !! p) as [r|]; [| lia]. destruct cls, r; cbn; lia.
Qed.

Lemma nonces_rpcCall ev params ri b :
  nonces_in_order b -> nonces_in_order (rpcCall cls ev params ri b).1.
Proof.
  intros (H0 & Hn & Hw). unfold rpcCall.
  destruct (child b) as [ch|]; [| split; [exact H0 | split; [exact Hn | exact Hw]]].
  set (b1 := Build_bridge _ _ _ _ _ _ _ _).
  assert (H1 : nonces_in_order b1).
  { split; [cbn; lia |]. split; [cbn; lia |].
    intros n p Hl. cbn in Hl.
    apply lookup_insert_Some in Hl as [[<- <-]|[_ Hl]]; cbn.
    - split; [lia | exact Hn].
    - destruct (Hw _ _ Hl). split; [lia | assumption]. }
  destruct (call_raises ch); cbn; [| exact H1].
  unfold settle. destruct (settled b1 !! nextPromise b); exact H1.
Qed.

Lemma nonces_settle p r b : nonces_in_order b -> nonces_in_order (settle cls p r b).
Proof. intros H. unfold settle. destruct (settled b !! p); exact H. Qed.

Lemma nonces_forget n b : nonces_in_order b -> nonces_in_order (forget n b).
Proof.
  intros (H0 & Hn & Hw). split; [exact H0 |]. split; [exact Hn |].
  intros m p Hl. cbn in Hl. apply lookup_delete_Some in Hl as [_ Hl]. apply (Hw _ _ Hl).
Qed.

Lemma nonces_deliver data b b' :
  nonces_in_order b -> deliver engineStack cls data b = Returned b' -> nonces_in_order b'.
Proof.
  intros H. unfold deliver.
  destruct (child b); [| intros [= <-]; exact H].
  destruct (deserialize engineStack data) as [[result| |]| |]; try discriminate;
    try (intros [= <-]; exact H).
  assert (Hdbg : forall t, nonces_in_order (add_log [Debugged t] b)) by (intros t; exact H).
  destruct (on_envelope engineStack cls result b) as [b1| |] eqn:Hon;
    try discriminate; intros [= <-].
  - unfold on_envelope in Hon.
    destruct (get_member "callbackNonce" result) as [nonce| |]; cbn in Hon; try discriminate.
    destruct (pending _ nonce) as [[n p]|] eqn:Hp.
    + unfold run_callback in Hon.
      destruct (deserializeUnsafe engineStack _); cbn in Hon; try discriminate.
      destruct (truthy _); injection Hon as <-;
        apply nonces_settle, nonces_forget, Hdbg.
    + cbn in Hon. injection Hon as <-. exact H.
  - unfold on_envelope_aborted.
    destruct (get_member "callbackNonce" result) as [nonce| |]; try exact H.
    destruct (pending _ nonce) as [[n p]|]; [apply nonces_forget |]; apply Hdbg.
Qed.

Lemma nonces_run acts b b' :
  nonces_in_order b -> run engineStack cls acts b = Some b' -> nonces_in_order b'.
Proof.
  revert b. induction acts as [|a acts IH]; intros b H; cbn.
  - intros [= <-]. exact H.
  - destruct (step engineStack cls a b) as [b1|] eqn:Hs; [| discriminate].
    apply IH. destruct a as [h | ev params ri | data]; cbn in Hs.
    + injection Hs as <-. destruct h; exact H.
    + injection Hs as <-. apply nonces_rpcCall, H.
    + destruct (deliver engineStack cls data b) as [b2| |] eqn:Hd; try discriminate;
        injection Hs as <-; [eapply nonces_deliver; eassumption | exact H].
Qed.

(** X17: in every state a bridge reaches, nonces have been handed out in
    order from zero, none twice: the next nonce is the number of calls
    dispatched so far, and the entry pending under nonce [n] belongs to
    call number [n]. *)
Theorem nonces_in_order_in_every_state (acts : list action) (b : bridge) :
  run engineStack cls acts new_bridge = Some b -> nonces_in_order b.
Proof.
  intros Hrun. eapply nonces_run; [| exact Hrun].
  split; [cbn; lia |]. split; [reflexivity |].
  intros n p Hl. cbn in Hl. rewrite lookup_empty in Hl. discriminate Hl.
Qed.

End Runs.

Lemma restore_once_in_every_state_witness :
  exists b, run no_stack OneShotPayClass sample_run new_bridge = Some b /\
            restored_as_settled OneShotPayClass b /\
            forall p, (restore_count p (log b) <= 1)%nat.
Proof.
  destruct (run no_stack OneShotPayClass sample_run new_bridge) as [b|] eqn:E;
    [| vm_compute in E; discriminate E].
  exists b. split; [reflexivity |].
  apply (restore_once_in_every_state no_stack OneShotPayClass sample_run b E).
Defined.

Lemma nonces_in_order_in_every_state_witness :
  exists b, run no_stack WalletProxyClass sample_run new_bridge = Some b /\
            nonces_in_order b.
Proof.
  destruct (run no_stack WalletProxyClass sample_run new_bridge) as [b|] eqn:E;
    [| vm_compute in E; discriminate E].
  exists b. split; [reflexivity |].
  apply (nonces_in_order_in_every_state no_stack WalletProxyClass sample_run b E).
Defined.

Lemma OneShotPay_restores_once_witness :
  let bA := (rpcCall OneShotPayClass "signIn" (VObj []) true ready_bridge).1 in
  exists b',
    deliver no_stack OneShotPayClass (envelope_text false 0 remote_error_text) bA
      = Returned b' /\
    settled b' !! 0%nat = Some (Err (ProxyError_fromError remote_error)) /\
    restore_count 0 (log b') = 1%nat.
Proof.
  intros bA.
  destruct (OneShotPay_restores_once no_stack "signIn" (VObj []) true
              {| call_raises := None |} ready_bridge bA
              (rpcCall OneShotPayClass "signIn" (VObj []) true ready_bridge).2)
    as [_ H].
  - apply bridge_inv_initialize, bridge_inv_new.
  - reflexivity.
  - reflexivity.
  - cbn in H.
    apply (H (envelope_text false 0 remote_error_text)
             (VObj [("success", VBool false); ("callbackNonce", VNum 0);
                    ("result", VStr remote_error_text)])
             remote_error).
    + vm_compute. reflexivity.
    + reflexivity.
    + vm_compute. reflexivity.
Defined.

(** ** Responses that do not decode, and visibility *)

Section Responses.

Variable engineStack : string -> value.

(** X19: a response for a pending call whose [result] text does not decode
    uses up the pending entry without settling the call: the promise stays
    pending, no restore callback runs, the visibility flag keeps its
    value, and the same response delivered again is dropped as
    unexpected. *)
Theorem undecodable_result_strands_call cls data result n p ch e b :
  child b = Some ch ->
  deserialize engineStack data = Returned (Ok result) ->
  get_member "callbackNonce" result = Returned (VNum n) ->
  rpcCallbacks b !! n = Some p ->
  deserializeUnsafe engineStack (js_to_string (get_prop "result" result)) = Thrown e ->
  exists b',
    deliver engineStack cls data b = Returned b' /\
    rpcCallbacks b' = delete n (rpcCallbacks b) /\
    settled b' = settled b /\
    isVisible b' = isVisible b /\
    (forall q, restore_count q (log b') = restore_count q (log b)) /\
    deliver engineStack cls data b'
    = Returned
        (add_log [Warned "Received RPC callback event that is not expected."]
           (add_log [Debugged ("Received callback from Wallet for nonce " ++ dec n)] b')).
Proof.
  intros Hc Hdes Hnonce Hp Hun.
  set (b1 := add_log [Debugged ("Received callback from Wallet for nonce " ++ dec n)] b).
  exists (forget n b1).
  assert (E : deliver engineStack cls data b = Returned (forget n b1)).
  { unfold deliver, on_envelope, on_envelope_aborted. rewrite Hc, Hdes, Hnonce. cbn.
    rewrite Hp. cbn. unfold run_callback. rewrite Hun. reflexivity. }
  split; [exact E |]. split; [reflexivity |]. split; [reflexivity |].
  split; [reflexivity |]. split.
  - intros q. cbn. rewrite restore_count_app. unfold restore_count at 2. cbn. lia.
  - unfold deliver, on_envelope. cbn [child forget add_log b1].
    rewrite Hc, Hdes, Hnonce. cbn. rewrite lookup_delete_eq. cbn. reflexivity.
Qed.


End Responses.

Lemma undecodable_result_strands_call_witness :
  let bA := (rpcCall OneShotPayClass "signIn" (VObj []) true ready_bridge).1 in
  exists b',
    deliver no_stack OneShotPayClass (envelope_text true 0 "not json") bA = Returned b' /\
    rpcCallbacks b' !! 0 = None /\ settled b' !! 0%nat = None /\ isVisible b' = true.
Proof.
  intros bA.
  destruct (undecodable_result_strands_call no_stack OneShotPayClass
              (envelope_text true 0 "not json")
              (VObj [("success", VBool true); ("callbackNonce", VNum 0);
                     ("result", VStr "not json")])
              0 0%nat {| call_raises := None |}
              (SyntaxError "Unexpected token or end of JSON input") bA)
    as (b' & Hd & Hcb & Hs & Hv & _).
  - reflexivity.
  - vm_compute. reflexivity.
  - reflexivity.
  - reflexivity.
  - vm_compute. reflexivity.
  - exists b'. split; [exact Hd |]. rewrite Hcb, Hs, Hv. repeat split.
Defined.


(** ** Where a bigint goes in the text *)

Lemma infix_refl (w : string) : infix w w.
Proof. exists "", "". rewrite append_nil_r. reflexivity. Qed.

Lemma infix_app (w s a b : string) : infix w s -> infix w (a ++ s ++ b).
Proof.
  intros (pre & post & ->). exists (a ++ pre), (post ++ b).
  rewrite !append_assoc. reflexivity.
Qed.

Lemma infix_concat (w sep : string) (l : list string) (s : string) :
  In s l -> infix w s -> infix w (String.concat sep l).
Proof.
  intros Hin Hw. induction l as [|x l IH]; [destruct Hin |].
  destruct l as [|y l].
  - destruct Hin as [->|[]]. exact Hw.
  - rewrite concat_cons2. destruct Hin as [->|Hin].
    + apply (infix_app w s "" (sep ++ String.concat sep (y :: l))) in Hw.
      rewrite append_nil_l in Hw. exact Hw.
    + specialize (IH Hin). apply (infix_app w _ (x ++ sep) "") in IH.
      rewrite append_nil_r, append_assoc in IH. exact IH.
Qed.

Lemma infix_print_arr (w : string) (ts : list value) (t : value) :
  In t ts -> infix w (print t) -> infix w (print (VArr ts)).
Proof.
  intros Hin Hw. cbn [print]. apply (infix_app w _ "[" "]").
  apply (infix_concat w "," _ (print t)); [apply in_map, Hin | exact Hw].
Qed.

Lemma infix_print_obj (w : string) (ps : list (string * value)) (k : string) (t : value) :
  In (k, t) ps -> infix w (print t) -> infix w (print (VObj ps)).
Proof.
  intros Hin Hw. cbn [print]. apply (infix_app w _ "{" "}").
  apply (infix_concat w "," _ (quote k ++ ":" ++ print t)).
  - apply (in_map (fun p => quote (fst p) ++ ":" ++ print (snd p)) ps (k, t)), Hin.
  - apply (infix_app w _ (quote k ++ ":") "") in Hw.
    rewrite append_nil_r, append_assoc in Hw. exact Hw.
Qed.

Lemma In_sort_keys {A} (p : string * A) (l : list (string * A)) :
  In p l -> In p (sort_keys l).
Proof.
  intros H. apply list_elem_of_In. rewrite sort_keys_Permutation.
  apply list_elem_of_In, H.
Qed.

Lemma In_kept (ps : list (string * value)) (k : string) (x t : value) :
  In (k, x) ps -> to_json x = Some t ->
  In (k, t) (omap (fun p => keep (fst p, to_json (snd p))) ps).
Proof.
  intros Hin Ht. apply list_elem_of_In, list_elem_of_omap.
  exists (k, x). split; [apply list_elem_of_In, Hin |]. cbn. rewrite Ht. reflexivity.
Qed.

(** The text of the wrapper of a bigint occurs in the text of every value
    that contains the bigint. *)
Lemma bigint_wrapper_in_tree (v : value) (n : Z) :
  contains v (VBigInt n) ->
  exists t, to_json v = Some t /\
            infix (print (tagged "bigint" (VStr (dec n)))) (print t).
Proof.
  remember (VBigInt n) as y eqn:Ey. induction 1 as
    [v | l x y Hin Hc IH | ps k x y Hin Hc IH | es k x y Hin Hc IH
       | es k x y Hin Hc IH | ms x y Hin Hc IH]; subst.
  - eexists. split; [reflexivity | apply infix_refl].
  - destruct (IH eq_refl) as (t & Ht & Hw). eexists. split; [reflexivity |].
    apply (infix_print_arr _ _ t); [| exact Hw].
    apply (in_map (fun x => default VNull (to_json x)) l x) in Hin.
    rewrite Ht in Hin. exact Hin.
  - destruct (IH eq_refl) as (t & Ht & Hw). eexists. split; [reflexivity |].
    apply (infix_print_obj _ _ k t); [| exact Hw].
    apply In_sort_keys, (In_kept ps k x t Hin Ht).
  - destruct (IH eq_refl) as (t & Ht & Hw). eexists. split; [reflexivity |].
    apply (infix_print_obj _ _ "value"
             (VArr (List.map (fun e => VArr [default VNull (to_json (fst e));
                                             default VNull (to_json (snd e))]) es)));
      [apply In_sort_keys; right; left; reflexivity |].
    apply (infix_print_arr _ _
             (VArr [default VNull (to_json k); default VNull (to_json x)])).
    + apply (in_map (fun e => VArr [default VNull (to_json (fst e));
                                    default VNull (to_json (snd e))]) es (k, x)), Hin.
    + apply (infix_print_arr _ _ t); [| exact Hw]. rewrite Ht. left. reflexivity.
  - destruct (IH eq_refl) as (t & Ht & Hw). eexists. split; [reflexivity |].
    apply (infix_print_obj _ _ "value"
             (VArr (List.map (fun e => VArr [default VNull (to_json (fst e));
                                             default VNull (to_json (snd e))]) es)));
      [apply In_sort_keys; right; left; reflexivity |].
    apply (infix_print_arr _ _
             (VArr [default VNull (to_json k); default VNull (to_json x)])).
    + apply (in_map (fun e => VArr [default VNull (to_json (fst e));
                                    default VNull (to_json (snd e))]) es (k, x)), Hin.
    + apply (infix_print_arr _ _ t); [| exact Hw]. rewrite Ht. right. left. reflexivity.
  - destruct (IH eq_refl) as (t & Ht & Hw). eexists. split; [reflexivity |].
    apply (infix_print_obj _ _ "value"
             (VArr (List.map (fun x => default VNull (to_json x)) ms)));
      [apply In_sort_keys; right; left; reflexivity |].
    apply (infix_print_arr _ _ t); [| exact Hw].
    apply (in_map (fun x => default VNull (to_json x)) ms x) in Hin.
    rewrite Ht in Hin. exact Hin.
Qed.

(** The replacer builds the wrapper tagged ["BigInt"] for a boxed BigInt
    object and for nothing else; any other node with that shape is an
    object that had it already. *)
Lemma BigInt_tag_origin (v payload : value) :
  replacer v = tagged "BigInt" payload ->
  (exists m, v = VBoxedBigInt m /\ payload = VStr (dec m)) \/ v = tagged "BigInt" payload.
Proof.
  destruct v as [| | | | | | m | | | | |]; cbn; try discriminate;
    try (intros <-; right; reflexivity).
  intros [= <-]. left. exists m. auto.
Qed.

Section BigIntCodec.

Variable engineStack : string -> value.

Lemma decode_bigint_wrapper (tag : string) (n : Z) :
  tag = "bigint" \/ tag = "BigInt" ->
  deserialize engineStack (print (tagged tag (VStr (dec n)))) = Returned (Ok (VBigInt n)) /\
  deserializeUnsafe engineStack (print (tagged tag (VStr (dec n)))) = Returned (VBigInt n).
Proof.
  intros Htag.
  assert (Ht : is_tree (tagged tag (VStr (dec n))) = true) by reflexivity.
  assert (Hu : unique_keys (tagged tag (VStr (dec n)))).
  { apply unique_keys_pair; [discriminate | exact I | exact I]. }
  unfold deserialize, deserializeUnsafe.
  rewrite (JSON_parse_print _ Ht), (norm_unique _ Hu).
  assert (Hp : processValue engineStack (tagged tag (VStr (dec n)))
               = (x ← bigint_of_string (dec n); Returned (VBigInt x)))
    by (destruct Htag as [-> | ->]; reflexivity).
  assert (Hr : revive engineStack (tagged tag (VStr (dec n)))
               = (x ← bigint_of_string (dec n); Returned (VBigInt x))).
  { rewrite (revive_tagged engineStack tag _ (VStr (dec n))) by reflexivity.
    destruct Htag as [-> | ->]; reflexivity. }
  cbn [mbind outcome_bind]. rewrite Hp, Hr, bigint_of_string_dec. split; reflexivity.
Qed.

(** C9, as the code has it: a primitive bigint anywhere in a value, at
    the top or at any depth inside arrays, plain objects, maps and sets,
    is serialized as the wrapper tagged ["bigint"] with its decimal text:
    the text of that wrapper occurs in the serialization. The tag
    ["BigInt"] is the one the replacer builds for a boxed BigInt object,
    and for nothing else. Both decoders read the wrapper of a bigint of
    either kind back as the primitive bigint. *)
Theorem serialize_bigint_tag (v : value) (n : Z) :
  contains v (VBigInt n) ->
  (exists s, serialize v = Some s /\
             infix (print (tagged "bigint" (VStr (dec n)))) s) /\
  serialize (VBigInt n) = Some (print (tagged "bigint" (VStr (dec n)))) /\
  serialize (VBoxedBigInt n) = Some (print (tagged "BigInt" (VStr (dec n)))) /\
  (forall x payload, replacer x = tagged "BigInt" payload ->
     (exists m, x = VBoxedBigInt m /\ payload = VStr (dec m)) \/
     x = tagged "BigInt" payload) /\
  deserialize engineStack (print (tagged "bigint" (VStr (dec n))))
    = Returned (Ok (VBigInt n)) /\
  deserialize engineStack (print (tagged "BigInt" (VStr (dec n))))
    = Returned (Ok (VBigInt n)) /\
  deserializeUnsafe engineStack (print (tagged "bigint" (VStr (dec n))))
    = Returned (VBigInt n) /\
  deserializeUnsafe engineStack (print (tagged "BigInt" (VStr (dec n))))
    = Returned (VBigInt n).
Proof.
  intros Hc. destruct (bigint_wrapper_in_tree v n Hc) as (t & Ht & Hw).
  destruct (decode_bigint_wrapper "bigint" n (or_introl eq_refl)) as [D1 U1].
  destruct (decode_bigint_wrapper "BigInt" n (or_intror eq_refl)) as [D2 U2].
  split; [| split; [reflexivity | split; [reflexivity | split;
    [apply BigInt_tag_origin | auto]]]].
  exists (print t). split; [| exact Hw].
  unfold serialize, stringify. rewrite Ht. reflexivity.
Qed.

End BigIntCodec.

Lemma serialize_bigint_tag_witness :
  exists s, serialize deep_bigint = Some s /\
            infix (print (tagged "bigint" (VStr "12345"))) s.
Proof.
  apply (serialize_bigint_tag no_stack deep_bigint 12345).
  eapply contains_obj; [left; reflexivity |].
  eapply contains_arr; [right; left; reflexivity |].
  eapply contains_set; [left; reflexivity |].
  eapply contains_obj; [left; reflexivity |].
  apply contains_here.
Defined.

(** ** Wrappers inside a map, through the two decoders *)

Lemma svz_tree_of (a b : value) :
  a <> VUndefined -> b <> VUndefined ->
  same_value_zero a b = false -> same_value_zero (tree_of a) (tree_of b) = false.
Proof.
  intros Ha Hb. destruct a; try congruence; destruct b; try congruence;
    intros H; first [exact H | reflexivity].
Qed.

Lemma distinct_tree_of (seen ks : list value) :
  Forall (fun x => x <> VUndefined) seen -> Forall (fun x => x <> VUndefined) ks ->
  distinct seen ks = true ->
  distinct (List.map tree_of seen) (List.map tree_of ks) = true.
Proof.
  intros Hseen Hks. revert seen Hseen.
  induction Hks as [|k ks Hk Hks IH]; intros seen Hseen; cbn; [reflexivity |].
  intros H. apply andb_prop in H as [H1 H2]. apply andb_true_intro. split.
  - clear H2. induction Hseen as [|x seen Hx Hseen IHs]; cbn in *; [reflexivity |].
    apply andb_prop in H1 as [Hkx H1]. apply negb_true_iff in Hkx.
    rewrite (svz_tree_of k x Hk Hx Hkx). cbn. apply IHs, H1.
  - rewrite <- (IH (seen ++ [k])%list); [rewrite List.map_app; reflexivity | | exact H2].
    apply Forall_app. split; [exact Hseen | constructor; [exact Hk | constructor]].
Qed.

Lemma Forall2_map_In {A B} (R : A -> B -> Prop) (g : A -> B) (l : list A) (a : A) :
  Forall2 R l (List.map g l) -> In a l -> R a (g a).
Proof.
  induction l as [|x l IH]; cbn; [intros _ [] |].
  intros H [->|Hin]; inversion H; subst; auto.
Qed.

Lemma wrapped_not_tree (x : value) : wrapped x = true -> ~ same_struct x (tree_of x).
Proof.
  destruct x; cbn [wrapped]; try discriminate; intros _ H;
    unfold tree_of in H; cbn in H; inversion H.
Qed.

Section MapPayload.

Variable engineStack : string -> value.

(** C1 on the code: a map that holds a bigint, an error, a map or a set
    does not come back from [deserialize (serialize _)]. [processValue]
    hands the payload of the ["Map"] wrapper to [new Map] without walking
    it, so the value comes back as its [{dataType, value}] wrapper object.
    [deserializeUnsafe], whose reviver sees every node, gives the map back
    from the same text. *)
Theorem nested_map_not_round_tripped (es : list (value * value)) (k x : value) :
  nested (VMap es) = true -> unique_keys (VMap es) ->
  In (k, x) es -> wrapped x = true ->
  exists s v',
    serialize (VMap es) = Some s /\
    deserialize engineStack s = Returned (Ok v') /\
    ~ same_struct (VMap es) v' /\
    deserializeUnsafe engineStack s = Returned (canon (VMap es)) /\
    same_struct (VMap es) (canon (VMap es)).
Proof.
  intros Hn Hu Hin Hw.
  exists (print (tree_of (VMap es))),
         (VMap (List.map (fun e => (tree_of (fst e), tree_of (snd e))) es)).
  pose proof (JSON_parse_print _ (is_tree_tree_of (VMap es))) as Hparse.
  rewrite (norm_unique _ (unique_keys_tree_of _ Hu)) in Hparse.
  split; [reflexivity |]. split; [| split; [| split; [| apply same_struct_canon]]].
  - unfold deserialize. rewrite Hparse.
    change (processValue engineStack (tree_of (VMap es)))
      with (new_Map (VArr (List.map (fun e => VArr [tree_of (fst e); tree_of (snd e)]) es))).
    assert (E : List.map (fun e => VArr [tree_of (fst e); tree_of (snd e)]) es
                = List.map (fun e => VArr [fst e; snd e])
                    (List.map (fun e => (tree_of (fst e), tree_of (snd e))) es)).
    { rewrite List.map_map. reflexivity. }
    rewrite E, new_Map_items; [reflexivity |].
    rewrite List.map_map. cbn [fst].
    rewrite <- (List.map_map fst tree_of).
    cbn [nested] in Hn. apply andb_prop in Hn as [Hall Hd].
    apply (distinct_tree_of [] (List.map fst es)); [constructor | | exact Hd].
    apply Forall_map. apply forallb_Forall_true in Hall.
    eapply Forall_impl; [exact Hall |]. cbn. intros e He.
    apply andb_prop in He as [He _]. apply nested_defined, He.
  - intros H. inversion H as [| | | | | | | | | | es0 es' HF |]; subst.
    apply (Forall2_map_In _ (fun e => (tree_of (fst e), tree_of (snd e))) es (k, x)) in HF;
      [| exact Hin].
    destruct HF as [_ HF]. exact (wrapped_not_tree x Hw HF).
  - unfold deserializeUnsafe. rewrite Hparse. cbn [mbind outcome_bind].
    apply nested_tree; assumption.
Qed.

End MapPayload.

Lemma nested_map_not_round_tripped_witness :
  exists s v',
    serialize bigint_map = Some s /\
    deserialize no_stack s = Returned (Ok v') /\
    ~ same_struct bigint_map v' /\
    deserializeUnsafe no_stack s = Returned (canon bigint_map) /\
    same_struct bigint_map (canon bigint_map).
Proof.
  apply (nested_map_not_round_tripped no_stack
           [(VStr "a", VBigInt 1); (VStr "b", VBigInt 2)] (VStr "a") (VBigInt 1)).
  - reflexivity.
  - cbn. tauto.
  - left. reflexivity.
  - reflexivity.
Defined.

Lemma serialize_reads_back_witness :
  JSON_parse (print (tree_of inserted_ab)) = Returned (norm (tree_of inserted_ab)) /\
  is_tree (norm (tree_of inserted_ab)) = true.
Proof. apply (serialize_reads_back inserted_ab). reflexivity. Defined.
